(** * Restaurant discovery agent: cache policy, workflow, retrieval ladder
      and reservations

    A shallow embedding of the query orchestration core of the restaurant
    discovery demo:
    - [services/ai/helpers/caching.js]            (module [Caching]),
    - [services/ai/agentic-restaurant-workflow/]  (module [Workflow]),
    - the tool registry and the restaurant service (module [Search]),
    - the reservation service and repository      (module [Reservations]).

    Part I holds the definitions, Part II the theorems. *)

From stdpp Require Import base gmap strings list pretty.
From Stdlib Require Import Ascii ZArith QArith Lia Sorted.

Local Open Scope string_scope.
Local Open Scope list_scope.

(* ===================================================================== *)
(** * Part I. Definitions                                                 *)
(* ===================================================================== *)

(** ** Arrays of strings as the code uses them *)

Module Js.

(** [arr.includes(x)] on an array of strings. *)
Definition includes (arr : list string) (x : string) : bool :=
  existsb (String.eqb x) arr.

(** [arr.some(p)]. *)
Definition some {A : Type} (p : A -> bool) (arr : list A) : bool :=
  existsb p arr.

(** Truthiness of a string: only the empty string is falsy. *)
Definition truthy (s : string) : bool :=
  match s with EmptyString => false | String _ _ => true end.

(** Truthiness of an optional string argument ([undefined] is falsy). *)
Definition truthyOpt (s : option string) : bool :=
  match s with None => false | Some v => truthy v end.

End Js.

(** ** services/ai/helpers/caching.js *)

Module Caching.

Definition personalTools : list string :=
  ["make_reservation"; "get_user_reservations"; "cancel_reservation"].

Definition staticTools : list string :=
  ["get_popular_restaurants"; "direct_answer"].

Definition searchTools : list string := ["semantic_search_restaurants"].

Definition detailTools : list string := ["get_restaurant_details"].

(** TTL in milliseconds; [0] means that the answer is not cached. *)
Definition determineToolBasedCacheTTL (toolsUsed : list string) : Z :=
  if Js.some (fun tool => Js.includes toolsUsed tool) personalTools then 0
  else if Js.some (fun tool => Js.includes toolsUsed tool) staticTools
       then 7 * 24 * 60 * 60 * 1000
  else if Js.some (fun tool => Js.includes toolsUsed tool) searchTools
       then 24 * 60 * 60 * 1000
  else if Js.some (fun tool => Js.includes toolsUsed tool) detailTools
       then 6 * 60 * 60 * 1000
  else 12 * 60 * 60 * 1000.

(** The tool classes of the policy, as membership in the list of a turn. *)
Definition usesPersonal (toolsUsed : list string) : Prop :=
  In "make_reservation" toolsUsed \/ In "get_user_reservations" toolsUsed
  \/ In "cancel_reservation" toolsUsed.

Definition usesStatic (toolsUsed : list string) : Prop :=
  In "get_popular_restaurants" toolsUsed \/ In "direct_answer" toolsUsed.

End Caching.

(** ** JavaScript numbers

    A number is NaN, an infinity or a finite value; a finite double is a
    rational, so finite values are carried as [Q].  Arithmetic on finite
    values is exact: the rounding of doubles and the sign of zero are left
    out. *)

Module JsNum.

Inductive Num : Type :=
| NaN
| NegInf
| PosInf
| Fin (q : Q).

Definition ofZ (z : Z) : Num := Fin (inject_Z z).

(** Truthiness: [0] and [NaN] are falsy. *)
Definition truthy (n : Num) : bool :=
  match n with
  | NaN => false
  | NegInf | PosInf => true
  | Fin q => negb (Qeq_bool q 0)
  end.

(** Truthiness of an optional number ([undefined] is falsy). *)
Definition truthyOpt (n : option Num) : bool :=
  match n with None => false | Some v => truthy v end.

(** Ordering of two numbers; [None] when one of them is NaN. *)
Definition compare (a b : Num) : option comparison :=
  match a, b with
  | NaN, _ | _, NaN => None
  | NegInf, NegInf => Some Eq
  | NegInf, _ => Some Lt
  | _, NegInf => Some Gt
  | PosInf, PosInf => Some Eq
  | PosInf, _ => Some Gt
  | _, PosInf => Some Lt
  | Fin x, Fin y => Some (Qcompare x y)
  end.

(** [a < b], [a > b], [a <= b], [a >= b]: false when NaN is involved. *)
Definition lt (a b : Num) : bool :=
  match compare a b with Some Lt => true | _ => false end.
Definition gt (a b : Num) : bool :=
  match compare a b with Some Gt => true | _ => false end.
Definition le (a b : Num) : bool :=
  match compare a b with Some Lt | Some Eq => true | _ => false end.
Definition ge (a b : Num) : bool :=
  match compare a b with Some Gt | Some Eq => true | _ => false end.

(** [a !== b] on numbers: NaN differs from everything, itself included. *)
Definition strictNe (a b : Num) : bool :=
  match compare a b with Some Eq => false | _ => true end.

(** [a - b]. *)
Definition sub (a b : Num) : Num :=
  match a, b with
  | Fin x, Fin y => Fin (x - y)
  | NaN, _ | _, NaN => NaN
  | PosInf, PosInf | NegInf, NegInf => NaN
  | PosInf, _ | _, NegInf => PosInf
  | NegInf, _ | _, PosInf => NegInf
  end.

(** [a / c] for a whole divisor above zero. *)
Definition divideBy (a : Num) (c : positive) : Num :=
  match a with
  | Fin x => Fin (x / inject_Z (Zpos c))
  | other => other
  end.

(** [Math.max(a, b)] and [Math.min(a, b)]: NaN when an argument is NaN. *)
Definition max (a b : Num) : Num :=
  match compare a b with
  | None => NaN
  | Some Lt => b
  | Some _ => a
  end.

Definition min (a b : Num) : Num :=
  match compare a b with
  | None => NaN
  | Some Gt => b
  | Some _ => a
  end.

(** [a * b]; an infinity times zero is NaN. *)
Definition mul (a b : Num) : Num :=
  match a, b with
  | Fin x, Fin y => Fin (x * y)
  | _, _ =>
      match compare a (Fin 0), compare b (Fin 0) with
      | Some Gt, Some Gt | Some Lt, Some Lt => PosInf
      | Some Gt, Some Lt | Some Lt, Some Gt => NegInf
      | _, _ => NaN
      end
  end.

(** Sign of [a - b] as a sort comparator reads it: a NaN difference
    counts as [0]. *)
Definition signOfDifference (a b : Num) : comparison :=
  match compare a b with Some c => c | None => Eq end.

(** The value as a count of array elements, when it is a whole number that
    is not negative. *)
Definition asCount (n : Num) : option nat :=
  match n with
  | Fin q =>
      let r := Qred q in
      if (Z.leb 0 (Qnum r) && Pos.eqb (Qden r) 1)%bool
      then Some (Z.to_nat (Qnum r)) else None
  | _ => None
  end.

(** Rounding of a finite value towards zero, as array indices are
    read. *)
Definition truncate (q : Q) : Z := Z.quot (Qnum q) (Zpos (Qden q)).

End JsNum.

(** ** Thrown values and results *)

Module Effect.

(** A call either returns or throws; what is thrown carries its code (the
    first argument of [AppError]) or the name of the runtime error. *)
Inductive Res (A : Type) : Type :=
| Ok (a : A)
| Raise (code : string).

Arguments Ok {A} a.
Arguments Raise {A} code.

Definition bind {A B : Type} (r : Res A) (k : A -> Res B) : Res B :=
  match r with
  | Ok a => k a
  | Raise e => Raise e
  end.

Definition isOk {A : Type} (r : Res A) : bool :=
  match r with Ok _ => true | Raise _ => false end.

#[global] Instance res_ret : MRet Res := @Ok.
#[global] Instance res_bind : MBind Res := fun A B k r => bind r k.

End Effect.

(** ** Restaurant documents

    The fields that the index returns for a document. *)

Record Restaurant : Type := mkRestaurant {
  rid : string;
  rname : string;
  rcuisine : string;
  rcity : string;
  rlocality : string;
  rtype : string;
  rpriceFor2 : JsNum.Num;
  rrating : JsNum.Num;
  rreviewCount : option JsNum.Num
}.

(** ** services/ai/agentic-restaurant-workflow, with the cache calls of
       services/chat

    Every call that leaves the process (the semantic cache, the chat
    model, a tool, the session store) is recorded as an [Event]; the
    answer to a call is given by the [World], which sees the events so far,
    so that an answer may depend on everything that happened before. *)

Module Workflow.
Import Effect.

Record ToolCall : Type := mkToolCall {
  tcName : string;
  tcArgs : gmap string string;
  tcId : string
}.

(** What [modelWithTools.invoke] returns. *)
Record AIResponse : Type := mkAIResponse {
  content : string;
  tool_calls : option (list ToolCall)
}.

Inductive Message : Type :=
| HumanMessage (text : string)
| AIMessage (text : string)
| SystemPrompt (text : string)
| ModelResponse (response : AIResponse)
| ToolMessage (text : string) (tool_call_id : string).

Inductive SearchStrategy : Type := Exact | Semantic.

(** Argument of [langCache.search]. *)
Record SearchParams : Type := mkSearchParams {
  sp_prompt : string;
  sp_searchStrategies : list SearchStrategy;
  sp_attributes : option (gmap string string)
}.

(** Argument of [langCache.set]. *)
Record CacheParams : Type := mkCacheParams {
  cp_prompt : string;
  cp_response : option string;
  cp_ttlMillis : Z;
  cp_attributes : option (gmap string string)
}.

Record CacheEntry : Type := mkCacheEntry { response : option string }.

Record SearchResponse : Type := mkSearchResponse {
  data : option (list CacheEntry)
}.

(** A stored chat message: [{ role, content }]. *)
Record ChatMessage : Type := mkChatMessage {
  role : string;
  cm_content : option string
}.

Record UserProfile : Type := mkUserProfile {
  preferences : option (list string)
}.

(** What the agent reads in a tool result after [JSON.parse]. *)
Record ParsedToolResult : Type := mkParsed {
  p_type : option string;
  p_restaurants : option (list Restaurant);
  p_restaurant : option Restaurant
}.

Inductive Event : Type :=
| GetOrCreateChatHistory (sessionId chatId : string)
| SaveChatMessage (sessionId chatId : string) (message : ChatMessage)
| LangCacheSearch (searchParams : SearchParams)
| LangCacheSet (cacheParams : CacheParams)
| GetUserProfile (sessionId : string)
| ModelInvoke (messages : list Message)
| ToolInvoke (name : string) (args : gmap string string).

(** The collaborators of the workflow.  [JSON_parse] gives [None] when the
    text does not parse or has no fields to read; [messagesStateReducer] is
    the reducer of the [messages] channel of the graph state. *)
Class World : Type := mkWorld {
  chatRepository_getOrCreateChatHistory :
    list Event -> string -> string -> Res (list ChatMessage);
  chatRepository_saveChatMessage :
    list Event -> string -> string -> ChatMessage -> Res unit;
  langCache_search : list Event -> SearchParams -> Res SearchResponse;
  langCache_set : list Event -> CacheParams -> Res unit;
  userService_getUserProfile : list Event -> string -> option UserProfile;
  model_invoke : list Event -> list Message -> Res AIResponse;
  tool_invoke : list Event -> string -> gmap string string -> Res string;
  JSON_parse : string -> option ParsedToolResult;
  renderSystemPrompt : list Event -> list string -> string -> string;
  messagesStateReducer : list Message -> list Message -> list Message
}.

Inductive CacheStatus : Type := hit | miss | skip | saved | error.

(** [RestaurantAgentState]. *)
Record AgentState : Type := mkAgentState {
  sessionId : string;
  messages : list Message;
  result : option string;
  cacheStatus : option CacheStatus;
  toolsUsed : option (list string);
  foundRestaurants : option (list Restaurant)
}.

(** What a node returns: the channels it writes. *)
Record Update : Type := mkUpdate {
  u_sessionId : option string;
  u_messages : option (list Message);
  u_result : option string;
  u_cacheStatus : option CacheStatus;
  u_toolsUsed : option (list string);
  u_foundRestaurants : option (list Restaurant)
}.

Definition dquote : string := String (Ascii.ascii_of_nat 34) EmptyString.

(** [JSON.stringify({ type: "error", success: false,
                      error: "Unknown tool requested" })]. *)
Definition unknownToolResult : string :=
  "{" +:+ dquote +:+ "type" +:+ dquote +:+ ":" +:+ dquote +:+ "error"
  +:+ dquote +:+ "," +:+ dquote +:+ "success" +:+ dquote +:+ ":false,"
  +:+ dquote +:+ "error" +:+ dquote +:+ ":" +:+ dquote
  +:+ "Unknown tool requested" +:+ dquote +:+ "}".

Definition agentApology : string :=
  "I apologize, but I'm having trouble with your restaurant request right now. Please try asking about restaurant recommendations, making reservations, or general dining questions!".

Definition workflowApology : string :=
  "I apologize, but I'm having trouble processing your restaurant request right now. Please try asking about restaurant recommendations, making reservations, or general dining questions.".

(** The names of [restaurantTools], in the order of the array. *)
Definition restaurantTools : list string :=
  ["semantic_search_restaurants"; "get_restaurant_details";
   "get_popular_restaurants"; "make_reservation"; "get_user_reservations";
   "cancel_reservation"; "direct_answer"].

Definition isHuman (m : Message) : bool :=
  match m with HumanMessage _ => true | _ => false end.

Definition messageContent (m : Message) : string :=
  match m with
  | HumanMessage t | AIMessage t | SystemPrompt t | ToolMessage t _ => t
  | ModelResponse r => content r
  end.

(** [arr.findLast(p)]. *)
Definition findLast {A : Type} (p : A -> bool) (arr : list A) : option A :=
  find p (rev arr).

(** [state.messages.findLast(m => m.getType() === "human")?.content || ""]. *)
Definition lastUserQuery (msgs : list Message) : string :=
  match findLast isHuman msgs with
  | Some m => if Js.truthy (messageContent m) then messageContent m else ""
  | None => ""
  end.

(** The variables of the agent that the loop updates. *)
Record LoopState : Type := mkLoopState {
  currentMessages : list Message;
  loopToolsUsed : list string;
  loopFoundRestaurants : list Restaurant
}.

(** One pass of the body of [while (true)]: the loop goes on, the node
    returns, or something is thrown to the [catch] around the loop. *)
Inductive Step : Type :=
| Continue (h : list Event) (ls : LoopState)
| Exit (h : list Event) (u : Update)
| Fail (h : list Event) (code : string).

(** How long the loop has been followed: it returned, it threw, or it is
    still running after the given number of passes. *)
Inductive Outcome (A : Type) : Type :=
| Returned (a : A)
| Threw (code : string)
| Running.

Arguments Returned {A} a.
Arguments Threw {A} code.
Arguments Running {A}.

Section WithWorld.
Context {W : World}.

(** The graph applies the channels that a node wrote; [messages] goes
    through its reducer, the other channels keep the last value. *)
Definition applyUpdate (st : AgentState) (u : Update) : AgentState :=
  {| sessionId := match u_sessionId u with
                  | Some v => v
                  | None => sessionId st
                  end;
     messages := match u_messages u with
                 | Some v => messagesStateReducer (messages st) v
                 | None => messages st
                 end;
     result := match u_result u with Some v => Some v | None => result st end;
     cacheStatus := match u_cacheStatus u with
                    | Some v => Some v
                    | None => cacheStatus st
                    end;
     toolsUsed := match u_toolsUsed u with
                  | Some v => Some v
                  | None => toolsUsed st
                  end;
     foundRestaurants := match u_foundRestaurants u with
                         | Some v => Some v
                         | None => foundRestaurants st
                         end |}.

(** *** services/chat/data/chat-repository.js *)

Definition sessionAttributes (sid : string) : gmap string string :=
  {[ "sessionId" := sid ]}.

(** [result.data?.[0]?.response || null]. *)
Definition firstResponse (r : SearchResponse) : option string :=
  match data r with
  | Some (entry :: _) =>
      match response entry with
      | Some text => if Js.truthy text then Some text else None
      | None => None
      end
  | _ => None
  end.

Definition findFromSemanticCache (h : list Event) (query : string)
    (sid : option string) : list Event * Res (option string) :=
  let searchParams :=
    {| sp_prompt := query;
       sp_searchStrategies := [Exact; Semantic];
       sp_attributes := match sid with
                        | Some s => if Js.truthy s
                                    then Some (sessionAttributes s) else None
                        | None => None
                        end |} in
  (h ++ [LangCacheSearch searchParams],
   match langCache_search h searchParams with
   | Ok r => Ok (firstResponse r)
   | Raise e => Raise e
   end).

Definition saveResponseInSemanticCache (h : list Event) (query : string)
    (aiReplyMessage : option string) (ttlMillis : Z) (sid : option string)
    : list Event * Res unit :=
  let cacheParams :=
    {| cp_prompt := query;
       cp_response := aiReplyMessage;
       cp_ttlMillis := ttlMillis;
       cp_attributes := match sid with
                        | Some s => if Js.truthy s
                                    then Some (sessionAttributes s) else None
                        | None => None
                        end |} in
  (h ++ [LangCacheSet cacheParams], langCache_set h cacheParams).

(** *** services/chat/domain/chat-service.js *)

Definition saveToSemanticCache (h : list Event) (query : string)
    (resp : option string) (ttlMillis : Z) (sid : option string)
    : list Event * Res unit :=
  saveResponseInSemanticCache h query resp ttlMillis sid.

Definition checkSemanticCache (h : list Event) (query : string)
    (sid : option string) : list Event * Res (option string) :=
  findFromSemanticCache h query sid.

(** *** nodes.js, node 1: the cache check

    The lookup is called with the query alone: the second parameter of
    [checkSemanticCache] is left [undefined]. *)
Definition queryCacheCheck (h : list Event) (state : AgentState)
    : list Event * Update :=
  let userQuery := lastUserQuery (messages state) in
  let missUpdate :=
    {| u_sessionId := Some (sessionId state); u_messages := None;
       u_result := None; u_cacheStatus := Some miss;
       u_toolsUsed := None; u_foundRestaurants := None |} in
  match checkSemanticCache h userQuery None with
  | (h', Ok (Some cachedResult)) =>
      if Js.truthy cachedResult
      then (h', {| u_sessionId := Some (sessionId state);
                   u_messages :=
                     Some (messages state ++ [AIMessage cachedResult]);
                   u_result := Some cachedResult;
                   u_cacheStatus := Some hit;
                   u_toolsUsed := None; u_foundRestaurants := None |})
      else (h', missUpdate)
  | (h', Ok None) => (h', missUpdate)
  | (h', Raise _) => (h', missUpdate)
  end.

(** *** nodes.js, node 2: the restaurant discovery agent *)

(** [!response.tool_calls || response.tool_calls.length === 0]. *)
Definition noToolCalls (r : AIResponse) : bool :=
  match tool_calls r with
  | None | Some [] => true
  | Some (_ :: _) => false
  end.

Definition pendingToolCalls (r : AIResponse) : list ToolCall :=
  match tool_calls r with Some calls => calls | None => [] end.

Definition typeIs (p : ParsedToolResult) (ty : string) : bool :=
  match p_type p with Some t => String.eqb t ty | None => false end.

(** The assignments to [foundRestaurants] after [JSON.parse(toolResult)];
    a text that does not parse leaves the variable as it is. *)
Definition restaurantsOfResult (found : list Restaurant)
    (parsed : option ParsedToolResult) : list Restaurant :=
  match parsed with
  | None => found
  | Some p =>
      match (if typeIs p "restaurant_search" then p_restaurants p else None)
      with
      | Some rs => rs
      | None =>
          match (if typeIs p "restaurant_details" then p_restaurant p
                 else None) with
          | Some r => [r]
          | None => found
          end
      end
  end.

(** [for (const toolCall of response.tool_calls) { ... }]. *)
Fixpoint runToolCalls (sid : string) (calls : list ToolCall)
    (h : list Event) (ls : LoopState) : list Event * Res LoopState :=
  match calls with
  | [] => (h, Ok ls)
  | toolCall :: rest =>
      let used := loopToolsUsed ls ++ [tcName toolCall] in
      if Js.includes restaurantTools (tcName toolCall) then
        let toolArgs :=
          if Js.includes ["make_reservation"; "get_user_reservations"]
               (tcName toolCall)
          then <[ "sessionId" := sid ]> (tcArgs toolCall)
          else tcArgs toolCall in
        let h' := h ++ [ToolInvoke (tcName toolCall) toolArgs] in
        match tool_invoke h (tcName toolCall) toolArgs with
        | Raise e => (h', Raise e)
        | Ok toolResult =>
            runToolCalls sid rest h'
              {| currentMessages :=
                   currentMessages ls
                   ++ [ToolMessage toolResult (tcId toolCall)];
                 loopToolsUsed := used;
                 loopFoundRestaurants :=
                   restaurantsOfResult (loopFoundRestaurants ls)
                     (JSON_parse toolResult) |}
        end
      else
        runToolCalls sid rest h
          {| currentMessages :=
               currentMessages ls
               ++ [ToolMessage unknownToolResult (tcId toolCall)];
             loopToolsUsed := used;
             loopFoundRestaurants := loopFoundRestaurants ls |}
  end.

Definition loopBody (state : AgentState) (h : list Event) (ls : LoopState)
    : Step :=
  let h1 := h ++ [ModelInvoke (currentMessages ls)] in
  match model_invoke h (currentMessages ls) with
  | Raise e => Fail h1 e
  | Ok resp =>
      let pushed :=
        {| currentMessages := currentMessages ls ++ [ModelResponse resp];
           loopToolsUsed := loopToolsUsed ls;
           loopFoundRestaurants := loopFoundRestaurants ls |} in
      if noToolCalls resp then
        Exit h1
          {| u_sessionId := Some (sessionId state);
             u_messages := Some (messages state ++ [AIMessage (content resp)]);
             u_result := Some (content resp);
             u_cacheStatus := None;
             u_toolsUsed :=
               Some (match loopToolsUsed ls with
                     | [] => ["none"]
                     | _ :: _ => loopToolsUsed ls
                     end);
             u_foundRestaurants := Some (loopFoundRestaurants ls) |}
      else
        match runToolCalls (sessionId state) (pendingToolCalls resp) h1 pushed
        with
        | (h2, Ok ls') => Continue h2 ls'
        | (h2, Raise e) => Fail h2 e
        end
  end.

(** [while (true) { ... }], followed for at most [fuel] passes. *)
Fixpoint agentLoop (fuel : nat) (state : AgentState) (h : list Event)
    (ls : LoopState) : list Event * Outcome Update :=
  match fuel with
  | O => (h, Running)
  | S fuel' =>
      match loopBody state h ls with
      | Continue h' ls' => agentLoop fuel' state h' ls'
      | Exit h' u => (h', Returned u)
      | Fail h' e => (h', Threw e)
      end
  end.

(** The state of the loop at the start of pass [k], when the loop gets
    that far. *)
Fixpoint passStart (k : nat) (state : AgentState) (h : list Event)
    (ls : LoopState) : option (list Event * LoopState) :=
  match k with
  | O => Some (h, ls)
  | S k' =>
      match loopBody state h ls with
      | Continue h' ls' => passStart k' state h' ls'
      | _ => None
      end
  end.

Definition agentErrorUpdate (state : AgentState) : Update :=
  {| u_sessionId := Some (sessionId state);
     u_messages := Some (messages state ++ [AIMessage agentApology]);
     u_result := Some agentApology;
     u_cacheStatus := None;
     u_toolsUsed := Some ["error"];
     u_foundRestaurants := None |}.

(** The events and the loop state with which the agent enters its loop. *)
Definition agentEntry (h : list Event) (state : AgentState)
    : list Event * LoopState :=
  let userProfile := userService_getUserProfile h (sessionId state) in
  let h0 := h ++ [GetUserProfile (sessionId state)] in
  let prefs :=
    match userProfile with
    | Some p => match preferences p with Some l => l | None => [] end
    | None => []
    end in
  let systemPrompt := renderSystemPrompt h0 prefs (sessionId state) in
  (h0, {| currentMessages := SystemPrompt systemPrompt :: messages state;
          loopToolsUsed := [];
          loopFoundRestaurants := [] |}).

(** The node; [None] when the loop is still running after [fuel] passes. *)
Definition restaurantDiscoveryAgent (fuel : nat) (h : list Event)
    (state : AgentState) : list Event * option Update :=
  let '(h0, ls0) := agentEntry h state in
  match agentLoop fuel state h0 ls0 with
  | (h', Returned u) => (h', Some u)
  | (h', Threw _) => (h', Some (agentErrorUpdate state))
  | (h', Running) => (h', None)
  end.

(** *** nodes.js, node 3: the cache write *)

Definition processWorkOutputWithCaching (h : list Event) (state : AgentState)
    : list Event * Update :=
  let userQuery := lastUserQuery (messages state) in
  let agentResponse := result state in
  let full (status : CacheStatus) :=
    {| u_sessionId := Some (sessionId state); u_messages := None;
       u_result := agentResponse; u_cacheStatus := Some status;
       u_toolsUsed := toolsUsed state;
       u_foundRestaurants := foundRestaurants state |} in
  if match toolsUsed state with
     | Some used => Js.includes used "error"
     | None => false
     end
  then (h, full skip)
  else
    let cacheTTL :=
      Caching.determineToolBasedCacheTTL
        (match toolsUsed state with Some used => used | None => [] end) in
    if Z.eqb cacheTTL 0
    then (h, {| u_sessionId := Some (sessionId state); u_messages := None;
                u_result := agentResponse; u_cacheStatus := Some skip;
                u_toolsUsed := None; u_foundRestaurants := None |})
    else
      match saveToSemanticCache h userQuery agentResponse cacheTTL
              (Some (sessionId state)) with
      | (h', Ok _) => (h', full saved)
      | (h', Raise _) => (h', full error)
      end.

(** *** index.js: the graph and the turn *)

Inductive Node : Type :=
| query_cache_check
| restaurant_discovery_agent
| process_work_output_with_caching
| END.

(** The conditional edge after the cache check. *)
Definition afterCacheCheck (state : AgentState) : Node :=
  match cacheStatus state with
  | Some hit => END
  | _ => restaurant_discovery_agent
  end.

(** The state with which the graph starts on [{ sessionId, messages }]. *)
Definition initialState (sid : string) (msgs : list Message) : AgentState :=
  {| sessionId := sid;
     messages := messagesStateReducer [] msgs;
     result := None; cacheStatus := None; toolsUsed := None;
     foundRestaurants := None |}.

(** [workflowGraph.invoke({ sessionId, messages })]: the events of the run
    and the final state, [None] while the agent loop is still running. *)
Definition invokeGraph (fuel : nat) (h : list Event) (sid : string)
    (msgs : list Message) : list Event * option AgentState :=
  let st0 := initialState sid msgs in
  let '(h1, u1) := queryCacheCheck h st0 in
  let st1 := applyUpdate st0 u1 in
  match afterCacheCheck st1 with
  | END => (h1, Some st1)
  | _ =>
      match restaurantDiscoveryAgent fuel h1 st1 with
      | (h2, None) => (h2, None)
      | (h2, Some u2) =>
          let st2 := applyUpdate st1 u2 in
          let '(h3, u3) := processWorkOutputWithCaching h2 st2 in
          (h3, Some (applyUpdate st2 u3))
      end
  end.

Record QueryResult : Type := mkQueryResult {
  isCachedResponse : bool;
  qr_content : option string
}.

Definition toMessage (msg : ChatMessage) : Message :=
  let text := match cm_content msg with Some t => t | None => "" end in
  if String.eqb (role msg) "user" then HumanMessage text else AIMessage text.

Definition fallbackResult : QueryResult :=
  {| isCachedResponse := false; qr_content := Some workflowApology |}.

(** [runRestaurantAgentWorkflow]; everything is inside its [try]. *)
Definition runRestaurantAgentWorkflow (fuel : nat) (h : list Event)
    (sid chatId message : string) : list Event * option QueryResult :=
  let h1 := h ++ [GetOrCreateChatHistory sid chatId] in
  match chatRepository_getOrCreateChatHistory h sid chatId with
  | Raise _ => (h1, Some fallbackResult)
  | Ok rawHistory =>
      let msgs := map toMessage rawHistory ++ [HumanMessage message] in
      match invokeGraph fuel h1 sid msgs with
      | (h2, None) => (h2, None)
      | (h2, Some final) =>
          let finalReply :=
            match result final with
            | Some r => if Js.truthy r then Some r else None
            | None => None
            end in
          let queryResult :=
            {| isCachedResponse :=
                 match cacheStatus final with Some hit => true | _ => false end;
               qr_content := finalReply |} in
          let userMsg := {| role := "user"; cm_content := Some message |} in
          let h3 := h2 ++ [SaveChatMessage sid chatId userMsg] in
          match chatRepository_saveChatMessage h2 sid chatId userMsg with
          | Raise _ => (h3, Some fallbackResult)
          | Ok _ =>
              let botMsg :=
                {| role := "assistant"; cm_content := finalReply |} in
              let h4 := h3 ++ [SaveChatMessage sid chatId botMsg] in
              match chatRepository_saveChatMessage h3 sid chatId botMsg with
              | Raise _ => (h4, Some fallbackResult)
              | Ok _ => (h4, Some queryResult)
              end
          end
      end
  end.

(** *** services/chat/api/chat-routes.js: POST /chat *)

Record ChatRequest : Type := mkChatRequest {
  req_message : option string;
  req_sessionId : option string;
  req_chatId : option string
}.

Inductive ChatReply : Type :=
| BadRequest
| Success (reply : QueryResult).

Definition postChat (fuel : nat) (h : list Event) (body : ChatRequest)
    : list Event * option ChatReply :=
  match req_message body, req_sessionId body with
  | Some message, Some sid =>
      if (Js.truthy message && Js.truthy sid)%bool then
        let effectiveChatId :=
          match req_chatId body with
          | Some c => if Js.truthy c then c else "default"
          | None => "default"
          end in
        match runRestaurantAgentWorkflow fuel h sid effectiveChatId message
        with
        | (h', Some reply) => (h', Some (Success reply))
        | (h', None) => (h', None)
        end
      else (h, Some BadRequest)
  | _, _ => (h, Some BadRequest)
  end.

(** The request that the cache check sends for a message list. *)
Definition lookupRequest (msgs : list Message) : SearchParams :=
  {| sp_prompt := lastUserQuery msgs;
     sp_searchStrategies := [Exact; Semantic];
     sp_attributes := None |}.

(** The same turn state under another session identifier. *)
Definition withSessionId (sid : string) (st : AgentState) : AgentState :=
  {| sessionId := sid; messages := messages st; result := result st;
     cacheStatus := cacheStatus st; toolsUsed := toolsUsed st;
     foundRestaurants := foundRestaurants st |}.

(** The events that the agent node may add. *)
Definition isAgentEvent (e : Event) : bool :=
  match e with
  | GetUserProfile _ | ModelInvoke _ | ToolInvoke _ _ => true
  | _ => false
  end.

(** [after] is [before] followed by events that all satisfy [P]. *)
Definition extendsWith (P : Event -> Prop) (before after : list Event)
    : Prop :=
  exists added : list Event, after = before ++ added /\ Forall P added.

Definition agentEvent (e : Event) : Prop := isAgentEvent e = true.

(** The events at the end of a pass. *)
Definition stepEvents (s : Step) : list Event :=
  match s with Continue h _ | Exit h _ | Fail h _ => h end.

(** The loop stops within some number of passes. *)
Definition terminates (state : AgentState) (h : list Event) (ls : LoopState)
    : Prop :=
  exists fuel : nat, snd (agentLoop fuel state h ls) <> Running.

(** The model answers the pass that starts at [h], [ls] without a tool
    invocation. *)
Definition finalAnswerAt (h : list Event) (ls : LoopState) : Prop :=
  exists r : AIResponse,
    model_invoke h (currentMessages ls) = Ok r /\ noToolCalls r = true.

(** The call of the model, or a call of a tool, throws in that pass. *)
Definition throwsAt (state : AgentState) (h : list Event) (ls : LoopState)
    : Prop :=
  exists (h' : list Event) (e : string), loopBody state h ls = Fail h' e.

(** The model asks for tools in that pass and the call of one of them
    throws. *)
Definition toolThrowsAt (state : AgentState) (h : list Event)
    (ls : LoopState) : Prop :=
  exists (r : AIResponse) (e : string),
    model_invoke h (currentMessages ls) = Ok r
    /\ noToolCalls r = false
    /\ snd (runToolCalls (sessionId state) (pendingToolCalls r)
              (h ++ [ModelInvoke (currentMessages ls)])
              {| currentMessages := currentMessages ls ++ [ModelResponse r];
                 loopToolsUsed := loopToolsUsed ls;
                 loopFoundRestaurants := loopFoundRestaurants ls |})
       = Raise e.

(** The call of the model throws in that pass. *)
Definition modelThrowsAt (h : list Event) (ls : LoopState) : Prop :=
  exists e : string, model_invoke h (currentMessages ls) = Raise e.

Definition eventually (P : list Event -> LoopState -> Prop)
    (state : AgentState) (h : list Event) (ls : LoopState) : Prop :=
  exists (k : nat) (h' : list Event) (ls' : LoopState),
    passStart k state h ls = Some (h', ls') /\ P h' ls'.

(** The session named in a request, [""] when there is none. *)
Definition requestSession (body : ChatRequest) : string :=
  match req_sessionId body with Some sid => sid | None => "" end.

(** Calls of the model among the events. *)
Definition isModelInvoke (e : Event) : bool :=
  match e with ModelInvoke _ => true | _ => false end.

Definition modelInvocations (h : list Event) : nat :=
  length (List.filter isModelInvoke h).

Definition isCacheSet (e : Event) : bool :=
  match e with LangCacheSet _ => true | _ => false end.

Definition isToolInvoke (e : Event) : bool :=
  match e with ToolInvoke _ _ => true | _ => false end.

(** The cache requests that a turn of session [sid] may issue: lookups
    without attributes, stores under the session attribute. *)
Definition cacheRequestScoped (sid : string) (e : Event) : Prop :=
  match e with
  | LangCacheSearch p => sp_attributes p = None
  | LangCacheSet p => cp_attributes p = Some (sessionAttributes sid)
  | _ => True
  end.


End WithWorld.
End Workflow.

(** ** Worlds on which the workflow can be run *)

Module Worlds.
Import Effect Workflow.

Definition toolCallResponse (name : string) : AIResponse :=
  {| content := "";
     tool_calls := Some [ {| tcName := name; tcArgs := ∅;
                             tcId := "call_1" |} ] |}.

Definition finalResponse (text : string) : AIResponse :=
  {| content := text; tool_calls := None |}.

Definition cacheMiss : Res SearchResponse := Ok {| data := Some [] |}.

Definition cacheHit (text : string) : Res SearchResponse :=
  Ok {| data := Some [ {| response := Some text |} ] |}.

(** A world with a fixed answer of the cache and a model that answers by
    the number of times it has been called before; the stores accept every
    write and every tool returns an empty object.  Every node writes the
    whole message list, so the reducer yields the list written. *)
Definition scripted (cache : Res SearchResponse)
    (script : nat -> Res AIResponse) : World :=
  {| chatRepository_getOrCreateChatHistory := fun _ _ _ => Ok [];
     chatRepository_saveChatMessage := fun _ _ _ _ => Ok tt;
     langCache_search := fun _ _ => cache;
     langCache_set := fun _ _ => Ok tt;
     userService_getUserProfile := fun _ _ => None;
     model_invoke := fun h _ => script (modelInvocations h);
     tool_invoke := fun _ _ _ => Ok "{}";
     JSON_parse := fun _ => None;
     renderSystemPrompt := fun _ _ sid => "Session ID: " +:+ sid;
     messagesStateReducer := fun _ written => written |}.

(** [n] answers with a tool call, then a final text. *)
Definition toolCallsThenText (n : nat) (name text : string)
    (k : nat) : Res AIResponse :=
  if Nat.ltb k n then Ok (toolCallResponse name) else Ok (finalResponse text).

(** A model that cannot be reached. *)
Definition unreachableModel (k : nat) : Res AIResponse :=
  Raise "UpstreamUnavailable".

Definition turn (sid text : string) : AgentState :=
  {| sessionId := sid; messages := [HumanMessage text];
     result := None; cacheStatus := None; toolsUsed := None;
     foundRestaurants := None |}.

(** A model that asks [n] times for a tool before it answers. *)
Definition patientWorld (n : nat) : World :=
  scripted cacheMiss (toolCallsThenText n "direct_answer" "Done.").

(** Worlds of the examples. *)
Definition unreachableWorld : World := scripted cacheMiss unreachableModel.

Definition reservationWorld : World :=
  scripted cacheMiss (toolCallsThenText 1 "make_reservation" "Booked.").

Definition hitWorld : World :=
  scripted (cacheHit "Try Tonino.") (toolCallsThenText 0 "" "unused").

Definition cacheDownWorld : World :=
  scripted (Raise "UpstreamUnavailable")
    (toolCallsThenText 0 "" "Here are some places.").

End Worlds.

(** ** The built-ins of the language that the services call

    [parseInt], [parseFloat], [String.prototype.toLowerCase] and [trim],
    [String(number)] and the parsing of a date by [new Date(text)] (in
    milliseconds, NaN for an invalid date) are taken as an interface; the
    theorems hold for every implementation of it. *)

Module Runtime.
Import JsNum.

Class JsRuntime : Type := mkJsRuntime {
  parseInt : string -> Num;
  parseFloat : string -> Num;
  toLowerCase : string -> string;
  trim : string -> string;
  numberToString : Num -> string;
  dateParse : string -> Num
}.

(** [s.includes(sub)] on strings. *)
Fixpoint strIncludes (s sub : string) : bool :=
  if String.prefix sub s then true
  else match s with
       | EmptyString => false
       | String _ rest => strIncludes rest sub
       end.

(** *** An implementation for plain ASCII text, used to run the examples

    Numbers are read in decimal notation (an optional sign, digits, and for
    [parseFloat] an optional fraction); dates are read in the form
    [YYYY-MM-DD HH:MM], in UTC. *)

Definition isSpace (c : ascii) : bool :=
  let n := nat_of_ascii c in
  (Nat.eqb n 32 || Nat.eqb n 9 || Nat.eqb n 10 || Nat.eqb n 13)%bool.

Definition digitOf (c : ascii) : option Z :=
  let n := Z.of_nat (nat_of_ascii c) in
  if (Z.leb 48 n && Z.leb n 57)%bool then Some (n - 48)%Z else None.

Fixpoint skipSpaces (s : string) : string :=
  match s with
  | String c rest => if isSpace c then skipSpaces rest else s
  | EmptyString => s
  end.

(** The digits at the head of [s]: their value, their number, the rest. *)
Fixpoint readDigits (s : string) (acc : Z) (count : nat)
    : Z * nat * string :=
  match s with
  | String c rest =>
      match digitOf c with
      | Some d => readDigits rest (acc * 10 + d)%Z (S count)
      | None => (acc, count, s)
      end
  | EmptyString => (acc, count, s)
  end.

Definition readSign (s : string) : bool * string :=
  match s with
  | String c rest =>
      if Ascii.eqb c "-"%char then (true, rest)
      else if Ascii.eqb c "+"%char then (false, rest)
      else (false, s)
  | EmptyString => (false, s)
  end.

Definition asciiParseInt (s : string) : Num :=
  let '(negative, body) := readSign (skipSpaces s) in
  let '(value, count, _) := readDigits body 0 0 in
  match count with
  | O => NaN
  | S _ => ofZ (if negative then - value else value)
  end.

Definition asciiParseFloat (s : string) : Num :=
  let '(negative, body) := readSign (skipSpaces s) in
  let '(whole, count, rest) := readDigits body 0 0 in
  let '(numerator, digits) :=
    match rest with
    | String c rest' =>
        if Ascii.eqb c "."%char
        then let '(v, k, _) := readDigits rest' whole 0 in (v, k)
        else (whole, O)
    | EmptyString => (whole, O)
    end in
  match (count + digits)%nat with
  | O => NaN
  | S _ =>
      let q := Qred (Qmake numerator (Pos.pow 10 (Pos.of_nat digits))) in
      Fin (if negative then Qopp q
           else match digits with
                | O => inject_Z numerator
                | S _ => q
                end)
  end.

Definition lowerAscii (c : ascii) : ascii :=
  let n := nat_of_ascii c in
  if (Nat.leb 65 n && Nat.leb n 90)%bool then ascii_of_nat (n + 32) else c.

Fixpoint asciiToLowerCase (s : string) : string :=
  match s with
  | String c rest => String (lowerAscii c) (asciiToLowerCase rest)
  | EmptyString => EmptyString
  end.

Fixpoint dropTrailingSpaces (s : string) : string :=
  match s with
  | String c rest =>
      match dropTrailingSpaces rest with
      | EmptyString => if isSpace c then EmptyString
                       else String c EmptyString
      | kept => String c kept
      end
  | EmptyString => EmptyString
  end.

Definition asciiTrim (s : string) : string :=
  dropTrailingSpaces (skipSpaces s).

(** Whole numbers are written in decimal; the examples use no other. *)
Definition asciiNumberToString (n : Num) : string :=
  match n with
  | NaN => "NaN"
  | PosInf => "Infinity"
  | NegInf => "-Infinity"
  | Fin q => pretty (truncate q)
  end.

(** Days from 1970-01-01 to a civil date. *)
Definition daysFromCivil (y m d : Z) : Z :=
  let y' := (if Z.leb m 2 then y - 1 else y)%Z in
  let era := Z.div y' 400 in
  let yoe := (y' - era * 400)%Z in
  let mp := Z.modulo (m + 9) 12 in
  let doy := (Z.div (153 * mp + 2) 5 + d - 1)%Z in
  let doe := (yoe * 365 + Z.div yoe 4 - Z.div yoe 100 + doy)%Z in
  (era * 146097 + doe - 719468)%Z.

Definition expectChar (c : ascii) (s : string) : option string :=
  match s with
  | String c' rest => if Ascii.eqb c c' then Some rest else None
  | EmptyString => None
  end.

Definition readField (width : nat) (s : string) : option (Z * string) :=
  let '(value, count, rest) := readDigits s 0 0 in
  if Nat.eqb count width then Some (value, rest) else None.

Definition asciiDateParse (s : string) : Num :=
  match
    '(y, s1) ← readField 4 s;
    s2 ← expectChar "-"%char s1;
    '(m, s3) ← readField 2 s2;
    s4 ← expectChar "-"%char s3;
    '(d, s5) ← readField 2 s4;
    s6 ← expectChar " "%char s5;
    '(hh, s7) ← readField 2 s6;
    s8 ← expectChar ":"%char s7;
    '(mm, _) ← readField 2 s8;
    Some (((daysFromCivil y m d * 24 + hh) * 60 + mm) * 60000)%Z
  with
  | Some ms => ofZ ms
  | None => NaN
  end.

Definition asciiRuntime : JsRuntime :=
  {| parseInt := asciiParseInt;
     parseFloat := asciiParseFloat;
     toLowerCase := asciiToLowerCase;
     trim := asciiTrim;
     numberToString := asciiNumberToString;
     dateParse := asciiDateParse |}.

End Runtime.

(** ** The unified search tool, the restaurant service and its repository

    [semanticSearchRestaurantsTool] of the tool registry, with
    [services/restaurants/domain/restaurant-service.js] and the
    [RestaurantRepository] that it calls. *)

Module Search.
Import Effect JsNum Runtime.

Definition Vector : Type := list Num.

(** The clauses of a query of the index. *)
Inductive Filter : Type :=
| GeoFilter (longitude latitude radiusKm : Num)
| CuisineTag (value : string)
| CityTag (value : string)
| LocalityTag (value : string)
| TypeTag (value : string)
| PriceUpTo (maxPrice : Num)
| RatingFrom (minRating : Num).

Inductive FtQuery : Type :=
| TextQuery (searchQuery : string) (filters : list Filter)
| KnnQuery (filters : list Filter) (k : Num) (queryVector : Vector)
    (sortBy : string)
| GeoQuery (longitude latitude radiusMeters : Num).

(** The index answers a query with the documents that match, in the order
    of its ranking, or refuses it. *)
Class SearchIndex : Type := mkSearchIndex {
  ftMatches : FtQuery -> Res (list Restaurant)
}.

(** [generateEmbedding]; [None] when the service returned no vector. *)
Class Embedder : Type := mkEmbedder {
  generateEmbedding : string -> Res (option Vector)
}.

(** The options object of the service and repository functions. *)
Record Options : Type := mkOptions {
  o_limit : option Num;
  o_latitude : option Num;
  o_longitude : option Num;
  o_radius : option Num;
  o_cuisine : option string;
  o_city : option string;
  o_locality : option string;
  o_type : option string;
  o_maxPrice : option Num;
  o_minRating : option Num
}.

(** The arguments of the tool, as its schema declares them. *)
Record SearchArgs : Type := mkSearchArgs {
  query : string;
  latitude : option string;
  longitude : option string;
  radius : option string;
  cuisine : option string;
  city : option string;
  locality : option string;
  type : option string;
  maxPrice : option string;
  minRating : option string;
  limit : option string;
  useSemanticSearch : option bool
}.

(** The object that the tool returns as JSON text. *)
Record SearchToolResult : Type := mkSearchToolResult {
  success : bool;
  searchStrategy : option string;
  totalFound : option nat;
  restaurants : option (list Restaurant);
  error : option string
}.

(** [arr.slice(0, end)]. *)
Definition slice0 {A : Type} (arr : list A) (stop : Num) : list A :=
  match stop with
  | NaN | NegInf => []
  | PosInf => arr
  | Fin q =>
      let n := truncate q in
      if Z.leb 0 n then firstn (Z.to_nat n) arr
      else firstn (length arr - Z.to_nat (- n)) arr
  end.

(** [arr.sort(compare)]; the sort is stable. *)
Fixpoint insertSorted {A : Type} (compare : A -> A -> comparison) (x : A)
    (sorted : list A) : list A :=
  match sorted with
  | [] => [x]
  | y :: rest =>
      match compare x y with
      | Gt => y :: insertSorted compare x rest
      | _ => x :: sorted
      end
  end.

Definition sortWith {A : Type} (compare : A -> A -> comparison)
    (arr : list A) : list A :=
  foldr (insertSorted compare) [] arr.

Definition whenText (value : option string) (clause : string -> Filter)
    : list Filter :=
  match value with
  | Some v => if Js.truthy v then [clause v] else []
  | None => []
  end.

Definition whenNumber (value : option Num) (clause : Num -> Filter)
    : list Filter :=
  match value with
  | Some v => if JsNum.truthy v then [clause v] else []
  | None => []
  end.

Section WithIndex.
Context {R : JsRuntime} {I : SearchIndex} {E : Embedder}.

(** *** RestaurantRepository *)

(** [client.ft.search(index, query, { LIMIT: { from: 0, size } })]: the
    first [size] documents of the answer of the index; a size that is not
    a count is refused. *)
Definition ft_search (q : FtQuery) (size : Num) : Res (list Restaurant) :=
  match asCount size with
  | Some n => docs ← ftMatches q; Ok (firstn n docs)
  | None => Raise "ReplyError"
  end.

Definition repository_searchRestaurants (queryText : option string)
    (o : Options) : Res (list Restaurant) :=
  let text := match queryText with Some t => t | None => "*" end in
  let searchQuery := if String.eqb text "" then "*" else text in
  let filters :=
    whenText (o_cuisine o) CuisineTag ++ whenText (o_city o) CityTag
    ++ whenText (o_locality o) LocalityTag ++ whenText (o_type o) TypeTag
    ++ whenNumber (o_maxPrice o) PriceUpTo
    ++ whenNumber (o_minRating o) RatingFrom in
  ft_search (TextQuery searchQuery filters)
    (match o_limit o with Some l => l | None => ofZ 10 end).

Definition repository_vectorSearchRestaurants (queryVector : Vector)
    (o : Options) : Res (list Restaurant) :=
  let limit := match o_limit o with Some l => l | None => ofZ 10 end in
  let radius := match o_radius o with Some r => r | None => ofZ 5 end in
  let located :=
    (JsNum.truthyOpt (o_latitude o) && JsNum.truthyOpt (o_longitude o))%bool in
  let filters :=
    match o_latitude o, o_longitude o with
    | Some lat, Some lng =>
        if located then [GeoFilter lng lat radius] else []
    | _, _ => []
    end
    ++ whenText (o_cuisine o) CuisineTag ++ whenText (o_city o) CityTag
    ++ whenText (o_locality o) LocalityTag ++ whenText (o_type o) TypeTag
    ++ whenNumber (o_maxPrice o) PriceUpTo
    ++ whenNumber (o_minRating o) RatingFrom in
  ft_search
    (KnnQuery filters limit queryVector (if located then "score" else "rating"))
    limit.

Definition repository_getRestaurantsByLocation (lat lng radiusKm limit : Num)
    : Res (list Restaurant) :=
  ft_search (GeoQuery lng lat (mul radiusKm (ofZ 1000))) limit.

(** *** RestaurantService *)

Definition isValidLatitude (lat : option Num) : bool :=
  match lat with
  | Some v => (ge v (ofZ (-90)) && le v (ofZ 90))%bool
  | None => false
  end.

Definition isValidLongitude (lng : option Num) : bool :=
  match lng with
  | Some v => (ge v (ofZ (-180)) && le v (ofZ 180))%bool
  | None => false
  end.

Definition getRestaurantsByLocation (lat lng : option Num)
    (radiusKm limit : Num) : Res (list Restaurant) :=
  match lat, lng with
  | Some latv, Some lngv =>
      if (negb (isValidLatitude lat) || negb (isValidLongitude lng))%bool
      then Raise "INVALID_COORDINATES"
      else
        let validRadius := min (max radiusKm (Fin (1 # 10))) (ofZ 50) in
        let validLimit := min (max limit (ofZ 1)) (ofZ 50) in
        repository_getRestaurantsByLocation latv lngv validRadius validLimit
  | _, _ => Raise "INVALID_COORDINATES"
  end.

(** The filter of [findNearbyRestaurants] on the documents found. *)
Definition keepNearby (o : Options) (r : Restaurant) : bool :=
  if match o_cuisine o with
     | Some c => (Js.truthy c
                  && negb (strIncludes (toLowerCase (rcuisine r))
                             (toLowerCase c)))%bool
     | None => false
     end then false
  else if match o_city o with
          | Some c => (Js.truthy c
                       && negb (String.eqb (toLowerCase (rcity r))
                                  (toLowerCase c)))%bool
          | None => false
          end then false
  else if match o_maxPrice o with
          | Some p => (JsNum.truthy p && gt (rpriceFor2 r) p)%bool
          | None => false
          end then false
  else if match o_minRating o with
          | Some m => (JsNum.truthy m && lt (rrating r) m)%bool
          | None => false
          end then false
  else true.

Definition findNearbyRestaurants (o : Options) : Res (list Restaurant) :=
  let radius := match o_radius o with Some r => r | None => ofZ 5 end in
  let limit := match o_limit o with Some l => l | None => ofZ 10 end in
  found ← getRestaurantsByLocation (o_latitude o) (o_longitude o) radius
            (mul limit (ofZ 2));
  Ok (slice0 (List.filter (keepNearby o) found) limit).

Definition reviewCountOrZero (r : Restaurant) : Num :=
  match rreviewCount r with
  | Some c => if JsNum.truthy c then c else ofZ 0
  | None => ofZ 0
  end.

(** The comparator of the popular listing: rating descending, then
    review count descending. *)
Definition popularOrder (a b : Restaurant) : comparison :=
  if strictNe (rrating b) (rrating a)
  then signOfDifference (rrating b) (rrating a)
  else signOfDifference (reviewCountOrZero b) (reviewCountOrZero a).

Definition getPopularRestaurants (o : Options) : Res (list Restaurant) :=
  let limit := match o_limit o with Some l => l | None => ofZ 10 end in
  let validLimit := min (max limit (ofZ 1)) (ofZ 50) in
  found ← repository_searchRestaurants (Some "*")
            {| o_limit := Some validLimit;
               o_latitude := None; o_longitude := None; o_radius := None;
               o_cuisine := o_cuisine o; o_city := o_city o;
               o_locality := None; o_type := None; o_maxPrice := None;
               o_minRating := Some (ofZ 4) |};
  Ok (sortWith popularOrder found).

Definition vectorSearchRestaurants (queryVector : option Vector)
    (o : Options) : Res (list Restaurant) :=
  match queryVector with
  | None => Raise "INVALID_QUERY_VECTOR"
  | Some vector =>
      let lat := JsNum.truthyOpt (o_latitude o) in
      let lng := JsNum.truthyOpt (o_longitude o) in
      if (lat && negb lng || negb lat && lng)%bool
      then Raise "INVALID_COORDINATES"
      else if (lat && lng
               && (negb (isValidLatitude (o_latitude o))
                   || negb (isValidLongitude (o_longitude o))))%bool
      then Raise "INVALID_COORDINATES"
      else repository_vectorSearchRestaurants vector o
  end.

(** *** The tool *)

(** [x ? parse(x) : undefined]. *)
Definition parsed (parse : string -> Num) (x : option string) : option Num :=
  match x with
  | Some v => if Js.truthy v then Some (parse v) else None
  | None => None
  end.

(** [parse(x)] on an argument that may be missing. *)
Definition parseArg (parse : string -> Num) (x : option string) : Num :=
  match x with Some v => parse v | None => NaN end.

(** [limit ? parseInt(limit) : 15]. *)
Definition maxResultsOf (a : SearchArgs) : Num :=
  match parsed parseInt (limit a) with Some n => n | None => ofZ 15 end.

(** [radius ? parseFloat(radius) : 15]. *)
Definition radiusOf (a : SearchArgs) : Num :=
  match parsed parseFloat (radius a) with Some r => r | None => ofZ 15 end.

(** [query && useSemanticSearch], with [useSemanticSearch = true] when the
    argument is missing. *)
Definition semanticMode (a : SearchArgs) : bool :=
  (Js.truthy (query a)
   && match useSemanticSearch a with Some b => b | None => true end)%bool.

(** [latitude && longitude]. *)
Definition locationMode (a : SearchArgs) : bool :=
  (Js.truthyOpt (latitude a) && Js.truthyOpt (longitude a))%bool.

(** The primary search with all filters. *)
Definition primarySearch (a : SearchArgs) : Res (list Restaurant) :=
  let maxResults := maxResultsOf a in
  if semanticMode a then
    embedding ← generateEmbedding (query a);
    vectorSearchRestaurants embedding
      {| o_limit := Some (mul maxResults (ofZ 2));
         o_latitude := parsed parseFloat (latitude a);
         o_longitude := parsed parseFloat (longitude a);
         o_radius := Some (radiusOf a);
         o_cuisine := cuisine a; o_city := city a;
         o_locality := locality a; o_type := type a;
         o_maxPrice := parsed parseInt (maxPrice a);
         o_minRating := parsed parseFloat (minRating a) |}
  else if locationMode a then
    findNearbyRestaurants
      {| o_limit := Some maxResults;
         o_latitude := Some (parseArg parseFloat (latitude a));
         o_longitude := Some (parseArg parseFloat (longitude a));
         o_radius := Some (radiusOf a);
         o_cuisine := cuisine a; o_city := city a;
         o_locality := None; o_type := None;
         o_maxPrice := parsed parseInt (maxPrice a);
         o_minRating := parsed parseFloat (minRating a) |}
  else
    getPopularRestaurants
      {| o_limit := Some maxResults;
         o_latitude := None; o_longitude := None; o_radius := None;
         o_cuisine := cuisine a; o_city := city a;
         o_locality := None; o_type := None; o_maxPrice := None;
         o_minRating := None |}.

(** The retry without the cuisine filter; a popular listing is not run
    again here and [found] stays as it is. *)
Definition retryWithoutCuisine (a : SearchArgs) (found : list Restaurant)
    : Res (list Restaurant) :=
  let maxResults := maxResultsOf a in
  if semanticMode a then
    embedding ← generateEmbedding (query a);
    vectorSearchRestaurants embedding
      {| o_limit := Some (mul maxResults (ofZ 2));
         o_latitude := parsed parseFloat (latitude a);
         o_longitude := parsed parseFloat (longitude a);
         o_radius := Some (radiusOf a);
         o_cuisine := None; o_city := city a;
         o_locality := locality a; o_type := type a;
         o_maxPrice := parsed parseInt (maxPrice a);
         o_minRating := parsed parseFloat (minRating a) |}
  else if locationMode a then
    findNearbyRestaurants
      {| o_limit := Some maxResults;
         o_latitude := Some (parseArg parseFloat (latitude a));
         o_longitude := Some (parseArg parseFloat (longitude a));
         o_radius := Some (radiusOf a);
         o_cuisine := None; o_city := city a;
         o_locality := None; o_type := None;
         o_maxPrice := parsed parseInt (maxPrice a);
         o_minRating := parsed parseFloat (minRating a) |}
  else Ok found.

(** The final fallback: the popular listing of the city. *)
Definition popularFallback (a : SearchArgs) : Res (list Restaurant) :=
  getPopularRestaurants
    {| o_limit := Some (maxResultsOf a);
       o_latitude := None; o_longitude := None; o_radius := None;
       o_cuisine := None; o_city := city a;
       o_locality := None; o_type := None; o_maxPrice := None;
       o_minRating := None |}.

Definition isEmpty {A : Type} (arr : list A) : bool :=
  match arr with [] => true | _ :: _ => false end.

(** The result after the primary search and the retry. *)
Definition searchWithRetry (a : SearchArgs) : Res (list Restaurant) :=
  found ← primarySearch a;
  if (isEmpty found && Js.truthyOpt (cuisine a))%bool
  then retryWithoutCuisine a found
  else Ok found.

(** The body of the [try] of the tool. *)
Definition searchLadder (a : SearchArgs) : Res (list Restaurant) :=
  found ← searchWithRetry a;
  if isEmpty found then popularFallback a else Ok found.

Definition strategyOf (a : SearchArgs) : string :=
  if semanticMode a then "semantic"
  else if locationMode a then "location" else "popular".

Definition searchError : string :=
  "Sorry, I had trouble searching for restaurants. Please try rephrasing your request.".

Definition semanticSearchRestaurantsTool (a : SearchArgs) : SearchToolResult :=
  match searchLadder a with
  | Ok finalRestaurants =>
      {| success := negb (isEmpty finalRestaurants);
         searchStrategy := Some (strategyOf a);
         totalFound := Some (length finalRestaurants);
         restaurants := Some finalRestaurants;
         error := None |}
  | Raise _ =>
      {| success := false; searchStrategy := None; totalFound := None;
         restaurants := None; error := Some searchError |}
  end.

(** The query of the popular listing of a city: every document of the
    city with a rating of 4.0 or more. *)
Definition popularQuery (cityName : option string) : FtQuery :=
  TextQuery "*" (whenText cityName CityTag ++ [RatingFrom (ofZ 4)]).

End WithIndex.

(** The arguments with the cuisine filter removed. *)
Definition withoutCuisine (a : SearchArgs) : SearchArgs :=
  {| query := query a; latitude := latitude a; longitude := longitude a;
     radius := radius a; cuisine := None; city := city a;
     locality := locality a; type := type a; maxPrice := maxPrice a;
     minRating := minRating a; limit := limit a;
     useSemanticSearch := useSemanticSearch a |}.

(** *** An index held in a list, used to run the examples *)

Definition matchesFilter (r : Restaurant) (f : Filter) : bool :=
  match f with
  | GeoFilter _ _ _ => true
  | CuisineTag v => String.eqb (rcuisine r) v
  | CityTag v => String.eqb (rcity r) v
  | LocalityTag v => String.eqb (rlocality r) v
  | TypeTag v => String.eqb (rtype r) v
  | PriceUpTo p => le (rpriceFor2 r) p
  | RatingFrom m => ge (rrating r) m
  end.

Definition matchesAll (filters : list Filter) (r : Restaurant) : bool :=
  forallb (matchesFilter r) filters.

Definition listIndex (docs : list Restaurant) : SearchIndex :=
  {| ftMatches := fun q =>
       match q with
       | TextQuery _ filters => Ok (List.filter (matchesAll filters) docs)
       | KnnQuery filters k _ _ =>
           match asCount k with
           | Some n => Ok (firstn n (List.filter (matchesAll filters) docs))
           | None => Raise "ReplyError"
           end
       | GeoQuery _ _ _ => Ok docs
       end |}.

Definition fixedEmbedder : Embedder :=
  {| generateEmbedding := fun _ => Ok (Some [ofZ 1; ofZ 0]) |}.

Definition pizzeria (name : string) : Restaurant :=
  {| rid := name; rname := name; rcuisine := "Italian"; rcity := "Delhi";
     rlocality := "Khan Market"; rtype := "Casual Dining";
     rpriceFor2 := ofZ 1200; rrating := Fin (9 # 2);
     rreviewCount := None |}.

Definition twoPizzerias : SearchIndex :=
  listIndex [pizzeria "tonino"; pizzeria "amici"].

(** [{ query: "pizza", limit: "1" }]. *)
Definition onePizzaPlease : SearchArgs :=
  {| query := "pizza"; latitude := None; longitude := None; radius := None;
     cuisine := None; city := None; locality := None; type := None;
     maxPrice := None; minRating := None; limit := Some "1";
     useSemanticSearch := None |}.

(** [{ query: "sushi", cuisine: "Japanese", city: "Delhi" }]. *)
Definition sushiInDelhi : SearchArgs :=
  {| query := "sushi"; latitude := None; longitude := None; radius := None;
     cuisine := Some "Japanese"; city := Some "Delhi"; locality := None;
     type := None; maxPrice := None; minRating := None; limit := None;
     useSemanticSearch := None |}.

End Search.

(** ** Reservations: the service, its repository and the store

    [ReservationService] and [ReservationRepository], with
    [RestaurantService.getRestaurantById] and
    [UserService.getUserContactDetails].  The store answers every command;
    what a call reads from the clock and from the random generator is
    given to it as [Readings]. *)

Module Reservations.
Import Effect JsNum Runtime.

(** The profile of a user document. *)
Record Profile : Type := mkProfile {
  profileName : option string;
  profileEmail : option string;
  profilePhone : option string
}.

(** The keys of the store that the services use: hashes, sets and JSON
    documents. *)
Record Redis : Type := mkRedis {
  hashes : gmap string (gmap string string);
  sets : gmap string (gset string);
  restaurantDocs : gmap string Restaurant;
  userProfiles : gmap string Profile
}.

(** What one call reads from its environment: the identifier that
    [_generateReservationId] builds, the time of [new Date()] in
    milliseconds, and the texts of the successive
    [new Date().toISOString()]. *)
Record Readings : Type := mkReadings {
  generatedId : string;
  now : Num;
  stamp : nat -> string
}.

(** The argument of [ReservationService.createReservation]. *)
Record ReservationData : Type := mkReservationData {
  d_sessionId : string;
  d_restaurantId : string;
  d_date : string;
  d_time : string;
  d_guests : Num;
  d_specialRequests : option string
}.

(** The reservation object that the repository builds. *)
Record Reservation : Type := mkReservation {
  id : string;
  sessionId : string;
  restaurantId : string;
  date : string;
  time : string;
  guests : Num;
  customerName : string;
  customerPhone : string;
  customerEmail : option string;
  specialRequests : option string;
  status : string;
  createdAt : string;
  updatedAt : string
}.

Record ContactDetails : Type := mkContactDetails {
  name : string;
  email : string;
  phone : string
}.

(** The restaurant summary of a response. *)
Record RestaurantSummary : Type := mkSummary {
  summaryId : string;
  summaryName : string;
  summaryCuisine : string;
  summaryCity : string;
  summaryLocality : string
}.

Definition summaryOf (r : Restaurant) : RestaurantSummary :=
  {| summaryId := rid r; summaryName := rname r;
     summaryCuisine := rcuisine r; summaryCity := rcity r;
     summaryLocality := rlocality r |}.

Definition keyPrefix : string := "reservations:".
Definition sessionPrefix : string := "users:".
Definition restaurantPrefix : string := "restaurants:".

(** *** Commands of the store *)

(** [HSET key field value ...]: the fields given are written, the others
    stay. *)
Definition hSet (key : string) (fields : gmap string string) (db : Redis)
    : Redis :=
  {| hashes :=
       <[ key := fields ∪ match hashes db !! key with
                          | Some old => old
                          | None => ∅
                          end ]> (hashes db);
     sets := sets db;
     restaurantDocs := restaurantDocs db;
     userProfiles := userProfiles db |}.

(** [HGETALL key]: the empty object when the key does not exist. *)
Definition hGetAll (key : string) (db : Redis) : gmap string string :=
  match hashes db !! key with Some h => h | None => ∅ end.

(** [SADD key member]. *)
Definition sAdd (key member : string) (db : Redis) : Redis :=
  {| hashes := hashes db;
     sets :=
       <[ key := {[ member ]} ∪ match sets db !! key with
                                | Some old => old
                                | None => ∅
                                end ]> (sets db);
     restaurantDocs := restaurantDocs db;
     userProfiles := userProfiles db |}.

(** [SMEMBERS key]. *)
Definition sMembers (key : string) (db : Redis) : gset string :=
  match sets db !! key with Some s => s | None => ∅ end.

Section WithRuntime.
Context {R : JsRuntime}.

(** [String(value)] of a text that may be [null]. *)
Definition textOrNull (value : option string) : string :=
  match value with Some v => v | None => "null" end.

(** The fields of a reservation as [HSET] receives them: every value as
    a string. *)
Definition flatten (r : Reservation) : gmap string string :=
  list_to_map
    [("id", id r); ("sessionId", sessionId r);
     ("restaurantId", restaurantId r); ("date", date r); ("time", time r);
     ("guests", numberToString (guests r));
     ("customerName", customerName r); ("customerPhone", customerPhone r);
     ("customerEmail", textOrNull (customerEmail r));
     ("specialRequests", textOrNull (specialRequests r));
     ("status", status r); ("createdAt", createdAt r);
     ("updatedAt", updatedAt r)].

(** *** ReservationRepository *)

Definition repository_createReservation (rd : Readings)
    (d : ReservationData) (cName cPhone : string)
    (cEmail special : option string) (db : Redis) : Redis * Res Reservation :=
  let reservationId := generatedId rd in
  let reservation :=
    {| id := reservationId; sessionId := d_sessionId d;
       restaurantId := d_restaurantId d; date := d_date d; time := d_time d;
       guests := d_guests d; customerName := cName; customerPhone := cPhone;
       customerEmail := cEmail; specialRequests := special;
       status := "confirmed";
       createdAt := stamp rd 0; updatedAt := stamp rd 1 |} in
  let db1 := hSet (keyPrefix +:+ reservationId) (flatten reservation) db in
  let db2 :=
    sAdd (sessionPrefix +:+ d_sessionId d +:+ ":reservations") reservationId
      db1 in
  (db2, Ok reservation).

Definition repository_getReservationById (reservationId : string)
    (db : Redis) : option (gmap string string) :=
  let reservation := hGetAll (keyPrefix +:+ reservationId) db in
  if bool_decide (reservation = ∅) then None else Some reservation.

Definition repository_updateReservation (rd : Readings) (k : nat)
    (reservationId : string) (reservationData : gmap string string)
    (db : Redis) : Redis * Res (gmap string string) :=
  let flatData := <[ "updatedAt" := stamp rd k ]> reservationData in
  (hSet (keyPrefix +:+ reservationId) flatData db, Ok flatData).

(** The [throw] for a missing reservation is inside the [try] of the
    function, so it leaves as [RESERVATION_UPDATE_ERROR]. *)
Definition repository_updateReservationStatus (rd : Readings)
    (reservationId newStatus : string) (db : Redis)
    : Redis * Res (gmap string string) :=
  match repository_getReservationById reservationId db with
  | None => (db, Raise "RESERVATION_UPDATE_ERROR")
  | Some reservation =>
      let updatedReservation :=
        <[ "updatedAt" := stamp rd 0 ]>
          (<[ "status" := newStatus ]> reservation) in
      (hSet (keyPrefix +:+ reservationId) updatedReservation db,
       Ok updatedReservation)
  end.

(** *** UserService and RestaurantService *)

Definition getUserProfile (sid : string) (db : Redis) : option Profile :=
  userProfiles db !! (sessionPrefix +:+ sid).

(** [value || fallback]. *)
Definition orElse (value : option string) (fallback : string) : string :=
  match value with
  | Some v => if Js.truthy v then v else fallback
  | None => fallback
  end.

Definition getUserContactDetails (sid : string) (db : Redis)
    : option ContactDetails :=
  match getUserProfile sid db with
  | Some profile =>
      Some {| name := orElse (profileName profile) "Guest";
              email := orElse (profileEmail profile) "";
              phone := orElse (profilePhone profile) "" |}
  | None => None
  end.

(** [restaurantId] may be [undefined] when it is read in a stored hash. *)
Definition getRestaurantById (restaurantId : option string) (db : Redis)
    : Res Restaurant :=
  match restaurantId with
  | Some rid =>
      if Js.truthy rid then
        match restaurantDocs db !! (restaurantPrefix +:+ rid) with
        | Some restaurant => Ok restaurant
        | None => Raise "RESTAURANT_NOT_FOUND"
        end
      else Raise "INVALID_RESTAURANT_ID"
  | None => Raise "INVALID_RESTAURANT_ID"
  end.

(** *** ReservationService *)

Definition createReservation (rd : Readings) (d : ReservationData)
    (db : Redis) : Redis * Res (Reservation * RestaurantSummary) :=
  match getUserContactDetails (d_sessionId d) db with
  | None => (db, Raise "TypeError")
  | Some customerDetails =>
      match
        repository_createReservation rd d
          (trim (name customerDetails)) (trim (phone customerDetails))
          (if Js.truthy (email customerDetails)
           then Some (trim (email customerDetails)) else None)
          (match d_specialRequests d with
           | Some s => if Js.truthy s then Some (trim s) else None
           | None => None
           end) db
      with
      | (db', Raise e) => (db', Raise e)
      | (db', Ok reservation) =>
          match getRestaurantById (Some (d_restaurantId d)) db' with
          | Raise e => (db', Raise e)
          | Ok restaurant => (db', Ok (reservation, summaryOf restaurant))
          end
      end
  end.

Definition getReservationById (reservationId : string) (db : Redis)
    : Res (gmap string string * RestaurantSummary) :=
  if Js.truthy reservationId then
    match repository_getReservationById reservationId db with
    | None => Raise "RESERVATION_NOT_FOUND"
    | Some reservation =>
        restaurant ← getRestaurantById (reservation !! "restaurantId") db;
        Ok (reservation, summaryOf restaurant)
    end
  else Raise "INVALID_RESERVATION_ID".

(** [`${reservation.date} ${reservation.time}`]. *)
Definition dateTimeText (reservation : gmap string string) : string :=
  match reservation !! "date" with Some d => d | None => "undefined" end
  +:+ " "
  +:+ match reservation !! "time" with Some t => t | None => "undefined" end.

(** The first [cancelReservation(reservationId, sessionId)] of the class
    body.  The class declares a second method of the same name after it,
    and an object of the class has the second one only. *)
Definition cancelReservation_shadowed (rd : Readings)
    (reservationId sid : string) (db : Redis)
    : Redis * Res (gmap string string) :=
  if (negb (Js.truthy reservationId) || negb (Js.truthy sid))%bool
  then (db, Raise "INVALID_PARAMETERS")
  else
    match repository_getReservationById reservationId db with
    | None => (db, Raise "RESERVATION_NOT_FOUND")
    | Some reservation =>
        if negb (bool_decide (reservation !! "sessionId" = Some sid))
        then (db, Raise "UNAUTHORIZED_CANCELLATION")
        else if bool_decide (reservation !! "status" = Some "cancelled")
        then (db, Raise "ALREADY_CANCELLED")
        else if bool_decide (reservation !! "status" = Some "completed")
        then (db, Raise "CANNOT_CANCEL_COMPLETED")
        else
          let reservationDateTime := dateParse (dateTimeText reservation) in
          let hoursUntilReservation :=
            divideBy (sub reservationDateTime (now rd))
              (1000 * 60 * 60) in
          if lt hoursUntilReservation (ofZ 2)
          then (db, Raise "CANCELLATION_TOO_LATE")
          else
            let cancelledReservation :=
              <[ "updatedAt" := stamp rd 1 ]>
                (<[ "cancelledAt" := stamp rd 0 ]>
                   (<[ "status" := "cancelled" ]> reservation)) in
            match repository_updateReservation rd 2 reservationId
                    cancelledReservation db with
            | (db', Ok _) => (db', Ok cancelledReservation)
            | (db', Raise e) => (db', Raise e)
            end
    end.

(** The second [cancelReservation(reservationId)]: the method that the
    tool and the route call. *)
Definition cancelReservation (rd : Readings) (reservationId : string)
    (db : Redis) : Redis * Res (gmap string string * RestaurantSummary) :=
  match getReservationById reservationId db with
  | Raise e => (db, Raise e)
  | Ok (reservation, restaurant) =>
      if bool_decide (reservation !! "status" = Some "cancelled")
      then (db, Raise "ALREADY_CANCELLED")
      else
        match repository_updateReservationStatus rd reservationId "cancelled"
                db with
        | (db', Ok cancelledReservation) =>
            (db', Ok (cancelledReservation, restaurant))
        | (db', Raise e) => (db', Raise e)
        end
  end.

(** [PUT /api/reservations/:reservationId/cancel]: the second argument of
    the call has no parameter to bind to. *)
Definition cancelRoute (rd : Readings) (reservationId : string)
    (sid : option string) (db : Redis)
    : Redis * Res (gmap string string * RestaurantSummary) :=
  if Js.truthyOpt sid then cancelReservation rd reservationId db
  else (db, Raise "MISSING_SESSION_ID").

(** The status stored for a reservation. *)
Definition storedStatus (reservationId : string) (db : Redis)
    : option string :=
  hGetAll (keyPrefix +:+ reservationId) db !! "status".

End WithRuntime.

(** *** A store for the examples

    The user ashwin, the restaurant tonino, and a confirmed reservation
    for 2024-11-15 at 19:00. *)

Definition ashwin : Profile :=
  {| profileName := Some "Ashwin"; profileEmail := Some "ashwin@example.com";
     profilePhone := Some "+91-0000000000" |}.

Definition tonino : Restaurant :=
  {| rid := "tonino"; rname := "Tonino"; rcuisine := "Italian";
     rcity := "Delhi"; rlocality := "Mehrauli"; rtype := "Fine Dining";
     rpriceFor2 := ofZ 3000; rrating := Fin (9 # 2);
     rreviewCount := None |}.

Definition dinner : Reservation :=
  {| id := "res_1"; sessionId := "ashwin"; restaurantId := "tonino";
     date := "2024-11-15"; time := "19:00"; guests := ofZ 2;
     customerName := "Ashwin"; customerPhone := "+91-0000000000";
     customerEmail := Some "ashwin@example.com"; specialRequests := None;
     status := "confirmed";
     createdAt := "2024-11-01T10:00:00.000Z";
     updatedAt := "2024-11-01T10:00:00.000Z" |}.

Definition emptyStore : Redis :=
  {| hashes := ∅; sets := ∅;
     restaurantDocs := {[ "restaurants:tonino" := tonino ]};
     userProfiles := {[ "users:ashwin" := ashwin ]} |}.

Definition storeWithDinner : Redis :=
  {| hashes := {[ "reservations:res_1" := @flatten asciiRuntime dinner ]};
     sets := {[ "users:ashwin:reservations" := {[ "res_1" ]} ]};
     restaurantDocs := {[ "restaurants:tonino" := tonino ]};
     userProfiles := {[ "users:ashwin" := ashwin ]} |}.

(** One hour before the dinner: 2024-11-15 18:00 UTC. *)
Definition oneHourBefore : Readings :=
  {| generatedId := "res_2";
     now := ofZ 1731693600000;
     stamp := fun _ => "2024-11-15T18:00:00.000Z" |}.

(** A booking at a restaurant that the index does not hold. *)
Definition ghostBooking : ReservationData :=
  {| d_sessionId := "ashwin"; d_restaurantId := "ghost-kitchen";
     d_date := "2024-12-24"; d_time := "20:00"; d_guests := ofZ 4;
     d_specialRequests := None |}.

End Reservations.


(** ** More of services/ai/helpers/caching.js *)

Module CachingText.

(** [Math.round(ms / unit)] for a whole number of milliseconds and a unit
    above zero: the nearest whole number, a half going up. *)
Definition roundedUnits (ms unit : Z) : Z := ((2 * ms + unit) / (2 * unit))%Z.

(** [`${n} ${word}${n > 1 ? 's' : ''}`]. *)
Definition counted (n : Z) (word : string) : string :=
  pretty n +:+ " " +:+ word +:+ (if Z.ltb 1 n then "s" else "").

Definition formatTTL (ms : Z) : string :=
  if Z.eqb ms 0 then "No cache"
  else
    let hours := roundedUnits ms (60 * 60 * 1000) in
    let days := roundedUnits ms (24 * 60 * 60 * 1000) in
    if Z.leb 1 days then counted days "day" else counted hours "hour".

End CachingText.

(** ** What the events of a run show *)

Module Traces.
Import Effect Workflow.

(** The names of the tools invoked, in the order of the calls. *)
Fixpoint invokedNames (h : list Event) : list string :=
  match h with
  | [] => []
  | ToolInvoke name _ :: rest => name :: invokedNames rest
  | _ :: rest => invokedNames rest
  end.

(** The messages written to the transcript, in the order of the writes. *)
Fixpoint savedMessages (h : list Event) : list ChatMessage :=
  match h with
  | [] => []
  | SaveChatMessage _ _ message :: rest => message :: savedMessages rest
  | _ :: rest => savedMessages rest
  end.

(** The arguments of the stores of the cache, in the order of the calls. *)
Fixpoint cacheStores (h : list Event) : list CacheParams :=
  match h with
  | [] => []
  | LangCacheSet p :: rest => p :: cacheStores rest
  | _ :: rest => cacheStores rest
  end.

Definition isSave (e : Event) : bool :=
  match e with SaveChatMessage _ _ _ => true | _ => false end.

(** A tool call as the agent may issue it for the session [sid]: the tool
    is one of the registry, and the two tools that take a session receive
    [sid]. *)
Definition toolCallAllowed (sid : string) (e : Event) : Prop :=
  match e with
  | ToolInvoke name args =>
      In name restaurantTools
      /\ (Js.includes ["make_reservation"; "get_user_reservations"] name
          = true -> args !! "sessionId" = Some sid)
  | _ => True
  end.

(** The store that the cache write issues for a state. *)
Definition storeOf (state : AgentState) : CacheParams :=
  {| cp_prompt := lastUserQuery (messages state);
     cp_response := result state;
     cp_ttlMillis :=
       Caching.determineToolBasedCacheTTL
         (match toolsUsed state with Some used => used | None => [] end);
     cp_attributes :=
       if Js.truthy (sessionId state)
       then Some (sessionAttributes (sessionId state)) else None |}.

(** The events that a run of the graph may add. *)
Definition graphEvent (e : Event) : Prop :=
  match e with
  | GetOrCreateChatHistory _ _ | SaveChatMessage _ _ _ => False
  | _ => True
  end.

(** The transcript entries of a turn. *)
Definition userEntry (message : string) : ChatMessage :=
  {| role := "user"; cm_content := Some message |}.

Definition assistantEntry (reply : option string) : ChatMessage :=
  {| role := "assistant"; cm_content := reply |}.

(** A model that answers at once. *)
Definition directWorld : World := Worlds.patientWorld 0.

(** A model that uses the direct answer tool once. *)
Definition oneToolWorld : World := Worlds.patientWorld 1.

(** The names of a tool list that the registry holds. *)
Definition registered (used : list string) : list string :=
  List.filter (Js.includes restaurantTools) used.

End Traces.

(** ** More of the restaurant service: the validated text search *)

Module SearchApi.
Import Effect JsNum Runtime Search.

(** The parameters of [RestaurantService.searchRestaurants]; the numbers
    are what the route parsed, or [undefined]. *)
Record TextSearchParams : Type := mkTextSearchParams {
  t_query : option string;
  t_cuisine : option string;
  t_city : option string;
  t_locality : option string;
  t_type : option string;
  t_maxPrice : option Num;
  t_minRating : option Num;
  t_limit : option Num
}.

(** What [searchRestaurants] returns. *)
Record TextSearchResult : Type := mkTextSearchResult {
  found : list Restaurant;
  totalResults : nat;
  validated : Options;
  validatedQuery : string;
  hasMore : bool
}.

Section WithIndex.
Context {R : JsRuntime} {I : SearchIndex}.

(** [value ? value.trim() : undefined]. *)
Definition trimmed (value : option string) : option string :=
  match value with
  | Some v => if Js.truthy v then Some (trim v) else None
  | None => None
  end.

(** [parseInt(n)] and [parseFloat(n)] on a number: the number is first
    written as a string. *)
Definition parseIntOfNumber (n : Num) : Num := parseInt (numberToString n).
Definition parseFloatOfNumber (n : Num) : Num :=
  parseFloat (numberToString n).

(** [Math.min(Math.max(parseInt(limit) || 10, 1), 50)]. *)
Definition validLimitOf (limit : Num) : Num :=
  let wanted := parseIntOfNumber limit in
  min (max (if JsNum.truthy wanted then wanted else ofZ 10) (ofZ 1)) (ofZ 50).

(** [_validateSearchParams], with the destructuring defaults of
    [searchRestaurants]: [query = ''] and [limit = 10]. *)
Definition validateSearchParams (p : TextSearchParams) : string * Options :=
  let query := match t_query p with Some q => q | None => "" end in
  let limit := match t_limit p with Some l => l | None => ofZ 10 end in
  (if Js.truthy query then trim query else "",
   {| o_limit := Some (validLimitOf limit);
      o_latitude := None; o_longitude := None; o_radius := None;
      o_cuisine := trimmed (t_cuisine p);
      o_city := trimmed (t_city p);
      o_locality := trimmed (t_locality p);
      o_type := trimmed (t_type p);
      o_maxPrice :=
        match t_maxPrice p with
        | Some m => if JsNum.truthy m
                    then Some (max (parseIntOfNumber m) (ofZ 0)) else None
        | None => None
        end;
      o_minRating :=
        match t_minRating p with
        | Some m => if JsNum.truthy m
                    then Some (min (max (parseFloatOfNumber m) (ofZ 0))
                                 (ofZ 5))
                    else None
        | None => None
        end |}).

Definition searchRestaurants (p : TextSearchParams) : Res TextSearchResult :=
  let '(query, options) := validateSearchParams p in
  restaurants ← repository_searchRestaurants (Some query) options;
  Ok {| found := restaurants;
        totalResults := length restaurants;
        validated := options;
        validatedQuery := query;
        hasMore :=
          match o_limit options with
          | Some l => negb (strictNe (ofZ (Z.of_nat (length restaurants))) l)
          | None => false
          end |}.

End WithIndex.

(** [a] may stand before [b] in an array sorted with [compare]. *)
Definition inOrder {A : Type} (compare : A -> A -> comparison) (a b : A)
    : Prop :=
  compare a b <> Gt.

(** No restaurant of the list is rated below the one that follows it. *)
Definition ratingsNeverRise (l : list Restaurant) : Prop :=
  forall (i j : nat) (a b : Restaurant),
    (i < j)%nat -> l !! i = Some a -> l !! j = Some b ->
    lt (rrating a) (rrating b) = false.

(** [{ query: "sushi", latitude: "0", longitude: "77.2" }]. *)
Definition sushiOnTheEquator : SearchArgs :=
  {| query := "sushi"; latitude := Some "0"; longitude := Some "77.2";
     radius := None; cuisine := None; city := None; locality := None;
     type := None; maxPrice := None; minRating := None; limit := None;
     useSemanticSearch := None |}.

(** [{ query: "", latitude: "28.6", longitude: "77.2", limit: "1" }]. *)
Definition oneNearby : SearchArgs :=
  {| query := ""; latitude := Some "28.6"; longitude := Some "77.2";
     radius := None; cuisine := None; city := None; locality := None;
     type := None; maxPrice := None; minRating := None; limit := Some "1";
     useSemanticSearch := None |}.

End SearchApi.

(** ** The router of the restaurant routes

    [router.get(path, handler)] registers a route; a request is given to
    the first route registered whose method and path match it.  A path is
    read as its segments, [/location/nearby] as [location] and [nearby];
    [:id] stands for one segment that is not empty. *)

Module Routing.

Inductive Method : Type := GET | HEAD | POST | PUT | DELETE.

Inductive Piece : Type :=
| Lit (text : string)
| Param (name : string).

Record Route (H : Type) : Type := mkRoute {
  verb : Method;
  pattern : list Piece;
  handler : H
}.

Arguments mkRoute {H} verb pattern handler.
Arguments verb {H} r.
Arguments pattern {H} r.
Arguments handler {H} r.

(** The parameters that a match binds, [req.params]. *)
Definition Params : Type := list (string * string).

(** A route registered with [get] also answers HEAD requests. *)
Definition verbMatches (route request : Method) : bool :=
  match route, request with
  | GET, GET | GET, HEAD | HEAD, HEAD | POST, POST | PUT, PUT
  | DELETE, DELETE => true
  | _, _ => false
  end.

Section Dispatch.

(** How a literal of a route is compared with a segment of the request;
    the router ignores the case of letters unless it is configured
    otherwise. *)
Variable literalMatches : string -> string -> bool.

Definition pieceMatches (p : Piece) (segment : string) : option Params :=
  match p with
  | Lit text => if literalMatches text segment then Some [] else None
  | Param name => if Js.truthy segment then Some [(name, segment)] else None
  end.

Fixpoint patternMatches (pieces : list Piece) (path : list string)
    : option Params :=
  match pieces, path with
  | [], [] => Some []
  | p :: pieces', segment :: path' =>
      match pieceMatches p segment, patternMatches pieces' path' with
      | Some bound, Some bound' => Some (bound ++ bound')
      | _, _ => None
      end
  | _, _ => None
  end.

Fixpoint dispatch {H : Type} (routes : list (Route H)) (method : Method)
    (path : list string) : option (H * Params) :=
  match routes with
  | [] => None
  | r :: rest =>
      if verbMatches (verb r) method then
        match patternMatches (pattern r) path with
        | Some bound => Some (handler r, bound)
        | None => dispatch rest method path
        end
      else dispatch rest method path
  end.

End Dispatch.

(** The handlers of the restaurant routes, in the order of the file. *)
Inductive RestaurantHandler : Type :=
| SearchRoute
| ByIdRoute
| PopularRoute
| FiltersRoute
| StatsRoute
| NearbyRoute.

Definition restaurantRouter : list (Route RestaurantHandler) :=
  [ mkRoute GET [] SearchRoute;
    mkRoute GET [Param "id"] ByIdRoute;
    mkRoute GET [Lit "popular"] PopularRoute;
    mkRoute GET [Lit "filters"] FiltersRoute;
    mkRoute GET [Lit "stats"] StatsRoute;
    mkRoute GET [Lit "location"; Lit "nearby"] NearbyRoute ].

End Routing.

(** ** ReservationRepository.deleteReservation *)

Module ReservationAdmin.
Import Effect Reservations.

(** [SREM key member]. *)
Definition sRem (key member : string) (db : Redis) : Redis :=
  {| hashes := hashes db;
     sets :=
       match sets db !! key with
       | Some old => <[ key := old ∖ {[ member ]} ]> (sets db)
       | None => sets db
       end;
     restaurantDocs := restaurantDocs db;
     userProfiles := userProfiles db |}.

(** [DEL key] of a hash. *)
Definition del (key : string) (db : Redis) : Redis :=
  {| hashes := delete key (hashes db);
     sets := sets db;
     restaurantDocs := restaurantDocs db;
     userProfiles := userProfiles db |}.

(** [`${reservation.sessionId}`]. *)
Definition sessionOf (reservation : gmap string string) : string :=
  match reservation !! "sessionId" with Some s => s | None => "undefined" end.

Definition repository_deleteReservation (reservationId : string) (db : Redis)
    : Redis * bool :=
  match repository_getReservationById reservationId db with
  | None => (db, false)
  | Some reservation =>
      let db1 :=
        sRem (sessionPrefix +:+ sessionOf reservation +:+ ":reservations")
          reservationId db in
      (del (keyPrefix +:+ reservationId) db1, true)
  end.

End ReservationAdmin.

(** ** More inputs for the examples *)

Module Examples.
Import Effect JsNum Runtime Search SearchApi Reservations.

(** An Italian place in Delhi with the rating given. *)
Definition rated (name : string) (rating : Num) : Restaurant :=
  {| rid := name; rname := name; rcuisine := "Italian"; rcity := "Delhi";
     rlocality := "Khan Market"; rtype := "Casual Dining";
     rpriceFor2 := ofZ 1200; rrating := rating; rreviewCount := None |}.

(** An index of three places rated 4.1, 4.8 and 3.9. *)
Definition threePlaces : SearchIndex :=
  listIndex [rated "amici" (Fin (41 # 10)); rated "tonino" (Fin (24 # 5));
             rated "diva" (Fin (39 # 10))].

(** [{ city: "Delhi", limit: 5 }]. *)
Definition popularInDelhi : Options :=
  {| o_limit := Some (ofZ 5); o_latitude := None; o_longitude := None;
     o_radius := None; o_cuisine := None; o_city := Some "Delhi";
     o_locality := None; o_type := None; o_maxPrice := None;
     o_minRating := None |}.


(** [{ query: " pizza ", limit: 200 }]. *)
Definition widePage : TextSearchParams :=
  {| t_query := Some " pizza "; t_cuisine := None; t_city := None;
     t_locality := None; t_type := None; t_maxPrice := None;
     t_minRating := None; t_limit := Some (ofZ 200) |}.

(** A booking at tonino. *)
Definition tableForTwo : ReservationData :=
  {| d_sessionId := "ashwin"; d_restaurantId := "tonino";
     d_date := "2024-12-24"; d_time := "20:00"; d_guests := ofZ 2;
     d_specialRequests := Some " window seat " |}.

End Examples.

(* ===================================================================== *)
(** * Part II. Theorems                                                   *)
(* ===================================================================== *)

Module JsFacts.

Lemma includes_In (arr : list string) (x : string) :
  Js.includes arr x = true <-> In x arr.
Proof.
  unfold Js.includes. rewrite existsb_exists. split.
  - intros (y & Hy & Heq). apply String.eqb_eq in Heq. now subst.
  - intros H. exists x. split; [assumption | apply String.eqb_refl].
Qed.

Lemma includes_false (arr : list string) (x : string) :
  Js.includes arr x = false <-> ~ In x arr.
Proof.
  rewrite <- includes_In. destruct (Js.includes arr x); split; intros;
    congruence.
Qed.

End JsFacts.

Module CachingFacts.
Import Caching.

Lemma personal_some (toolsUsed : list string) :
  Js.some (fun tool => Js.includes toolsUsed tool) personalTools = true
  <-> usesPersonal toolsUsed.
Proof.
  unfold usesPersonal, Js.some, personalTools. simpl.
  rewrite !orb_true_iff, !JsFacts.includes_In. intuition discriminate.
Qed.

Lemma static_some (toolsUsed : list string) :
  Js.some (fun tool => Js.includes toolsUsed tool) staticTools = true
  <-> usesStatic toolsUsed.
Proof.
  unfold usesStatic, Js.some, staticTools. simpl.
  rewrite !orb_true_iff, !JsFacts.includes_In. intuition discriminate.
Qed.

Lemma ttl_personal (toolsUsed : list string) :
  usesPersonal toolsUsed -> determineToolBasedCacheTTL toolsUsed = 0%Z.
Proof.
  intros H. apply personal_some in H. unfold determineToolBasedCacheTTL.
  now rewrite H.
Qed.

(** C1. The TTL policy is total and is a first-match-wins ladder over the
    list of tool names: a reservation tool gives 0; otherwise a popular
    listing or a direct answer gives 7 days; otherwise the unified search
    gives 24 hours; otherwise the detail lookup gives 6 hours; otherwise
    12 hours.  The list holding only the unified search gives 24 hours. *)
Theorem ttl_first_match_ladder :
  forall toolsUsed : list string,
    let ttl := determineToolBasedCacheTTL toolsUsed in
    let personal := usesPersonal toolsUsed in
    let static := usesStatic toolsUsed in
    let search := In "semantic_search_restaurants" toolsUsed in
    let detail := In "get_restaurant_details" toolsUsed in
    (personal -> ttl = 0%Z)
    /\ (~ personal -> static -> ttl = 604800000%Z)
    /\ (~ personal -> ~ static -> search -> ttl = 86400000%Z)
    /\ (~ personal -> ~ static -> ~ search -> detail -> ttl = 21600000%Z)
    /\ (~ personal -> ~ static -> ~ search -> ~ detail -> ttl = 43200000%Z)
    /\ determineToolBasedCacheTTL ["semantic_search_restaurants"]
       = 86400000%Z.
Proof.
  intros toolsUsed ttl personal static search detail.
  subst ttl personal static search detail.
  pose proof (personal_some toolsUsed) as Hp.
  pose proof (static_some toolsUsed) as Hs.
  unfold determineToolBasedCacheTTL.
  destruct (Js.some _ personalTools) eqn:Ep.
  { assert (usesPersonal toolsUsed) by now apply Hp.
    repeat split; intros; try reflexivity; contradiction. }
  assert (Hnp : ~ usesPersonal toolsUsed).
  { intros H. apply Hp in H. discriminate. }
  destruct (Js.some _ staticTools) eqn:Es.
  { assert (usesStatic toolsUsed) by now apply Hs.
    repeat split; intros; try reflexivity; contradiction. }
  assert (Hns : ~ usesStatic toolsUsed).
  { intros H. apply Hs in H. discriminate. }
  unfold Js.some, searchTools, detailTools. simpl. rewrite !orb_false_r.
  destruct (Js.includes toolsUsed "semantic_search_restaurants") eqn:Eq.
  { apply JsFacts.includes_In in Eq.
    repeat split; intros; try reflexivity; contradiction. }
  apply JsFacts.includes_false in Eq.
  destruct (Js.includes toolsUsed "get_restaurant_details") eqn:Ed.
  { apply JsFacts.includes_In in Ed.
    repeat split; intros; try reflexivity; contradiction. }
  apply JsFacts.includes_false in Ed.
  repeat split; intros; try reflexivity; contradiction.
Qed.

End CachingFacts.


Module WorkflowFacts.
Import Effect Workflow.

Section Nodes.
Context {W : World}.

Lemma firstResponse_truthy (r : SearchResponse) (text : string) :
  firstResponse r = Some text -> Js.truthy text = true.
Proof.
  unfold firstResponse.
  destruct (data r) as [[|entry rest]|]; try discriminate.
  destruct (response entry) as [t|]; try discriminate.
  destruct (Js.truthy t) eqn:E; intros H; inversion H; subst; assumption.
Qed.

Lemma checkSemanticCache_unscoped (h : list Event) (query : string) :
  checkSemanticCache h query None
  = (h ++ [LangCacheSearch {| sp_prompt := query;
                              sp_searchStrategies := [Exact; Semantic];
                              sp_attributes := None |}],
     match langCache_search h {| sp_prompt := query;
                                 sp_searchStrategies := [Exact; Semantic];
                                 sp_attributes := None |} with
     | Ok r => Ok (firstResponse r)
     | Raise e => Raise e
     end).
Proof. reflexivity. Qed.

Lemma queryCacheCheck_events (h : list Event) (st : AgentState) :
  fst (queryCacheCheck h st)
  = h ++ [LangCacheSearch (lookupRequest (messages st))].
Proof.
  unfold queryCacheCheck. rewrite checkSemanticCache_unscoped.
  fold (lookupRequest (messages st)).
  destruct (langCache_search h (lookupRequest (messages st))) as [r|e];
    [|reflexivity].
  destruct (firstResponse r) as [c|]; [|reflexivity].
  destruct (Js.truthy c); reflexivity.
Qed.

Lemma queryCacheCheck_sessionId (h : list Event) (st : AgentState) :
  u_sessionId (snd (queryCacheCheck h st)) = Some (sessionId st).
Proof.
  unfold queryCacheCheck. rewrite checkSemanticCache_unscoped.
  destruct (langCache_search h _) as [r|e]; [|reflexivity].
  destruct (firstResponse r) as [c|]; [|reflexivity].
  destruct (Js.truthy c); reflexivity.
Qed.

Lemma queryCacheCheck_hit (h : list Event) (st : AgentState)
    (cached : string) :
  snd (checkSemanticCache h (lastUserQuery (messages st)) None)
  = Ok (Some cached) ->
  queryCacheCheck h st
  = (h ++ [LangCacheSearch (lookupRequest (messages st))],
     {| u_sessionId := Some (sessionId st);
        u_messages := Some (messages st ++ [AIMessage cached]);
        u_result := Some cached; u_cacheStatus := Some hit;
        u_toolsUsed := None; u_foundRestaurants := None |}).
Proof.
  intros Hhit. unfold queryCacheCheck.
  rewrite checkSemanticCache_unscoped in *. simpl in Hhit.
  fold (lookupRequest (messages st)) in *.
  destruct (langCache_search h (lookupRequest (messages st))) as [r|e];
    [|discriminate].
  inversion Hhit as [Hr]. rewrite Hr.
  now rewrite (firstResponse_truthy r cached Hr).
Qed.

Lemma queryCacheCheck_raise (h : list Event) (st : AgentState) (e : string) :
  langCache_search h (lookupRequest (messages st)) = Raise e ->
  queryCacheCheck h st
  = (h ++ [LangCacheSearch (lookupRequest (messages st))],
     {| u_sessionId := Some (sessionId st); u_messages := None;
        u_result := None; u_cacheStatus := Some miss;
        u_toolsUsed := None; u_foundRestaurants := None |}).
Proof.
  intros Hraise. unfold queryCacheCheck.
  rewrite checkSemanticCache_unscoped.
  fold (lookupRequest (messages st)). now rewrite Hraise.
Qed.

(** C4. When the cache lookup of a turn returns a hit, the graph ends
    after the cache check whatever the number of passes allowed to the
    agent: the lookup is the only call made (no model call, no tool call,
    no cache store), no tool is recorded, and the turn ends with
    cacheStatus = hit and the cached answer as its result. *)
Theorem cache_hit_ends_turn (fuel : nat) (h : list Event) (sid : string)
    (msgs : list Message) (cached : string) :
  snd (checkSemanticCache h
         (lastUserQuery (messages (initialState sid msgs))) None)
  = Ok (Some cached) ->
  exists final : AgentState,
    invokeGraph fuel h sid msgs
    = (h ++ [LangCacheSearch
               (lookupRequest (messages (initialState sid msgs)))],
       Some final)
    /\ cacheStatus final = Some hit
    /\ result final = Some cached
    /\ toolsUsed final = None
    /\ modelInvocations (fst (invokeGraph fuel h sid msgs))
       = modelInvocations h
    /\ List.filter isToolInvoke (fst (invokeGraph fuel h sid msgs))
       = List.filter isToolInvoke h
    /\ List.filter isCacheSet (fst (invokeGraph fuel h sid msgs))
       = List.filter isCacheSet h.
Proof.
  intros Hhit. unfold invokeGraph.
  rewrite (queryCacheCheck_hit h (initialState sid msgs) cached Hhit).
  cbn [afterCacheCheck applyUpdate cacheStatus u_cacheStatus].
  eexists. split; [reflexivity|].
  cbn [fst]. unfold modelInvocations.
  rewrite !List.filter_app. cbn. rewrite !app_nil_r.
  repeat split; reflexivity.
Qed.

(** C7. When the cache lookup throws, the cache check catches it and
    writes cacheStatus = miss; the graph then goes on to the agent node
    and the cache write, as on an ordinary miss. *)
Theorem cache_failure_is_a_miss (fuel : nat) (h : list Event) (sid : string)
    (msgs : list Message) (e : string) :
  let st0 := initialState sid msgs in
  let h1 := h ++ [LangCacheSearch (lookupRequest (messages st0))] in
  langCache_search h (lookupRequest (messages st0)) = Raise e ->
  exists u1 : Update,
    queryCacheCheck h st0 = (h1, u1)
    /\ u_cacheStatus u1 = Some miss
    /\ afterCacheCheck (applyUpdate st0 u1) = restaurant_discovery_agent
    /\ invokeGraph fuel h sid msgs
       = match restaurantDiscoveryAgent fuel h1 (applyUpdate st0 u1) with
         | (h2, None) => (h2, None)
         | (h2, Some u2) =>
             let st2 := applyUpdate (applyUpdate st0 u1) u2 in
             (fst (processWorkOutputWithCaching h2 st2),
              Some (applyUpdate st2
                      (snd (processWorkOutputWithCaching h2 st2))))
         end.
Proof.
  intros st0 h1 Hraise. subst h1.
  eexists. split; [apply (queryCacheCheck_raise h st0 e Hraise)|].
  split; [reflexivity|]. split; [reflexivity|].
  unfold invokeGraph. fold st0.
  rewrite (queryCacheCheck_raise h st0 e Hraise).
  cbn [afterCacheCheck applyUpdate cacheStatus u_cacheStatus].
  destruct (restaurantDiscoveryAgent _ _ _) as [h2 [u2|]]; [|reflexivity].
  destruct (processWorkOutputWithCaching _ _); reflexivity.
Qed.


(** *** What each node adds to the events *)

Lemma extendsWith_refl (P : Event -> Prop) (h : list Event) :
  extendsWith P h h.
Proof. exists []. split; [now rewrite app_nil_r | constructor]. Qed.

Lemma extendsWith_trans (P : Event -> Prop) (a b c : list Event) :
  extendsWith P a b -> extendsWith P b c -> extendsWith P a c.
Proof.
  intros (x & -> & Hx) (y & -> & Hy). exists (x ++ y).
  split; [now rewrite app_assoc | now apply Forall_app].
Qed.

Lemma extendsWith_one (P : Event -> Prop) (h : list Event) (e : Event) :
  P e -> extendsWith P h (h ++ [e]).
Proof. intros He. exists [e]. split; [reflexivity | now repeat constructor]. Qed.

Lemma extendsWith_weaken (P Q : Event -> Prop) (a b : list Event) :
  (forall e, P e -> Q e) -> extendsWith P a b -> extendsWith Q a b.
Proof.
  intros HPQ (x & -> & Hx). exists x. split; [reflexivity|].
  eapply Forall_impl; eauto.
Qed.

Lemma runToolCalls_events (sid : string) (calls : list ToolCall) :
  forall (h : list Event) (ls : LoopState),
    extendsWith agentEvent h (fst (runToolCalls sid calls h ls)).
Proof.
  induction calls as [|c rest IH]; intros h ls; cbn [runToolCalls].
  - apply extendsWith_refl.
  - destruct (Js.includes restaurantTools (tcName c)); [|apply IH].
    destruct (tool_invoke h (tcName c) _) as [toolResult|e].
    + eapply extendsWith_trans; [|apply IH].
      now apply extendsWith_one.
    + now apply extendsWith_one.
Qed.

Lemma loopBody_events (state : AgentState) (h : list Event) (ls : LoopState) :
  extendsWith agentEvent h (stepEvents (loopBody state h ls)).
Proof.
  unfold loopBody.
  destruct (model_invoke h (currentMessages ls)) as [resp|e].
  - destruct (noToolCalls resp).
    + now apply extendsWith_one.
    + match goal with
      | |- context [runToolCalls ?a ?b ?c ?d] =>
          pose proof (runToolCalls_events a b c d) as Hcalls;
          destruct (runToolCalls a b c d) as [h2 [ls'|e]]
      end; cbn [stepEvents fst] in *;
        (eapply extendsWith_trans; [|exact Hcalls]);
        now apply extendsWith_one.
  - now apply extendsWith_one.
Qed.

Lemma agentLoop_events (fuel : nat) (state : AgentState) :
  forall (h : list Event) (ls : LoopState),
    extendsWith agentEvent h (fst (agentLoop fuel state h ls)).
Proof.
  induction fuel as [|fuel IH]; intros h ls; cbn [agentLoop].
  - apply extendsWith_refl.
  - pose proof (loopBody_events state h ls) as Hbody.
    destruct (loopBody state h ls) as [h' ls'|h' u|h' e];
      cbn [stepEvents fst] in *; try assumption.
    eapply extendsWith_trans; [exact Hbody | apply IH].
Qed.

Lemma restaurantDiscoveryAgent_events (fuel : nat) (h : list Event)
    (state : AgentState) :
  extendsWith agentEvent h (fst (restaurantDiscoveryAgent fuel h state)).
Proof.
  unfold restaurantDiscoveryAgent, agentEntry.
  match goal with
  | |- context [agentLoop ?f ?s ?a ?b] =>
      pose proof (agentLoop_events f s a b) as Hloop;
      destruct (agentLoop f s a b) as [h' [u|e|]]
  end; cbn [fst] in *;
    (eapply extendsWith_trans; [|exact Hloop]);
    now apply extendsWith_one.
Qed.

(** The update of the agent node names the session of the state and
    always records a list of tools. *)
Lemma loopBody_exit (state : AgentState) (h h' : list Event) (ls : LoopState)
    (u : Update) :
  loopBody state h ls = Exit h' u ->
  u_sessionId u = Some (sessionId state)
  /\ u_cacheStatus u = None
  /\ exists used, u_toolsUsed u = Some used.
Proof.
  unfold loopBody.
  destruct (model_invoke h (currentMessages ls)) as [resp|e];
    [|discriminate].
  destruct (noToolCalls resp).
  - intros H. inversion H; subst. cbn. repeat split; eauto.
  - destruct (runToolCalls _ _ _ _) as [h2 [ls'|e]]; discriminate.
Qed.

Lemma agentLoop_returned (fuel : nat) (state : AgentState) :
  forall (h h' : list Event) (ls : LoopState) (u : Update),
    agentLoop fuel state h ls = (h', Returned u) ->
    u_sessionId u = Some (sessionId state)
    /\ u_cacheStatus u = None
    /\ exists used, u_toolsUsed u = Some used.
Proof.
  induction fuel as [|fuel IH]; intros h h' ls u; cbn [agentLoop].
  - discriminate.
  - destruct (loopBody state h ls) as [h1 ls1|h1 u1|h1 e] eqn:Hbody.
    + apply IH.
    + intros H. inversion H; subst. eapply loopBody_exit; eauto.
    + discriminate.
Qed.

Lemma restaurantDiscoveryAgent_update (fuel : nat) (h h' : list Event)
    (state : AgentState) (u : Update) :
  restaurantDiscoveryAgent fuel h state = (h', Some u) ->
  u_sessionId u = Some (sessionId state)
  /\ u_cacheStatus u = None
  /\ exists used, u_toolsUsed u = Some used.
Proof.
  unfold restaurantDiscoveryAgent, agentEntry.
  destruct (agentLoop _ _ _ _) as [h1 [u1|e|]] eqn:Hloop; intros H;
    inversion H; subst.
  - eapply agentLoop_returned; eauto.
  - cbn. repeat split; eauto.
Qed.

(** The cache write of a turn that used a reservation tool. *)
Lemma cacheWrite_personal (h : list Event) (state : AgentState)
    (used : list string) :
  toolsUsed state = Some used ->
  Caching.usesPersonal used ->
  fst (processWorkOutputWithCaching h state) = h
  /\ u_cacheStatus (snd (processWorkOutputWithCaching h state)) = Some skip.
Proof.
  intros Hused Hpersonal. unfold processWorkOutputWithCaching.
  rewrite Hused. destruct (Js.includes used "error"); [now split|].
  rewrite (CachingFacts.ttl_personal used Hpersonal). now split.
Qed.

Lemma cacheWrite_toolsUsed (h : list Event) (state : AgentState) :
  toolsUsed (applyUpdate state (snd (processWorkOutputWithCaching h state)))
  = toolsUsed state.
Proof.
  unfold processWorkOutputWithCaching, saveToSemanticCache,
    saveResponseInSemanticCache.
  destruct (toolsUsed state) as [used|] eqn:Hused;
    repeat match goal with
    | |- context [if ?c then _ else _] => destruct c
    | |- context [match langCache_set ?a ?b with _ => _ end] =>
        destruct (langCache_set a b)
    end; cbn; rewrite ?Hused; reflexivity.
Qed.

Lemma filter_extendsWith (p : Event -> bool) (P : Event -> Prop)
    (a b : list Event) :
  (forall e, P e -> p e = false) ->
  extendsWith P a b -> List.filter p b = List.filter p a.
Proof.
  intros Hp (x & -> & Hx). rewrite List.filter_app.
  assert (Hnil : List.filter p x = []).
  { induction Hx as [|e x He _ IH]; cbn; [reflexivity|].
    now rewrite (Hp e He). }
  rewrite Hnil. apply app_nil_r.
Qed.

Lemma agentEvent_not_cacheSet (e : Event) :
  agentEvent e -> isCacheSet e = false.
Proof. unfold agentEvent. destruct e; cbn; congruence. Qed.

(** C3. A turn that ends with a reservation tool among its tools used has
    TTL 0, ends with cacheStatus = skip, and has made no call of the cache
    store; the cache write node itself adds no event on such a state. *)
Theorem reservation_turn_is_not_cached (fuel : nat) (h tr : list Event)
    (sid : string) (msgs : list Message) (final : AgentState)
    (used : list string) :
  invokeGraph fuel h sid msgs = (tr, Some final) ->
  toolsUsed final = Some used ->
  Caching.usesPersonal used ->
  Caching.determineToolBasedCacheTTL used = 0%Z
  /\ cacheStatus final = Some skip
  /\ List.filter isCacheSet tr = List.filter isCacheSet h
  /\ (forall (h' : list Event) (state : AgentState),
        toolsUsed state = Some used ->
        fst (processWorkOutputWithCaching h' state) = h').
Proof.
  intros Hrun Hused Hpersonal.
  split; [now apply CachingFacts.ttl_personal|].
  assert (Hnode : forall h' state, toolsUsed state = Some used ->
            fst (processWorkOutputWithCaching h' state) = h').
  { intros h' state Hst.
    now destruct (cacheWrite_personal h' state used Hst Hpersonal). }
  unfold invokeGraph in Hrun.
  pose proof (queryCacheCheck_events h (initialState sid msgs)) as Hev1.
  destruct (queryCacheCheck h (initialState sid msgs)) as [h1 u1] eqn:Hq.
  cbn [fst] in Hev1.
  assert (Hu1 : u_toolsUsed u1 = None).
  { revert Hq. unfold queryCacheCheck.
    destruct (checkSemanticCache _ _ _) as [hq [[c|]|e]];
      try destruct (Js.truthy c); intros H; inversion H; reflexivity. }
  destruct (afterCacheCheck _) eqn:Hroute.
  4:{ inversion Hrun; subst. cbn in Hused. rewrite Hu1 in Hused.
      discriminate. }
  all: pose proof (restaurantDiscoveryAgent_events fuel h1
         (applyUpdate (initialState sid msgs) u1)) as Hev2;
       destruct (restaurantDiscoveryAgent _ _ _) as [h2 [u2|]] eqn:Hagent;
       [|discriminate];
       cbn [fst] in Hev2;
       destruct (restaurantDiscoveryAgent_update _ _ _ _ _ Hagent)
         as (_ & _ & used2 & Hused2);
       set (st2 := applyUpdate (applyUpdate (initialState sid msgs) u1) u2)
         in *;
       assert (Hst2 : toolsUsed st2 = Some used2)
         by (subst st2; cbn; now rewrite Hused2);
       pose proof (cacheWrite_toolsUsed h2 st2) as Hkeep;
       destruct (processWorkOutputWithCaching h2 st2) as [h3 u3] eqn:Hw;
       cbn [snd] in Hkeep; inversion Hrun; subst tr final;
       rewrite Hkeep, Hst2 in Hused; inversion Hused; subst used2;
       destruct (cacheWrite_personal h2 st2 used Hst2 Hpersonal)
         as [Hsame Hskip];
       rewrite Hw in Hsame, Hskip; cbn [fst snd] in Hsame, Hskip;
       subst h3;
       (split; [cbn; now rewrite Hskip|]);
       (split; [|exact Hnode]);
       rewrite (filter_extendsWith isCacheSet agentEvent h1 h2
                  agentEvent_not_cacheSet Hev2);
       rewrite Hev1, List.filter_app; cbn; apply app_nil_r.
Qed.


(** *** The cache requests of a turn *)

Lemma cacheWrite_events (h : list Event) (state : AgentState) :
  Js.truthy (sessionId state) = true ->
  extendsWith (cacheRequestScoped (sessionId state)) h
    (fst (processWorkOutputWithCaching h state)).
Proof.
  intros Hsid.
  unfold processWorkOutputWithCaching, saveToSemanticCache,
    saveResponseInSemanticCache.
  rewrite Hsid.
  repeat match goal with
    | |- context [if ?c then _ else _] => destruct c
    | |- context [match ?x with Some _ => _ | None => _ end] => destruct x
    | |- context [match langCache_set ?a ?b with _ => _ end] =>
        destruct (langCache_set a b)
    end; cbn [fst];
    solve [apply extendsWith_refl | now apply extendsWith_one].
Qed.

Lemma agentEvent_scoped (sid : string) (e : Event) :
  agentEvent e -> cacheRequestScoped sid e.
Proof.
  unfold agentEvent. destruct e; cbn; intros H; try discriminate H; exact I.
Qed.

Lemma invokeGraph_events (fuel : nat) (h : list Event) (sid : string)
    (msgs : list Message) :
  Js.truthy sid = true ->
  extendsWith (cacheRequestScoped sid) h (fst (invokeGraph fuel h sid msgs)).
Proof.
  intros Hsid. unfold invokeGraph.
  pose proof (queryCacheCheck_events h (initialState sid msgs)) as Hev1.
  pose proof (queryCacheCheck_sessionId h (initialState sid msgs)) as Hs1.
  destruct (queryCacheCheck h (initialState sid msgs)) as [h1 u1].
  cbn [fst snd] in Hev1, Hs1.
  assert (H01 : extendsWith (cacheRequestScoped sid) h h1).
  { rewrite Hev1. now apply extendsWith_one. }
  set (st1 := applyUpdate (initialState sid msgs) u1).
  assert (Hst1 : sessionId st1 = sid) by (subst st1; cbn; now rewrite Hs1).
  destruct (afterCacheCheck st1); cbn [fst]; try exact H01.
  all: pose proof (restaurantDiscoveryAgent_events fuel h1 st1) as Hev2;
       destruct (restaurantDiscoveryAgent fuel h1 st1) as [h2 [u2|]]
         eqn:Hagent; cbn [fst] in *;
       pose proof (extendsWith_weaken _ _ _ _ (agentEvent_scoped sid) Hev2)
         as H12;
       [|eapply extendsWith_trans; eassumption];
       destruct (restaurantDiscoveryAgent_update _ _ _ _ _ Hagent)
         as (Hs2 & _ & _);
       set (st2 := applyUpdate st1 u2);
       assert (Hst2 : sessionId st2 = sid)
         by (subst st2; cbn; rewrite Hs2; exact Hst1);
       pose proof (cacheWrite_events h2 st2) as Hev3;
       rewrite Hst2 in Hev3; specialize (Hev3 Hsid);
       destruct (processWorkOutputWithCaching h2 st2) as [h3 u3];
       cbn [fst] in *;
       eapply extendsWith_trans; [exact H01|];
       eapply extendsWith_trans; eassumption.
Qed.

Lemma runRestaurantAgentWorkflow_events (fuel : nat) (h : list Event)
    (sid chatId message : string) :
  Js.truthy sid = true ->
  extendsWith (cacheRequestScoped sid) h
    (fst (runRestaurantAgentWorkflow fuel h sid chatId message)).
Proof.
  intros Hsid. unfold runRestaurantAgentWorkflow.
  assert (H0 : extendsWith (cacheRequestScoped sid) h
                 (h ++ [GetOrCreateChatHistory sid chatId]))
    by now apply extendsWith_one.
  destruct (chatRepository_getOrCreateChatHistory h sid chatId)
    as [rawHistory|e]; [|exact H0].
  match goal with
  | |- context [invokeGraph ?f ?a ?b ?c] =>
      pose proof (invokeGraph_events f a b c Hsid) as Hev;
      destruct (invokeGraph f a b c) as [h2 [final|]]
  end; cbn [fst] in *.
  2:{ eapply extendsWith_trans; eassumption. }
  assert (H2 : extendsWith (cacheRequestScoped sid) h h2)
    by (eapply extendsWith_trans; eassumption).
  repeat match goal with
    | |- context [match chatRepository_saveChatMessage ?a ?b ?c ?d with
                  | Ok _ => _ | Raise _ => _ end] =>
        destruct (chatRepository_saveChatMessage a b c d)
    end; cbn [fst];
    repeat (eapply extendsWith_trans; [|now apply extendsWith_one]);
    exact H2.
Qed.

(** The lookup of a turn carries the text of the new message, whatever the
    session and the history, when the reducer keeps a first message list
    as it is written. *)
Lemma lastUserQuery_new_message (history : list Message) (message : string) :
  lastUserQuery (history ++ [HumanMessage message]) = message.
Proof.
  unfold lastUserQuery, findLast. rewrite rev_app_distr. cbn.
  now destruct message.
Qed.

(** X9.  The cache is asked for the text of the new message alone: the
    messages before it, the session and the state of the run play no
    part in the request, and the request is the first event of the
    run. *)
Lemma turn_lookup_request (fuel : nat) (h : list Event) (sid : string)
    (history : list ChatMessage) (message : string) :
  (forall msgs, messagesStateReducer [] msgs = msgs) ->
  exists rest : list Event,
    fst (invokeGraph fuel h sid
           (map toMessage history ++ [HumanMessage message]))
    = h ++ LangCacheSearch {| sp_prompt := message;
                              sp_searchStrategies := [Exact; Semantic];
                              sp_attributes := None |} :: rest.
Proof.
  intros Hreducer. unfold invokeGraph.
  set (st0 := initialState sid _).
  assert (Hq : lookupRequest (messages st0)
               = {| sp_prompt := message;
                    sp_searchStrategies := [Exact; Semantic];
                    sp_attributes := None |}).
  { subst st0. unfold lookupRequest, initialState. cbn [messages].
    now rewrite Hreducer, lastUserQuery_new_message. }
  pose proof (queryCacheCheck_events h st0) as Hev1. rewrite Hq in Hev1.
  destruct (queryCacheCheck h st0) as [h1 u1]. cbn [fst] in Hev1. subst h1.
  destruct (afterCacheCheck _).
  4:{ exists []. reflexivity. }
  all: match goal with
       | |- context [restaurantDiscoveryAgent ?f ?a ?b] =>
           pose proof (restaurantDiscoveryAgent_events f a b) as Hev2;
           destruct (restaurantDiscoveryAgent f a b) as [h2 [u2|]]
       end; cbn [fst] in *; destruct Hev2 as (x & -> & _);
       [|exists x; now rewrite <- app_assoc];
       match goal with
       | |- context [processWorkOutputWithCaching ?a ?b] =>
           assert (Hev3 : exists y,
                     fst (processWorkOutputWithCaching a b) = a ++ y);
           [unfold processWorkOutputWithCaching, saveToSemanticCache,
              saveResponseInSemanticCache;
            repeat match goal with
              | |- context [if ?c then _ else _] => destruct c
              | |- context [match langCache_set ?p ?q with _ => _ end] =>
                  destruct (langCache_set p q)
              end; cbn [fst];
            solve [exists []; now rewrite app_nil_r | eexists; reflexivity]
           |];
           destruct (processWorkOutputWithCaching a b) as [h3 u3]
       end; cbn [fst] in *; destruct Hev3 as (y & ->);
       exists (x ++ y); now rewrite <- !app_assoc.
Qed.

(** C10. The cache lookup is unscoped and the cache store is scoped by
    the session: among the events of any turn that enters through the chat
    route, every lookup carries no attributes and every store carries the
    sessionId of the request as its attribute; the cache check sends the
    last user message with the two strategies and nothing else, so its
    request, its status and its result are the same under any two session
    identifiers. *)
Theorem cache_lookup_unscoped_store_scoped :
  (forall (fuel : nat) (h : list Event) (body : ChatRequest),
     extendsWith (cacheRequestScoped (requestSession body)) h
       (fst (postChat fuel h body)))
  /\ (forall (h : list Event) (st : AgentState),
        fst (queryCacheCheck h st)
        = h ++ [LangCacheSearch
                  {| sp_prompt := lastUserQuery (messages st);
                     sp_searchStrategies := [Exact; Semantic];
                     sp_attributes := None |}])
  /\ (forall (h : list Event) (st : AgentState) (sid1 sid2 : string),
        fst (queryCacheCheck h (withSessionId sid1 st))
        = fst (queryCacheCheck h (withSessionId sid2 st))
        /\ u_cacheStatus (snd (queryCacheCheck h (withSessionId sid1 st)))
           = u_cacheStatus (snd (queryCacheCheck h (withSessionId sid2 st)))
        /\ u_result (snd (queryCacheCheck h (withSessionId sid1 st)))
           = u_result (snd (queryCacheCheck h (withSessionId sid2 st)))).
Proof.
  split; [|split].
  - intros fuel h body. unfold postChat, requestSession.
    destruct (req_message body) as [message|];
      destruct (req_sessionId body) as [sid|]; cbn [fst];
      try apply extendsWith_refl.
    destruct (Js.truthy message); cbn [andb fst];
      [|apply extendsWith_refl].
    destruct (Js.truthy sid) eqn:Hsid; cbn [fst];
      [|apply extendsWith_refl].
    match goal with
    | |- context [runRestaurantAgentWorkflow ?f ?a ?b ?c ?d] =>
        pose proof (runRestaurantAgentWorkflow_events f a b c d Hsid) as Hev;
        destruct (runRestaurantAgentWorkflow f a b c d) as [h' [reply|]]
    end; exact Hev.
  - intros h st. apply queryCacheCheck_events.
  - intros h st sid1 sid2. rewrite !queryCacheCheck_events.
    split; [reflexivity|].
    unfold queryCacheCheck. rewrite !checkSemanticCache_unscoped. cbn.
    destruct (langCache_search h _) as [r|e]; [|split; reflexivity].
    destruct (firstResponse r) as [c|]; [|split; reflexivity].
    destruct (Js.truthy c); split; reflexivity.
Qed.

(** *** The agent loop *)

Lemma loopBody_final (state : AgentState) (h : list Event) (ls : LoopState)
    (r : AIResponse) :
  model_invoke h (currentMessages ls) = Ok r ->
  noToolCalls r = true ->
  exists u : Update,
    loopBody state h ls = Exit (h ++ [ModelInvoke (currentMessages ls)]) u
    /\ u_result u = Some (content r).
Proof.
  intros Hr Hno. unfold loopBody. rewrite Hr, Hno.
  eexists. split; reflexivity.
Qed.

Lemma loopBody_exit_final (state : AgentState) (h h' : list Event)
    (ls : LoopState) (u : Update) :
  loopBody state h ls = Exit h' u ->
  exists r : AIResponse,
    model_invoke h (currentMessages ls) = Ok r
    /\ noToolCalls r = true
    /\ u_result u = Some (content r).
Proof.
  unfold loopBody.
  destruct (model_invoke h (currentMessages ls)) as [r|e]; [|discriminate].
  destruct (noToolCalls r) eqn:Hno.
  - intros H. inversion H; subst. exists r.
    split; [reflexivity|]. split; [exact Hno | reflexivity].
  - destruct (runToolCalls _ _ _ _) as [h2 [ls'|e]]; discriminate.
Qed.

Lemma throwsAt_iff (state : AgentState) (h : list Event) (ls : LoopState) :
  throwsAt state h ls <-> modelThrowsAt h ls \/ toolThrowsAt state h ls.
Proof.
  unfold throwsAt, modelThrowsAt, toolThrowsAt, loopBody.
  destruct (model_invoke h (currentMessages ls)) as [r|e].
  - destruct (noToolCalls r) eqn:Hno.
    + split.
      * intros (h' & e & H). discriminate.
      * intros [(e & H)|(r' & e & H & Hno' & _)]; [discriminate|].
        inversion H; subst. congruence.
    + destruct (runToolCalls _ _ _ _) as [h2 [ls'|e]] eqn:Hcalls.
      * split.
        -- intros (h' & e & H). discriminate.
        -- intros [(e & H)|(r' & e & H & _ & Hraise)]; [discriminate|].
           inversion H; subst. rewrite Hcalls in Hraise. discriminate.
      * split; [|eauto]. intros _. right. exists r, e.
        split; [reflexivity|]. split; [exact Hno|]. now rewrite Hcalls.
  - split; [|eauto]. intros _. left. eauto.
Qed.

Lemma agentLoop_from_pass (k : nat) (state : AgentState) :
  forall (fuel : nat) (h h' : list Event) (ls ls' : LoopState),
    passStart k state h ls = Some (h', ls') ->
    agentLoop (k + fuel) state h ls = agentLoop fuel state h' ls'.
Proof.
  induction k as [|k IH]; intros fuel h h' ls ls'; cbn.
  - intros H. now inversion H.
  - destruct (loopBody state h ls) as [h1 ls1|h1 u|h1 e]; try discriminate.
    apply IH.
Qed.

Lemma agentLoop_stops (fuel : nat) (state : AgentState) :
  forall (h : list Event) (ls : LoopState),
    snd (agentLoop fuel state h ls) <> Running ->
    exists (k : nat) (h' : list Event) (ls' : LoopState),
      passStart k state h ls = Some (h', ls')
      /\ ((exists h2 u, loopBody state h' ls' = Exit h2 u)
          \/ throwsAt state h' ls').
Proof.
  induction fuel as [|fuel IH]; intros h ls; cbn [agentLoop].
  - intros H. now contradiction H.
  - destruct (loopBody state h ls) as [h1 ls1|h1 u|h1 e] eqn:Hbody.
    + intros H. destruct (IH h1 ls1 H) as (k & h' & ls' & Hk & Hstop).
      exists (S k), h', ls'. cbn. rewrite Hbody. now split.
    + intros _. exists 0%nat, h, ls. split; [reflexivity|]. left. eauto.
    + intros _. exists 0%nat, h, ls. split; [reflexivity|]. right.
      unfold throwsAt. eauto.
Qed.

Lemma terminates_iff (state : AgentState) (h : list Event) (ls : LoopState) :
  terminates state h ls
  <-> eventually finalAnswerAt state h ls
      \/ eventually (throwsAt state) state h ls.
Proof.
  split.
  - intros [fuel Hfuel].
    destruct (agentLoop_stops fuel state h ls Hfuel)
      as (k & h' & ls' & Hk & [(h2 & u & Hexit)|Hthrow]).
    + left. exists k, h', ls'. split; [exact Hk|].
      destruct (loopBody_exit_final _ _ _ _ _ Hexit) as (r & Hr & Hno & _).
      exists r. now split.
    + right. exists k, h', ls'. now split.
  - intros [(k & h' & ls' & Hk & (r & Hr & Hno))
           |(k & h' & ls' & Hk & (h2 & e & Hfail))];
      exists (k + 1)%nat; rewrite (agentLoop_from_pass k state 1 _ _ _ _ Hk);
      cbn [agentLoop].
    + destruct (loopBody_final state h' ls' r Hr Hno) as (u & -> & _).
      discriminate.
    + rewrite Hfail. discriminate.
Qed.

End Nodes.

Section NoCap.
Import Worlds.

Variable n : nat.

Lemma modelInvocations_app (a b : list Event) :
  modelInvocations (a ++ b) = (modelInvocations a + modelInvocations b)%nat.
Proof. unfold modelInvocations. now rewrite List.filter_app, length_app. Qed.

Lemma patient_tool_pass (state : AgentState) (h : list Event)
    (ls : LoopState) :
  (modelInvocations h < n)%nat ->
  exists (h' : list Event) (ls' : LoopState),
    @loopBody (patientWorld n) state h ls = Continue h' ls'
    /\ modelInvocations h' = S (modelInvocations h).
Proof.
  intros Hlt. unfold loopBody. cbn [model_invoke patientWorld scripted].
  unfold toolCallsThenText.
  destruct (Nat.ltb_spec (modelInvocations h) n) as [_|Hge]; [|lia].
  cbn. eexists. eexists. split; [reflexivity|].
  rewrite !modelInvocations_app. cbn. lia.
Qed.

Lemma patient_final_pass (state : AgentState) (h : list Event)
    (ls : LoopState) :
  (n <= modelInvocations h)%nat ->
  exists u : Update,
    @loopBody (patientWorld n) state h ls
    = Exit (h ++ [ModelInvoke (currentMessages ls)]) u
    /\ u_result u = Some "Done.".
Proof.
  intros Hge. unfold loopBody. cbn [model_invoke patientWorld scripted].
  unfold toolCallsThenText.
  destruct (Nat.ltb_spec (modelInvocations h) n) as [Hlt|_]; [lia|].
  cbn. eexists. split; reflexivity.
Qed.

Lemma patient_run (state : AgentState) :
  forall (d : nat) (h : list Event) (ls : LoopState),
    (modelInvocations h + d = n)%nat ->
    snd (@agentLoop (patientWorld n) d state h ls) = Running
    /\ exists (h' : list Event) (u : Update),
         @agentLoop (patientWorld n) (S d) state h ls = (h', Returned u)
         /\ modelInvocations h' = S n
         /\ u_result u = Some "Done.".
Proof.
  induction d as [|d IH]; intros h ls Hd.
  - split; [reflexivity|].
    destruct (patient_final_pass state h ls) as (u & Hbody & Hres); [lia|].
    cbn [agentLoop]. rewrite Hbody. eexists. eexists.
    split; [reflexivity|]. split; [|exact Hres].
    rewrite modelInvocations_app. cbn. lia.
  - destruct (patient_tool_pass state h ls) as (h1 & ls1 & Hbody & Hcount);
      [lia|].
    destruct (IH h1 ls1) as (Hrun & h' & u & Hret & Hn & Hres); [lia|].
    split.
    + cbn [agentLoop]. rewrite Hbody. exact Hrun.
    + exists h', u. split; [|now split].
      change (@agentLoop (patientWorld n) (S (S d)) state h ls)
        with (match @loopBody (patientWorld n) state h ls with
              | Continue h2 ls2 =>
                  @agentLoop (patientWorld n) (S d) state h2 ls2
              | Exit h2 u2 => (h2, Returned u2)
              | Fail h2 e => (h2, Threw e)
              end).
      rewrite Hbody. exact Hret.
Qed.

(** With [n] tool-call answers before the final text, the agent node is
    still in its loop after [n] passes and returns in pass [n + 1], after
    [n + 1] calls of the model. *)
Lemma no_iteration_cap (sid text : string) :
  snd (@restaurantDiscoveryAgent (patientWorld n) n [] (turn sid text))
  = None
  /\ exists (h' : list Event) (u : Update),
       @restaurantDiscoveryAgent (patientWorld n) (S n) [] (turn sid text)
       = (h', Some u)
       /\ modelInvocations h' = S n
       /\ u_result u = Some "Done.".
Proof.
  unfold restaurantDiscoveryAgent.
  destruct (@agentEntry (patientWorld n) [] (turn sid text)) as [h0 ls0]
    eqn:Hentry.
  assert (Hh0 : h0 = [GetUserProfile sid]).
  { unfold agentEntry in Hentry. now inversion Hentry. }
  destruct (patient_run (turn sid text) n h0 ls0)
    as (Hrun & h' & u & Hret & Hn & Hres).
  { subst h0. reflexivity. }
  split.
  - destruct (@agentLoop (patientWorld n) n (turn sid text) h0 ls0)
      as [h1 [u1|e|]]; cbn in Hrun; try discriminate Hrun; reflexivity.
  - exists h', u. rewrite Hret. now repeat split.
Qed.

End NoCap.

Section Nodes2.
Context {W : World}.

(** C9 (amended). A pass of the loop returns exactly when the model
    answers without a tool invocation, and the result is the text of that
    answer; the loop is otherwise left only when the call of the model or
    of a tool throws, and the node then returns its apology with the tool
    list [error].  The loop stops if and only if the model eventually
    answers without a tool invocation or a call throws.  There is no cap
    on the passes: for every n, a model that answers n times with a tool
    call and then with a text keeps the loop running for n passes and is
    called n + 1 times. *)
Theorem agent_loop_exits_without_cap :
  (forall (state : AgentState) (h : list Event) (ls : LoopState),
     ((exists h' u, loopBody state h ls = Exit h' u) <-> finalAnswerAt h ls)
     /\ (forall h' u, loopBody state h ls = Exit h' u ->
           exists r, model_invoke h (currentMessages ls) = Ok r
                     /\ u_result u = Some (content r))
     /\ (throwsAt state h ls
         <-> modelThrowsAt h ls \/ toolThrowsAt state h ls)
     /\ (terminates state h ls
         <-> eventually finalAnswerAt state h ls
             \/ eventually (throwsAt state) state h ls))
  /\ (forall (fuel : nat) (h h' : list Event) (state : AgentState)
        (e : string),
        agentLoop fuel state (fst (agentEntry h state))
          (snd (agentEntry h state)) = (h', Threw e) ->
        restaurantDiscoveryAgent fuel h state
        = (h', Some (agentErrorUpdate state)))
  /\ (forall (n : nat) (sid text : string),
        snd (@restaurantDiscoveryAgent (Worlds.patientWorld n) n []
               (Worlds.turn sid text)) = None
        /\ exists (h' : list Event) (u : Update),
             @restaurantDiscoveryAgent (Worlds.patientWorld n) (S n) []
               (Worlds.turn sid text) = (h', Some u)
             /\ (n < modelInvocations h')%nat
             /\ u_result u = Some "Done.").
Proof.
  split; [|split].
  - intros state h ls. split; [split|split; [|split]].
    + intros (h' & u & Hexit).
      destruct (loopBody_exit_final _ _ _ _ _ Hexit) as (r & Hr & Hno & _).
      exists r. now split.
    + intros (r & Hr & Hno).
      destruct (loopBody_final state h ls r Hr Hno) as (u & Hbody & _).
      eauto.
    + intros h' u Hexit.
      destruct (loopBody_exit_final _ _ _ _ _ Hexit) as (r & Hr & _ & Hres).
      eauto.
    + apply throwsAt_iff.
    + apply terminates_iff.
  - intros fuel h h' state e Hloop. unfold restaurantDiscoveryAgent.
    destruct (agentEntry h state) as [h0 ls0]. cbn [fst snd] in Hloop.
    now rewrite Hloop.
  - intros n sid text.
    destruct (no_iteration_cap n sid text) as (Hrun & h' & u & Hret & Hn & Hres).
    split; [exact Hrun|]. exists h', u. split; [exact Hret|].
    split; [lia | exact Hres].
Qed.

(** Stopping is not the same as a final answer: with a model that cannot
    be reached the loop of the agent stops at once, and the model has given
    no answer at all. *)
Lemma agent_loop_stops_without_answer :
  ~ (@terminates Worlds.unreachableWorld (Worlds.turn "ashwin" "hello")
       (fst (@agentEntry Worlds.unreachableWorld []
               (Worlds.turn "ashwin" "hello")))
       (snd (@agentEntry Worlds.unreachableWorld []
               (Worlds.turn "ashwin" "hello")))
     <-> @eventually Worlds.unreachableWorld
           (@finalAnswerAt Worlds.unreachableWorld)
           (Worlds.turn "ashwin" "hello")
           (fst (@agentEntry Worlds.unreachableWorld []
                   (Worlds.turn "ashwin" "hello")))
           (snd (@agentEntry Worlds.unreachableWorld []
                   (Worlds.turn "ashwin" "hello")))).
Proof.
  cbn [agentEntry fst snd]. intros [Hforward _].
  match type of Hforward with
  | ?stops -> _ => assert (Hstop : stops) by (exists 1%nat; cbn; discriminate)
  end.
  destruct (Hforward Hstop) as (k & h' & ls' & Hk & (r & Hr & _)).
  destruct k as [|k]; cbn in Hk.
  - inversion Hk; subst. cbn in Hr. discriminate.
  - discriminate.
Qed.

End Nodes2.

(** The reservation turn of [Worlds.reservationWorld]: the model books a
    table and then answers. *)
Lemma reservation_turn_is_not_cached_witness :
  exists (tr : list Event) (final : AgentState),
    @invokeGraph Worlds.reservationWorld 2 [] "ashwin"
      [HumanMessage "Book a table at Tonino"] = (tr, Some final)
    /\ toolsUsed final = Some ["make_reservation"]
    /\ cacheStatus final = Some skip
    /\ List.filter isCacheSet tr = [].
Proof.
  eexists. eexists.
  split; [vm_compute; reflexivity|].
  split; [reflexivity|].
  refine (let H := @reservation_turn_is_not_cached Worlds.reservationWorld
                     2 [] _ "ashwin" [HumanMessage "Book a table at Tonino"]
                     _ ["make_reservation"] _ _ _ in
          conj (proj1 (proj2 H)) (proj1 (proj2 (proj2 H)))).
  - vm_compute; reflexivity.
  - reflexivity.
  - left. left. reflexivity.
Defined.

(** A hit in [Worlds.hitWorld]. *)
Lemma cache_hit_ends_turn_witness :
  exists final : AgentState,
    @invokeGraph Worlds.hitWorld 0 [] "ashwin"
      [HumanMessage "Show me Italian restaurants"]
    = ([LangCacheSearch
          (lookupRequest [HumanMessage "Show me Italian restaurants"])],
       Some final)
    /\ cacheStatus final = Some hit
    /\ result final = Some "Try Tonino."
    /\ toolsUsed final = None.
Proof.
  destruct (@cache_hit_ends_turn Worlds.hitWorld 0 [] "ashwin"
              [HumanMessage "Show me Italian restaurants"] "Try Tonino."
              eq_refl) as (final & Hrun & Hhit & Hres & Hused & _).
  exists final. repeat split; assumption.
Defined.

(** A cache that cannot be reached, in [Worlds.cacheDownWorld]. *)
Lemma cache_failure_is_a_miss_witness :
  exists u1 : Update,
    @queryCacheCheck Worlds.cacheDownWorld []
      (@initialState Worlds.cacheDownWorld "ashwin"
         [HumanMessage "Any good ramen?"])
    = ([LangCacheSearch (lookupRequest [HumanMessage "Any good ramen?"])], u1)
    /\ u_cacheStatus u1 = Some miss.
Proof.
  destruct (@cache_failure_is_a_miss Worlds.cacheDownWorld 1 [] "ashwin"
              [HumanMessage "Any good ramen?"] "UpstreamUnavailable"
              eq_refl) as (u1 & Hcheck & Hmiss & _).
  exists u1. split; assumption.
Defined.


End WorkflowFacts.

Module SearchFacts.
Import Effect JsNum Runtime Search.

Lemma insertSorted_not_nil {A : Type} (compare : A -> A -> comparison)
    (x : A) (sorted : list A) :
  insertSorted compare x sorted <> [].
Proof.
  destruct sorted as [|y rest]; cbn; [discriminate|].
  destruct (compare x y); discriminate.
Qed.

Lemma sortWith_nil {A : Type} (compare : A -> A -> comparison)
    (arr : list A) :
  sortWith compare arr = [] -> arr = [].
Proof.
  destruct arr as [|x rest]; [reflexivity|]. unfold sortWith. cbn.
  intros H. now apply insertSorted_not_nil in H.
Qed.

Lemma firstn_nil_positive {A : Type} (n : nat) (arr : list A) :
  (1 <= n)%nat -> firstn n arr = [] -> arr = [].
Proof.
  destruct n as [|n]; [lia|]. destruct arr; [reflexivity | discriminate].
Qed.

Lemma asCount_whole (q : Q) (n : nat) :
  asCount (Fin q) = Some n ->
  (q == inject_Z (Z.of_nat n))%Q.
Proof.
  unfold asCount.
  destruct (Z.leb_spec 0 (Qnum (Qred q))) as [Hpos|]; [|discriminate].
  destruct (Pos.eqb_spec (Qden (Qred q)) 1) as [Hden|]; [|discriminate].
  cbn. intros H. inversion H; subst n.
  rewrite Z2Nat.id by assumption.
  eapply Qeq_trans; [apply Qeq_sym, Qred_correct|].
  destruct (Qred q) as [num den]. cbn in *. subst den.
  unfold Qeq. cbn. lia.
Qed.

(** A limit clamped between 1 and 50 asks for at least one document. *)
Lemma clamped_limit_positive (x : Num) (n : nat) :
  asCount (min (max x (ofZ 1)) (ofZ 50)) = Some n -> (1 <= n)%nat.
Proof.
  destruct x as [| | |q].
  - discriminate.
  - vm_compute. intros H. inversion H. lia.
  - vm_compute. intros H. inversion H. lia.
  - unfold max, min, ofZ. cbn [compare].
    destruct (Qcompare q (inject_Z 1)) eqn:Hq1; cbn [compare].
    + destruct (Qcompare q (inject_Z 50)) eqn:Hq50.
      * intros H. apply asCount_whole in H. apply Qeq_alt in Hq1.
        rewrite Hq1 in H. unfold Qeq in H. cbn in H. lia.
      * intros H. apply asCount_whole in H. apply Qeq_alt in Hq1.
        rewrite Hq1 in H. unfold Qeq in H. cbn in H. lia.
      * vm_compute. intros H. inversion H. lia.
    + vm_compute. intros H. inversion H. lia.
    + destruct (Qcompare q (inject_Z 50)) eqn:Hq50.
      * intros H. apply asCount_whole in H. apply Qgt_alt in Hq1.
        rewrite H in Hq1. unfold Qlt in Hq1. cbn in Hq1. lia.
      * intros H. apply asCount_whole in H. apply Qgt_alt in Hq1.
        rewrite H in Hq1. unfold Qlt in Hq1. cbn in Hq1. lia.
      * vm_compute. intros H. inversion H. lia.
Qed.

Section Ladder.
Context {R : JsRuntime} {I : SearchIndex} {E : Embedder}.

Lemma retry_is_primary_without_cuisine (a : SearchArgs)
    (found : list Restaurant) :
  (semanticMode a || locationMode a)%bool = true ->
  retryWithoutCuisine a found = primarySearch (withoutCuisine a).
Proof.
  intros Hmode. unfold retryWithoutCuisine, primarySearch.
  change (semanticMode (withoutCuisine a)) with (semanticMode a).
  change (locationMode (withoutCuisine a)) with (locationMode a).
  destruct (semanticMode a); [reflexivity|].
  destruct (locationMode a); [reflexivity | discriminate].
Qed.

Lemma popularFallback_query (a : SearchArgs) :
  popularFallback a
  = (docs ← ft_search (popularQuery (city a))
              (min (max (maxResultsOf a) (ofZ 1)) (ofZ 50));
     Ok (sortWith popularOrder docs)).
Proof. reflexivity. Qed.

Lemma popularFallback_empty (a : SearchArgs) :
  popularFallback a = Ok [] -> ftMatches (popularQuery (city a)) = Ok [].
Proof.
  rewrite popularFallback_query. unfold ft_search.
  destruct (asCount _) as [n|] eqn:Hn; [|discriminate].
  apply clamped_limit_positive in Hn.
  destruct (ftMatches (popularQuery (city a))) as [docs|e]; [|discriminate].
  cbn. intros H. injection H as Hsorted.
  apply sortWith_nil in Hsorted.
  now rewrite (firstn_nil_positive n docs Hn Hsorted).
Qed.

Lemma searchLadder_empty (a : SearchArgs) :
  searchLadder a = Ok [] -> popularFallback a = Ok [].
Proof.
  unfold searchLadder.
  destruct (searchWithRetry a) as [found|e]; [|discriminate]. cbn.
  destruct found as [|r rest]; cbn; [tauto|].
  intros H. inversion H.
Qed.

(** C6. The fallback ladder of the unified search.  When the first step
    is the semantic or the location search, finds nothing and a cuisine
    filter was given, the result of the retry is that of the same step on
    the arguments without the cuisine.  When the result is still empty,
    the result of the tool is that of the popular listing of the city,
    which asks the index for the documents of the city rated 4.0 or more.
    So the tool returns an empty list only when the index holds no such
    document. *)
Theorem fallback_ladder (a : SearchArgs) :
  ((semanticMode a || locationMode a)%bool = true ->
   primarySearch a = Ok [] ->
   Js.truthyOpt (cuisine a) = true ->
   searchWithRetry a = primarySearch (withoutCuisine a))
  /\ (searchWithRetry a = Ok [] ->
      searchLadder a = popularFallback a
      /\ popularFallback a
         = (docs ← ft_search (popularQuery (city a))
                     (min (max (maxResultsOf a) (ofZ 1)) (ofZ 50));
            Ok (sortWith popularOrder docs))
      /\ restaurants (semanticSearchRestaurantsTool a)
         = match popularFallback a with
           | Ok found => Some found
           | Raise _ => None
           end)
  /\ (restaurants (semanticSearchRestaurantsTool a) = Some [] ->
      ftMatches (popularQuery (city a)) = Ok []).
Proof.
  split; [|split].
  - intros Hmode Hfirst Hcuisine. unfold searchWithRetry.
    rewrite Hfirst. cbn. rewrite Hcuisine.
    now apply retry_is_primary_without_cuisine.
  - intros Hretry.
    assert (Hladder : searchLadder a = popularFallback a).
    { unfold searchLadder. now rewrite Hretry. }
    split; [exact Hladder|]. split; [apply popularFallback_query|].
    unfold semanticSearchRestaurantsTool. rewrite Hladder.
    now destruct (popularFallback a).
  - intros Hempty. apply popularFallback_empty, searchLadder_empty.
    revert Hempty. unfold semanticSearchRestaurantsTool.
    destruct (searchLadder a) as [found|e]; cbn; intros H; inversion H.
    reflexivity.
Qed.

End Ladder.

(** The three steps of the ladder on [{ query: "sushi", cuisine:
    "Japanese", city: "Delhi" }] over an index of two Italian places of
    Delhi: nothing with the cuisine, both places without it. *)
Lemma fallback_ladder_witness :
  @primarySearch asciiRuntime twoPizzerias fixedEmbedder sushiInDelhi = Ok []
  /\ @searchWithRetry asciiRuntime twoPizzerias fixedEmbedder sushiInDelhi
     = @primarySearch asciiRuntime twoPizzerias fixedEmbedder
         (withoutCuisine sushiInDelhi)
  /\ @searchWithRetry asciiRuntime twoPizzerias fixedEmbedder sushiInDelhi
     = Ok [pizzeria "tonino"; pizzeria "amici"].
Proof.
  split; [vm_compute; reflexivity|].
  split; [|vm_compute; reflexivity].
  apply (proj1 (@fallback_ladder asciiRuntime twoPizzerias fixedEmbedder
                  sushiInDelhi));
    vm_compute; reflexivity.
Defined.

(** C2 at [{ query: "pizza", limit: "1" }] over an index of two places:
    the semantic search asks for twice the limit and the tool returns both
    documents. *)
Theorem semantic_search_exceeds_limit :
  @maxResultsOf asciiRuntime onePizzaPlease = ofZ 1
  /\ restaurants
       (@semanticSearchRestaurantsTool asciiRuntime twoPizzerias
          fixedEmbedder onePizzaPlease)
     = Some [pizzeria "tonino"; pizzeria "amici"]
  /\ totalFound
       (@semanticSearchRestaurantsTool asciiRuntime twoPizzerias
          fixedEmbedder onePizzaPlease)
     = Some 2%nat.
Proof. vm_compute. repeat split; reflexivity. Qed.

End SearchFacts.

Module ReservationFacts.
Import Effect JsNum Runtime Reservations.

Lemma hGetAll_hSet (key : string) (fields : gmap string string) (db : Redis) :
  hGetAll key (hSet key fields db) = fields ∪ hGetAll key db.
Proof. unfold hGetAll, hSet. cbn. now rewrite lookup_insert_eq. Qed.

Lemma hGetAll_sAdd (key setKey member : string) (db : Redis) :
  hGetAll key (sAdd setKey member db) = hGetAll key db.
Proof. reflexivity. Qed.

Lemma sMembers_sAdd (key member : string) (db : Redis) :
  member ∈ sMembers key (sAdd key member db).
Proof.
  unfold sMembers, sAdd. cbn. rewrite lookup_insert_eq. set_solver.
Qed.

Lemma not_empty_of_lookup (m : gmap string string) (k v : string) :
  m !! k = Some v -> bool_decide (m = ∅) = false.
Proof.
  intros Hk. apply bool_decide_eq_false. intros ->.
  now rewrite lookup_empty in Hk.
Qed.

Section Service.
Context {R : JsRuntime}.

Lemma flatten_status (r : Reservation) :
  flatten r !! "status" = Some (status r).
Proof. reflexivity. Qed.

(** What [createReservation] does for a restaurant that the index does
    not hold: the reservation is stored and listed under the session, and
    the call then fails. *)
Lemma createReservation_unknown_restaurant (rd : Readings)
    (d : ReservationData) (db : Redis) (details : ContactDetails) :
  getUserContactDetails (d_sessionId d) db = Some details ->
  Js.truthy (d_restaurantId d) = true ->
  restaurantDocs db !! (restaurantPrefix +:+ d_restaurantId d) = None ->
  snd (createReservation rd d db) = Raise "RESTAURANT_NOT_FOUND"
  /\ storedStatus (generatedId rd) (fst (createReservation rd d db))
     = Some "confirmed"
  /\ generatedId rd
     ∈ sMembers (sessionPrefix +:+ d_sessionId d +:+ ":reservations")
         (fst (createReservation rd d db)).
Proof.
  intros Hdetails Hid Habsent. unfold createReservation.
  rewrite Hdetails. unfold repository_createReservation.
  unfold getRestaurantById. rewrite Hid. cbn [restaurantDocs sAdd hSet].
  rewrite Habsent. cbn [fst snd].
  split; [reflexivity|]. split.
  - unfold storedStatus. rewrite hGetAll_sAdd, hGetAll_hSet.
    apply lookup_union_Some_l. apply flatten_status.
  - apply sMembers_sAdd.
Qed.

End Service.

(** The method that cancels does not read the clock. *)
Lemma cancelReservation_ignores_now (rd : Readings) (t : Num)
    (reservationId : string) (db : Redis) :
  cancelReservation
    {| generatedId := generatedId rd; now := t; stamp := stamp rd |}
    reservationId db
  = cancelReservation rd reservationId db.
Proof. reflexivity. Qed.

Lemma cancelReservation_unknown (rd : Readings) (reservationId : string)
    (db : Redis) :
  Js.truthy reservationId = true ->
  hashes db !! (keyPrefix +:+ reservationId) = None ->
  cancelReservation rd reservationId db = (db, Raise "RESERVATION_NOT_FOUND").
Proof.
  intros Hid Habsent.
  unfold cancelReservation, getReservationById,
    repository_getReservationById, hGetAll.
  rewrite Hid, Habsent. reflexivity.
Qed.



(** C5 at a confirmed reservation for 19:00 and a cancellation at 18:00
    of the same day.  The first method of the class refuses it as too
    late, but the class keeps the second method, which has no lead-time
    check: the tool and the route cancel the reservation.  A second
    attempt is refused as already cancelled, and an unknown identifier as
    not found. *)
Theorem late_cancellation_is_accepted :
  snd (@cancelReservation_shadowed asciiRuntime oneHourBefore "res_1"
         "ashwin" storeWithDinner)
  = Raise "CANCELLATION_TOO_LATE"
  /\ isOk (snd (cancelReservation oneHourBefore "res_1" storeWithDinner))
     = true
  /\ storedStatus "res_1"
       (fst (cancelReservation oneHourBefore "res_1" storeWithDinner))
     = Some "cancelled"
  /\ isOk (snd (cancelRoute oneHourBefore "res_1" (Some "ashwin")
                  storeWithDinner)) = true
  /\ snd (cancelReservation oneHourBefore "res_1"
            (fst (cancelReservation oneHourBefore "res_1" storeWithDinner)))
     = Raise "ALREADY_CANCELLED"
  /\ snd (cancelReservation oneHourBefore "res_404" storeWithDinner)
     = Raise "RESERVATION_NOT_FOUND".
Proof. vm_compute. repeat split; reflexivity. Qed.

(** C8 at a booking for a restaurant that the index does not hold: the
    call fails with RESTAURANT_NOT_FOUND after the reservation has been
    stored and entered in the list of the session. *)
Theorem failed_booking_is_persisted :
  snd (@createReservation asciiRuntime oneHourBefore ghostBooking emptyStore)
  = Raise "RESTAURANT_NOT_FOUND"
  /\ storedStatus "res_2"
       (fst (@createReservation asciiRuntime oneHourBefore ghostBooking
               emptyStore))
     = Some "confirmed"
  /\ "res_2"
     ∈ sMembers "users:ashwin:reservations"
         (fst (@createReservation asciiRuntime oneHourBefore ghostBooking
                 emptyStore))
  /\ storedStatus "res_2" emptyStore = None
  /\ sMembers "users:ashwin:reservations" emptyStore = ∅.
Proof.
  destruct (@createReservation_unknown_restaurant asciiRuntime oneHourBefore
              ghostBooking emptyStore
              {| name := "Ashwin"; email := "ashwin@example.com";
                 phone := "+91-0000000000" |})
    as (Hfail & Hstored & Hlisted); try reflexivity.
  repeat split; assumption || reflexivity.
Qed.

End ReservationFacts.

Module CachingProperties.
Import Caching CachingText.

Lemma includes_same (l1 l2 : list string) (t : string) :
  (forall x, In x l1 <-> In x l2) -> Js.includes l1 t = Js.includes l2 t.
Proof.
  intros Hsame. destruct (Js.includes l2 t) eqn:H2.
  - apply JsFacts.includes_In. apply Hsame. now apply JsFacts.includes_In.
  - apply JsFacts.includes_false. intros Hin. apply Hsame in Hin.
    apply JsFacts.includes_In in Hin. congruence.
Qed.

(** X1.  The TTL of a turn depends on which tools were used only: two lists
    with the same members, in any order and with any repetition, get the
    same TTL. *)
Theorem ttl_depends_on_membership (l1 l2 : list string) :
  (forall t, In t l1 <-> In t l2) ->
  determineToolBasedCacheTTL l1 = determineToolBasedCacheTTL l2.
Proof.
  intros Hsame. unfold determineToolBasedCacheTTL, Js.some.
  unfold personalTools, staticTools, searchTools, detailTools. cbn.
  now rewrite !(includes_same l1 l2 _ Hsame).
Qed.

Lemma ttl_depends_on_membership_witness :
  determineToolBasedCacheTTL
    ["get_restaurant_details"; "semantic_search_restaurants"]
  = determineToolBasedCacheTTL
      ["semantic_search_restaurants"; "get_restaurant_details";
       "semantic_search_restaurants"].
Proof.
  apply ttl_depends_on_membership. intros t. cbn. tauto.
Defined.

Lemma ttl_values (toolsUsed : list string) :
  In (determineToolBasedCacheTTL toolsUsed)
    [0; 604800000; 86400000; 21600000; 43200000]%Z.
Proof.
  unfold determineToolBasedCacheTTL.
  repeat match goal with
    | |- context [if ?c then _ else _] => destruct c
    end; cbn; tauto.
Qed.

(** X2.  The text that the cache write logs for a TTL.  From 12 hours on the
    text counts days, at least one; below, it counts hours, at most 12.
    So the five TTLs of the policy are logged as No cache, 7 days, 1 day,
    6 hours and, for the default of 12 hours, again 1 day. *)
Theorem formatTTL_counts_days_from_half_a_day :
  (forall ms : Z,
     (43200000 <= ms)%Z ->
     formatTTL ms = counted (roundedUnits ms 86400000) "day"
     /\ (1 <= roundedUnits ms 86400000)%Z)
  /\ (forall ms : Z,
        ms <> 0%Z -> (ms < 43200000)%Z ->
        formatTTL ms = counted (roundedUnits ms 3600000) "hour"
        /\ (roundedUnits ms 3600000 <= 12)%Z)
  /\ (forall toolsUsed : list string,
        let ttl := determineToolBasedCacheTTL toolsUsed in
        (ttl = 0%Z /\ formatTTL ttl = "No cache")
        \/ (ttl = 604800000%Z /\ formatTTL ttl = "7 days")
        \/ (ttl = 86400000%Z /\ formatTTL ttl = "1 day")
        \/ (ttl = 21600000%Z /\ formatTTL ttl = "6 hours")
        \/ (ttl = 43200000%Z /\ formatTTL ttl = "1 day")).
Proof.
  split; [|split].
  - intros ms Hms. unfold formatTTL.
    destruct (Z.eqb_spec ms 0) as [->|_]; [lia|].
    assert (Hdays : (1 <= roundedUnits ms 86400000)%Z).
    { unfold roundedUnits. apply Z.div_le_lower_bound; lia. }
    change (24 * 60 * 60 * 1000)%Z with 86400000%Z.
    destruct (Z.leb_spec 1 (roundedUnits ms 86400000)); [now split | lia].
  - intros ms Hnz Hms. unfold formatTTL.
    destruct (Z.eqb_spec ms 0) as [->|_]; [congruence|].
    change (24 * 60 * 60 * 1000)%Z with 86400000%Z.
    change (60 * 60 * 1000)%Z with 3600000%Z.
    assert (Hdays : (roundedUnits ms 86400000 < 1)%Z).
    { unfold roundedUnits. apply Z.div_lt_upper_bound; lia. }
    destruct (Z.leb_spec 1 (roundedUnits ms 86400000)); [lia|].
    split; [reflexivity|].
    unfold roundedUnits.
    assert ((2 * ms + 3600000) / (2 * 3600000) < 13)%Z; [|lia].
    apply Z.div_lt_upper_bound; lia.
  - intros toolsUsed ttl. subst ttl.
    pose proof (ttl_values toolsUsed) as Hin. cbn in Hin.
    destruct Hin as [H|[H|[H|[H|[H|[]]]]]]; rewrite <- H;
      [left | right; left | right; right; left
      | right; right; right; left | right; right; right; right];
      (split; [reflexivity | vm_compute; reflexivity]).
Qed.

(** The default of 12 hours and the 6 hours of the details. *)
Lemma formatTTL_counts_days_from_half_a_day_witness :
  formatTTL 43200000 = "1 day" /\ formatTTL 21600000 = "6 hours".
Proof.
  destruct formatTTL_counts_days_from_half_a_day as (Hdays & Hhours & _).
  split.
  - rewrite (proj1 (Hdays 43200000%Z ltac:(lia))). vm_compute. reflexivity.
  - rewrite (proj1 (Hhours 21600000%Z ltac:(lia) ltac:(lia))).
    vm_compute. reflexivity.
Defined.

End CachingProperties.

Module WorkflowProperties.
Import Effect Workflow Traces WorkflowFacts.

Lemma invokedNames_app (a b : list Event) :
  invokedNames (a ++ b) = invokedNames a ++ invokedNames b.
Proof.
  induction a as [|e a IH]; [reflexivity|].
  destruct e; cbn; rewrite ?IH; reflexivity.
Qed.

Lemma savedMessages_app (a b : list Event) :
  savedMessages (a ++ b) = savedMessages a ++ savedMessages b.
Proof.
  induction a as [|e a IH]; [reflexivity|].
  destruct e; cbn; rewrite ?IH; reflexivity.
Qed.

Lemma cacheStores_app (a b : list Event) :
  cacheStores (a ++ b) = cacheStores a ++ cacheStores b.
Proof.
  induction a as [|e a IH]; [reflexivity|].
  destruct e; cbn; rewrite ?IH; reflexivity.
Qed.

Lemma cacheStores_agent (added : list Event) :
  Forall agentEvent added -> cacheStores added = [].
Proof.
  induction 1 as [|e added He _ IH]; [reflexivity|].
  unfold agentEvent in He. destruct e; cbn in *; congruence.
Qed.

Lemma cacheStores_extends (before after : list Event) :
  extendsWith agentEvent before after ->
  cacheStores after = cacheStores before.
Proof.
  intros (added & -> & Hadded).
  rewrite cacheStores_app, (cacheStores_agent added Hadded).
  apply app_nil_r.
Qed.

Lemma savedMessages_agent (added : list Event) :
  Forall agentEvent added -> savedMessages added = [].
Proof.
  induction 1 as [|e added He _ IH]; [reflexivity|].
  unfold agentEvent in He. destruct e; cbn in *; congruence.
Qed.

Lemma registered_app (a b : list string) :
  registered (a ++ b) = registered a ++ registered b.
Proof. unfold registered. apply List.filter_app. Qed.

Lemma registered_cons (name : string) (rest : list string) :
  registered (name :: rest)
  = if Js.includes restaurantTools name then name :: registered rest
    else registered rest.
Proof. reflexivity. Qed.

Section Turn.
Context {W : World}.

(** *** The cache write *)

Lemma cacheWrite_cases (h : list Event) (state : AgentState) :
  let out := processWorkOutputWithCaching h state in
  let used := match toolsUsed state with Some l => l | None => [] end in
  (fst out = h
   /\ u_cacheStatus (snd out) = Some skip
   /\ (Js.includes used "error" = true
       \/ Caching.determineToolBasedCacheTTL used = 0%Z))
  \/ (fst out = h ++ [LangCacheSet (storeOf state)]
      /\ Js.includes used "error" = false
      /\ Caching.determineToolBasedCacheTTL used <> 0%Z
      /\ ((langCache_set h (storeOf state) = Ok tt
           /\ u_cacheStatus (snd out) = Some saved)
          \/ ((exists e, langCache_set h (storeOf state) = Raise e)
              /\ u_cacheStatus (snd out) = Some error))).
Proof.
  cbn zeta. unfold processWorkOutputWithCaching, saveToSemanticCache,
    saveResponseInSemanticCache.
  fold (storeOf state).
  destruct (toolsUsed state) as [used|] eqn:Hused.
  - destruct (Js.includes used "error") eqn:Herr.
    { left. cbn [fst snd u_cacheStatus]. auto. }
    destruct (Z.eqb_spec (Caching.determineToolBasedCacheTTL used) 0)
      as [Hz|Hnz].
    { left. cbn [fst snd u_cacheStatus]. auto. }
    right.
    destruct (langCache_set h (storeOf state)) as [[]|e] eqn:Hset;
      cbn [fst snd u_cacheStatus]; repeat split; eauto.
  - destruct (Z.eqb_spec (Caching.determineToolBasedCacheTTL []) 0)
      as [Hz|Hnz].
    { left. cbn [fst snd u_cacheStatus]. auto. }
    right.
    destruct (langCache_set h (storeOf state)) as [[]|e] eqn:Hset;
      cbn [fst snd u_cacheStatus]; repeat split; eauto.
Qed.

Lemma cacheWrite_result (h : list Event) (state : AgentState) :
  result (applyUpdate state (snd (processWorkOutputWithCaching h state)))
  = result state.
Proof.
  unfold processWorkOutputWithCaching, saveToSemanticCache,
    saveResponseInSemanticCache.
  repeat match goal with
    | |- context [if ?c then _ else _] => destruct c
    | |- context [match langCache_set ?a ?b with _ => _ end] =>
        destruct (langCache_set a b)
    end; cbn; now destruct (result state).
Qed.

Lemma cacheWrite_sessionId (h : list Event) (state : AgentState) :
  sessionId (applyUpdate state (snd (processWorkOutputWithCaching h state)))
  = sessionId state.
Proof.
  unfold processWorkOutputWithCaching, saveToSemanticCache,
    saveResponseInSemanticCache.
  repeat match goal with
    | |- context [if ?c then _ else _] => destruct c
    | |- context [match langCache_set ?a ?b with _ => _ end] =>
        destruct (langCache_set a b)
    end; reflexivity.
Qed.

(** *** The runs of the graph *)

(** A finished run either stopped at the cache check on a hit, or went
    through the agent and the cache write. *)
Lemma invokeGraph_inv (fuel : nat) (h tr : list Event) (sid : string)
    (msgs : list Message) (final : AgentState) :
  invokeGraph fuel h sid msgs = (tr, Some final) ->
  let h1 :=
    h ++ [LangCacheSearch (lookupRequest (messages (initialState sid msgs)))]
  in
  (tr = h1 /\ cacheStatus final = Some hit /\ toolsUsed final = None)
  \/ (exists (h2 : list Event) (st2 : AgentState) (used : list string),
        extendsWith agentEvent h1 h2
        /\ toolsUsed st2 = Some used
        /\ sessionId st2 = sid
        /\ tr = fst (processWorkOutputWithCaching h2 st2)
        /\ final
           = applyUpdate st2 (snd (processWorkOutputWithCaching h2 st2))).
Proof.
  intros Hrun h1. subst h1. unfold invokeGraph in Hrun.
  pose proof (queryCacheCheck_events h (initialState sid msgs)) as Hev1.
  pose proof (queryCacheCheck_sessionId h (initialState sid msgs)) as Hs1.
  destruct (queryCacheCheck h (initialState sid msgs)) as [h1 u1] eqn:Hq.
  cbn [fst snd] in Hev1, Hs1. subst h1.
  assert (Hu1 : u_toolsUsed u1 = None).
  { revert Hq. unfold queryCacheCheck.
    destruct (checkSemanticCache _ _ _) as [hq [[c|]|e]];
      try destruct (Js.truthy c); intros H; inversion H; reflexivity. }
  set (st1 := applyUpdate (initialState sid msgs) u1) in *.
  assert (Hst1 : sessionId st1 = sid) by (subst st1; cbn; now rewrite Hs1).
  destruct (afterCacheCheck st1) eqn:Hroute.
  4:{ left. inversion Hrun; subst tr final. split; [reflexivity|].
      split.
      - revert Hroute. unfold afterCacheCheck.
        destruct (cacheStatus st1) as [[]|]; try discriminate. reflexivity.
      - subst st1. cbn. now rewrite Hu1. }
  all: right;
       match type of Hrun with
       | context [restaurantDiscoveryAgent ?f ?a ?b] =>
           pose proof (restaurantDiscoveryAgent_events f a b) as Hev2
       end;
       destruct (restaurantDiscoveryAgent _ _ st1) as [h2 [u2|]] eqn:Hagent;
       [|discriminate];
       cbn [fst] in Hev2;
       destruct (restaurantDiscoveryAgent_update _ _ _ _ _ Hagent)
         as (Hs2 & _ & used2 & Hused2);
       destruct (processWorkOutputWithCaching h2 (applyUpdate st1 u2))
         as [h3 u3] eqn:Hw;
       inversion Hrun; subst tr final;
       exists h2, (applyUpdate st1 u2), used2;
       rewrite Hw; cbn [fst snd];
       repeat split; try assumption;
       [cbn; now rewrite Hused2 | cbn; rewrite Hs2; exact Hst1].
Qed.

(** X3.  A finished turn stores in the cache at most once.  It ends with the
    status hit, skip, saved or error; with hit or skip nothing was stored;
    with saved or error exactly one entry was sent to the cache, with the
    TTL of the policy for the tools of the turn, which is not 0, and with
    the result of the turn as the response. *)
Theorem at_most_one_cache_store (fuel : nat) (h tr : list Event)
    (sid : string) (msgs : list Message) (final : AgentState) :
  invokeGraph fuel h sid msgs = (tr, Some final) ->
  match cacheStatus final with
  | Some hit | Some skip => cacheStores tr = cacheStores h
  | Some saved | Some error =>
      exists p : CacheParams,
        cacheStores tr = cacheStores h ++ [p]
        /\ cp_ttlMillis p
           = Caching.determineToolBasedCacheTTL
               (match toolsUsed final with Some l => l | None => [] end)
        /\ cp_ttlMillis p <> 0%Z
        /\ cp_response p = result final
  | Some miss | None => False
  end.
Proof.
  intros Hrun.
  destruct (invokeGraph_inv _ _ _ _ _ _ Hrun)
    as [(-> & Hhit & _)|(h2 & st2 & used & Hev & Hused & _ & -> & ->)].
  - rewrite Hhit, cacheStores_app. cbn. apply app_nil_r.
  - apply cacheStores_extends in Hev.
    rewrite cacheStores_app in Hev. cbn in Hev. rewrite app_nil_r in Hev.
    rewrite cacheWrite_toolsUsed, cacheWrite_result.
    destruct (cacheWrite_cases h2 st2)
      as [(Hsame & Hstatus & _)
         |(Hone & _ & Hnz & [(_ & Hstatus)|(_ & Hstatus)])];
      cbn [cacheStatus applyUpdate]; rewrite Hstatus.
    + now rewrite Hsame.
    + exists (storeOf st2). rewrite Hone, cacheStores_app, Hev.
      repeat split; assumption.
    + exists (storeOf st2). rewrite Hone, cacheStores_app, Hev.
      repeat split; assumption.
Qed.

(** X4.  A turn whose tool list holds the error mark of a failed agent is not
    cached: it ends with the status skip and no store was sent. *)
Theorem failed_turn_is_not_cached (fuel : nat) (h tr : list Event)
    (sid : string) (msgs : list Message) (final : AgentState)
    (used : list string) :
  invokeGraph fuel h sid msgs = (tr, Some final) ->
  toolsUsed final = Some used ->
  In "error" used ->
  cacheStatus final = Some skip /\ cacheStores tr = cacheStores h.
Proof.
  intros Hrun Hused Herr.
  destruct (invokeGraph_inv _ _ _ _ _ _ Hrun)
    as [(_ & _ & Hnone)|(h2 & st2 & used2 & Hev & Hused2 & _ & -> & ->)];
    [congruence|].
  apply cacheStores_extends in Hev.
  rewrite cacheStores_app in Hev. cbn in Hev. rewrite app_nil_r in Hev.
  rewrite cacheWrite_toolsUsed, Hused2 in Hused.
  inversion Hused; subst used2.
  destruct (cacheWrite_cases h2 st2)
    as [(Hsame & Hstatus & _)|(_ & Hnoerr & _)].
  - cbn [cacheStatus applyUpdate]. rewrite Hstatus, Hsame. now split.
  - rewrite Hused2 in Hnoerr. apply JsFacts.includes_false in Hnoerr.
    contradiction.
Qed.

(** *** The tool calls of the agent *)

Lemma runToolCalls_allowed (sid : string) (calls : list ToolCall) :
  forall (h : list Event) (ls : LoopState),
    extendsWith (toolCallAllowed sid) h (fst (runToolCalls sid calls h ls)).
Proof.
  induction calls as [|c rest IH]; intros h ls; cbn [runToolCalls].
  - apply extendsWith_refl.
  - destruct (Js.includes restaurantTools (tcName c)) eqn:Hreg; [|apply IH].
    assert (Hcall : toolCallAllowed sid
              (ToolInvoke (tcName c)
                 (if Js.includes ["make_reservation"; "get_user_reservations"]
                       (tcName c)
                  then <[ "sessionId" := sid ]> (tcArgs c)
                  else tcArgs c))).
    { split; [now apply JsFacts.includes_In|].
      intros Hsession. rewrite Hsession. apply lookup_insert_eq. }
    destruct (tool_invoke h (tcName c) _) as [toolResult|e].
    + eapply extendsWith_trans; [|apply IH].
      now apply extendsWith_one.
    + now apply extendsWith_one.
Qed.

Lemma loopBody_allowed (state : AgentState) (h : list Event)
    (ls : LoopState) :
  extendsWith (toolCallAllowed (sessionId state)) h
    (stepEvents (loopBody state h ls)).
Proof.
  unfold loopBody.
  destruct (model_invoke h (currentMessages ls)) as [resp|e].
  - destruct (noToolCalls resp).
    + now apply extendsWith_one.
    + match goal with
      | |- context [runToolCalls ?a ?b ?c ?d] =>
          pose proof (runToolCalls_allowed a b c d) as Hcalls;
          destruct (runToolCalls a b c d) as [h2 [ls'|e]]
      end; cbn [stepEvents fst] in *;
        (eapply extendsWith_trans; [|exact Hcalls]);
        now apply extendsWith_one.
  - now apply extendsWith_one.
Qed.

Lemma agentLoop_allowed (fuel : nat) (state : AgentState) :
  forall (h : list Event) (ls : LoopState),
    extendsWith (toolCallAllowed (sessionId state)) h
      (fst (agentLoop fuel state h ls)).
Proof.
  induction fuel as [|fuel IH]; intros h ls; cbn [agentLoop].
  - apply extendsWith_refl.
  - pose proof (loopBody_allowed state h ls) as Hbody.
    destruct (loopBody state h ls) as [h' ls'|h' u|h' e];
      cbn [stepEvents fst] in *; try assumption.
    eapply extendsWith_trans; [exact Hbody | apply IH].
Qed.

Lemma restaurantDiscoveryAgent_allowed (fuel : nat) (h : list Event)
    (state : AgentState) :
  extendsWith (toolCallAllowed (sessionId state)) h
    (fst (restaurantDiscoveryAgent fuel h state)).
Proof.
  unfold restaurantDiscoveryAgent, agentEntry.
  match goal with
  | |- context [agentLoop ?f ?s ?a ?b] =>
      pose proof (agentLoop_allowed f s a b) as Hloop;
      destruct (agentLoop f s a b) as [h' [u|e|]]
  end; cbn [fst] in *;
    (eapply extendsWith_trans; [|exact Hloop]);
    now apply extendsWith_one.
Qed.

Lemma cacheWrite_adds_no_tool_call (sid : string) (h : list Event)
    (state : AgentState) :
  extendsWith (toolCallAllowed sid) h
    (fst (processWorkOutputWithCaching h state)).
Proof.
  destruct (cacheWrite_cases h state) as [(-> & _)|(-> & _)].
  - apply extendsWith_refl.
  - now apply extendsWith_one.
Qed.

(** X5.  Whatever the model asks for, a run of the graph for the session [sid]
    invokes tools of the registry only, and the two tools that take a
    session identifier (booking and listing) are invoked with [sid], not
    with an identifier of the model.  This holds at every point of a run,
    finished or not. *)
Theorem only_registered_tools_are_invoked (fuel : nat) (h : list Event)
    (sid : string) (msgs : list Message) :
  extendsWith (toolCallAllowed sid) h (fst (invokeGraph fuel h sid msgs)).
Proof.
  unfold invokeGraph.
  pose proof (queryCacheCheck_events h (initialState sid msgs)) as Hev1.
  pose proof (queryCacheCheck_sessionId h (initialState sid msgs)) as Hs1.
  destruct (queryCacheCheck h (initialState sid msgs)) as [h1 u1].
  cbn [fst snd] in Hev1, Hs1.
  assert (H01 : extendsWith (toolCallAllowed sid) h h1).
  { rewrite Hev1. now apply extendsWith_one. }
  set (st1 := applyUpdate (initialState sid msgs) u1).
  assert (Hst1 : sessionId st1 = sid) by (subst st1; cbn; now rewrite Hs1).
  destruct (afterCacheCheck st1); cbn [fst]; try exact H01.
  all: pose proof (restaurantDiscoveryAgent_allowed fuel h1 st1) as Hev2;
       rewrite Hst1 in Hev2;
       destruct (restaurantDiscoveryAgent fuel h1 st1) as [h2 [u2|]];
       cbn [fst] in *;
       [|eapply extendsWith_trans; eassumption];
       pose proof (cacheWrite_adds_no_tool_call sid h2 (applyUpdate st1 u2))
         as Hev3;
       destruct (processWorkOutputWithCaching h2 (applyUpdate st1 u2))
         as [h3 u3];
       cbn [fst] in *;
       eapply extendsWith_trans; [exact H01|];
       eapply extendsWith_trans; eassumption.
Qed.

(** *** The tool list of the agent *)

Lemma runToolCalls_names (sid : string) (calls : list ToolCall) :
  forall (h h' : list Event) (ls ls' : LoopState),
    runToolCalls sid calls h ls = (h', Ok ls') ->
    exists (added : list string) (more : list string),
      invokedNames h' = invokedNames h ++ added
      /\ loopToolsUsed ls' = loopToolsUsed ls ++ more
      /\ registered more = added
      /\ more = map tcName calls.
Proof.
  induction calls as [|c rest IH]; intros h h' ls ls'; cbn [runToolCalls].
  - intros H. inversion H; subst. exists [], [].
    now rewrite !app_nil_r.
  - destruct (Js.includes restaurantTools (tcName c)) eqn:Hreg.
    + destruct (tool_invoke h (tcName c) _) as [toolResult|e];
        [|discriminate].
      intros H. apply IH in H.
      destruct H as (added & more & Hnames & Hused & Hmore & Hcalls).
      cbn [loopToolsUsed] in Hused.
      exists (tcName c :: added), (tcName c :: more).
      rewrite Hnames, invokedNames_app, Hused, registered_cons, Hreg.
      cbn [invokedNames app]. rewrite <- !app_assoc. cbn [app map].
      rewrite Hmore, Hcalls. repeat split; reflexivity.
    + intros H. apply IH in H.
      destruct H as (added & more & Hnames & Hused & Hmore & Hcalls).
      cbn [loopToolsUsed] in Hused.
      exists added, (tcName c :: more).
      rewrite Hnames, Hused, registered_cons, Hreg.
      rewrite <- !app_assoc. cbn [app map].
      rewrite Hmore, Hcalls. repeat split; reflexivity.
Qed.

Lemma loopBody_names (state : AgentState) (h : list Event) (ls : LoopState) :
  match loopBody state h ls with
  | Continue h' ls' =>
      exists more : list string,
        more <> []
        /\ loopToolsUsed ls' = loopToolsUsed ls ++ more
        /\ invokedNames h' = invokedNames h ++ registered more
  | Exit h' u =>
      invokedNames h' = invokedNames h
      /\ u_toolsUsed u
         = Some (match loopToolsUsed ls with
                 | [] => ["none"]
                 | _ :: _ => loopToolsUsed ls
                 end)
  | Fail _ _ => True
  end.
Proof.
  unfold loopBody.
  destruct (model_invoke h (currentMessages ls)) as [resp|e]; [|exact I].
  destruct (noToolCalls resp) eqn:Hno.
  - rewrite invokedNames_app. cbn. now rewrite app_nil_r.
  - destruct (runToolCalls _ _ _ _) as [h2 [ls'|e]] eqn:Hcalls; [|exact I].
    apply runToolCalls_names in Hcalls.
    destruct Hcalls as (added & more & Hnames & Hused & Hmore & Hcalls).
    exists more. rewrite Hnames, invokedNames_app, Hmore. cbn.
    rewrite app_nil_r. cbn [loopToolsUsed] in Hused.
    repeat split; try assumption.
    subst more. unfold noToolCalls, pendingToolCalls in *.
    destruct (tool_calls resp) as [[|c rest]|]; discriminate.
Qed.

Lemma agentLoop_names (fuel : nat) (state : AgentState) :
  forall (h h' : list Event) (ls : LoopState) (u : Update),
    agentLoop fuel state h ls = (h', Returned u) ->
    exists (used more : list string),
      u_toolsUsed u = Some used
      /\ used <> []
      /\ invokedNames h' = invokedNames h ++ registered more
      /\ registered used = registered (loopToolsUsed ls ++ more).
Proof.
  induction fuel as [|fuel IH]; intros h h' ls u; cbn [agentLoop].
  - discriminate.
  - pose proof (loopBody_names state h ls) as Hbody.
    destruct (loopBody state h ls) as [h1 ls1|h1 u1|h1 e]; [| |discriminate].
    + destruct Hbody as (more1 & _ & Hused1 & Hnames1).
      intros H. apply IH in H.
      destruct H as (used & more & Hu & Hne & Hnames & Hreg).
      exists used, (more1 ++ more).
      rewrite Hnames, Hnames1, Hreg, Hused1.
      rewrite !registered_app, <- !app_assoc. repeat split; assumption.
    + destruct Hbody as (Hnames & Hu). intros H. inversion H; subst h' u.
      eexists. exists []. split; [exact Hu|].
      rewrite Hnames, !app_nil_r.
      destruct (loopToolsUsed ls); repeat split; discriminate || reflexivity.
Qed.

(** X6.  When the agent returns an answer, its tool list is not empty, and the
    names of the list that the registry holds are, in the same order and
    with the same repetitions, the tools that it invoked: a name of the
    list is either a tool that ran or a name that the registry does not
    know. *)
Theorem tool_list_is_what_ran (fuel : nat) (h h' : list Event)
    (state : AgentState) (u : Update) :
  agentLoop fuel state (fst (agentEntry h state)) (snd (agentEntry h state))
  = (h', Returned u) ->
  exists used : list string,
    u_toolsUsed u = Some used
    /\ used <> []
    /\ invokedNames h' = invokedNames h ++ registered used.
Proof.
  intros Hloop. apply agentLoop_names in Hloop.
  destruct Hloop as (used & more & Hu & Hne & Hnames & Hreg).
  exists used. split; [exact Hu|]. split; [exact Hne|].
  rewrite Hnames, Hreg. cbn [agentEntry fst snd loopToolsUsed].
  rewrite invokedNames_app. cbn. now rewrite app_nil_r.
Qed.

End Turn.

Lemma tool_list_is_what_ran_witness :
  exists (h' : list Event) (u : Update),
    @agentLoop Worlds.reservationWorld 2 (Worlds.turn "ashwin" "Book it")
      (fst (@agentEntry Worlds.reservationWorld []
              (Worlds.turn "ashwin" "Book it")))
      (snd (@agentEntry Worlds.reservationWorld []
              (Worlds.turn "ashwin" "Book it")))
    = (h', Returned u)
    /\ u_toolsUsed u = Some ["make_reservation"]
    /\ invokedNames h' = ["make_reservation"].
Proof.
  eexists. eexists. split; [vm_compute; reflexivity|].
  split; [reflexivity|].
  destruct (@tool_list_is_what_ran Worlds.reservationWorld 2 [] _
              (Worlds.turn "ashwin" "Book it") _
              ltac:(vm_compute; reflexivity))
    as (used & Hu & _ & Hnames).
  cbn in Hu. inversion Hu; subst used. exact Hnames.
Defined.

Lemma at_most_one_cache_store_witness :
  exists (tr : list Event) (final : AgentState) (p : CacheParams),
    @invokeGraph oneToolWorld 2 [] "ashwin"
      [HumanMessage "What is authentic Italian cuisine?"]
    = (tr, Some final)
    /\ cacheStatus final = Some saved
    /\ cacheStores tr = [p]
    /\ cp_ttlMillis p = 604800000%Z.
Proof.
  eexists. eexists.
  pose proof (@at_most_one_cache_store oneToolWorld 2 [] _ "ashwin"
                [HumanMessage "What is authentic Italian cuisine?"] _
                ltac:(vm_compute; reflexivity)) as Hstore.
  cbn in Hstore. destruct Hstore as (p & Hp & Httl & _).
  exists p. split; [vm_compute; reflexivity|].
  split; [reflexivity|]. split; [exact Hp | exact Httl].
Defined.

Lemma failed_turn_is_not_cached_witness :
  exists (tr : list Event) (final : AgentState),
    @invokeGraph Worlds.unreachableWorld 1 [] "ashwin"
      [HumanMessage "Any good ramen?"] = (tr, Some final)
    /\ toolsUsed final = Some ["error"]
    /\ cacheStatus final = Some skip
    /\ cacheStores tr = [].
Proof.
  eexists. eexists. split; [vm_compute; reflexivity|].
  split; [reflexivity|].
  apply (@failed_turn_is_not_cached Worlds.unreachableWorld 1 [] _ "ashwin"
           [HumanMessage "Any good ramen?"] _ ["error"]).
  - vm_compute; reflexivity.
  - reflexivity.
  - left. reflexivity.
Defined.

End WorkflowProperties.

Module TurnProperties.
Import Effect Workflow Traces WorkflowFacts WorkflowProperties.

Lemma savedMessages_graph (added : list Event) :
  Forall graphEvent added -> savedMessages added = [].
Proof.
  induction 1 as [|e added He _ IH]; [reflexivity|].
  destruct e; cbn in *; try contradiction; assumption.
Qed.

Lemma agentEvent_graphEvent (e : Event) : agentEvent e -> graphEvent e.
Proof. unfold agentEvent. destruct e; cbn; congruence || tauto. Qed.

Section Turns.
Context {W : World}.

Lemma invokeGraph_graphEvents (fuel : nat) (h : list Event) (sid : string)
    (msgs : list Message) :
  extendsWith graphEvent h (fst (invokeGraph fuel h sid msgs)).
Proof.
  unfold invokeGraph.
  pose proof (queryCacheCheck_events h (initialState sid msgs)) as Hev1.
  destruct (queryCacheCheck h (initialState sid msgs)) as [h1 u1].
  cbn [fst] in Hev1.
  assert (H01 : extendsWith graphEvent h h1).
  { rewrite Hev1. now apply extendsWith_one. }
  set (st1 := applyUpdate (initialState sid msgs) u1).
  destruct (afterCacheCheck st1); cbn [fst]; try exact H01.
  all: pose proof (restaurantDiscoveryAgent_events fuel h1 st1) as Hev2;
       apply (extendsWith_weaken _ _ _ _ agentEvent_graphEvent) in Hev2;
       destruct (restaurantDiscoveryAgent fuel h1 st1) as [h2 [u2|]];
       cbn [fst] in *;
       [|eapply extendsWith_trans; eassumption];
       assert (Hev3 : extendsWith graphEvent h2
                 (fst (processWorkOutputWithCaching h2
                         (applyUpdate st1 u2))))
         by (destruct (cacheWrite_cases h2 (applyUpdate st1 u2))
               as [(-> & _)|(-> & _)];
             [apply extendsWith_refl | now apply extendsWith_one]);
       destruct (processWorkOutputWithCaching h2 (applyUpdate st1 u2))
         as [h3 u3];
       cbn [fst] in *;
       eapply extendsWith_trans; [exact H01|];
       eapply extendsWith_trans; eassumption.
Qed.

(** X7.  The transcript of a turn is written after the run of the graph and
    in order: the events of a turn are the read of the history, the run,
    and then at most two writes, the message of the user first and the
    reply second.  A turn that answers with anything but the fallback
    apology has written both, and the reply written is the one
    returned. *)
Theorem transcript_is_written_after_the_run (fuel : nat) (h : list Event)
    (sid chatId message : string) :
  exists (run : list Event) (saved : list ChatMessage),
    fst (runRestaurantAgentWorkflow fuel h sid chatId message)
    = h ++ GetOrCreateChatHistory sid chatId :: run
        ++ map (SaveChatMessage sid chatId) saved
    /\ Forall graphEvent run
    /\ (saved = [] \/ saved = [userEntry message]
        \/ exists reply, saved = [userEntry message; assistantEntry reply])
    /\ (forall reply : QueryResult,
          snd (runRestaurantAgentWorkflow fuel h sid chatId message)
          = Some reply ->
          reply <> fallbackResult ->
          saved = [userEntry message; assistantEntry (qr_content reply)]).
Proof.
  unfold runRestaurantAgentWorkflow.
  destruct (chatRepository_getOrCreateChatHistory h sid chatId)
    as [rawHistory|e].
  2:{ exists [], []. cbn. repeat split; auto. congruence. }
  match goal with
  | |- context [invokeGraph ?f ?a ?b ?c] =>
      pose proof (invokeGraph_graphEvents f a b c) as Hev;
      destruct (invokeGraph f a b c) as [h2 [final|]]
  end; cbn [fst] in Hev; destruct Hev as (run & -> & Hrun).
  2:{ exists run, []. cbn [fst snd map]. rewrite app_nil_r, <- app_assoc.
      repeat split; auto. discriminate. }
  fold (userEntry message).
  destruct (chatRepository_saveChatMessage _ sid chatId (userEntry message))
    as [[]|e].
  2:{ exists run, [userEntry message]. cbn [fst snd map].
      rewrite <- !app_assoc. repeat split; auto. congruence. }
  match goal with
  | |- context [{| role := "assistant"; cm_content := ?r |}] =>
      fold (assistantEntry r); set (reply := r)
  end.
  destruct (chatRepository_saveChatMessage _ sid chatId (assistantEntry reply))
    as [[]|e];
    exists run, [userEntry message; assistantEntry reply]; cbn [fst snd map];
    rewrite <- !app_assoc; cbn [app]; repeat split; eauto.
  - intros qr Hqr _. inversion Hqr; subst qr. reflexivity.
  - intros qr Hqr Hne. inversion Hqr; subst qr. contradiction.
Qed.

(** X8.  A reply marked as cached was answered by the cache alone: in such a
    turn the model was not called, no tool was invoked and nothing was
    stored in the cache, and both messages of the turn went to the
    transcript. *)
Theorem cached_reply_made_no_model_call (fuel : nat) (h tr : list Event)
    (sid chatId message : string) (reply : QueryResult) :
  runRestaurantAgentWorkflow fuel h sid chatId message = (tr, Some reply) ->
  isCachedResponse reply = true ->
  modelInvocations tr = modelInvocations h
  /\ invokedNames tr = invokedNames h
  /\ cacheStores tr = cacheStores h
  /\ savedMessages tr
     = savedMessages h
       ++ [userEntry message; assistantEntry (qr_content reply)].
Proof.
  unfold runRestaurantAgentWorkflow.
  destruct (chatRepository_getOrCreateChatHistory h sid chatId)
    as [rawHistory|e].
  2:{ intros H. inversion H; subst. discriminate. }
  destruct (invokeGraph _ _ _ _) as [h2 [final|]] eqn:Hgraph;
    [|discriminate].
  fold (userEntry message).
  destruct (chatRepository_saveChatMessage _ sid chatId (userEntry message))
    as [[]|e].
  2:{ intros H. inversion H; subst. discriminate. }
  match goal with
  | |- context [{| role := "assistant"; cm_content := ?r |}] =>
      fold (assistantEntry r)
  end.
  destruct (chatRepository_saveChatMessage _ sid chatId (assistantEntry _))
    as [[]|e].
  2:{ intros H. inversion H; subst. discriminate. }
  intros H Hflag. inversion H; subst tr reply. clear H.
  cbn [isCachedResponse qr_content] in *.
  destruct (invokeGraph_inv _ _ _ _ _ _ Hgraph)
    as [(-> & Hhit & _)|(h3 & st2 & used & _ & _ & _ & _ & ->)].
  - unfold modelInvocations.
    rewrite !List.filter_app, !invokedNames_app, !cacheStores_app,
      !savedMessages_app.
    cbn. rewrite !app_nil_r. repeat split; try reflexivity.
    now rewrite <- app_assoc.
  - exfalso.
    destruct (cacheWrite_cases h3 st2)
      as [(_ & Hstatus & _)|(_ & _ & _ & [(_ & Hstatus)|(_ & Hstatus)])];
      cbn [cacheStatus applyUpdate] in Hflag; rewrite Hstatus in Hflag;
      discriminate.
Qed.

End Turns.

Lemma cached_reply_made_no_model_call_witness :
  exists tr : list Event,
    @runRestaurantAgentWorkflow Worlds.hitWorld 0 [] "ashwin" "default"
      "Show me Italian restaurants"
    = (tr, Some {| isCachedResponse := true;
                   qr_content := Some "Try Tonino." |})
    /\ modelInvocations tr = 0%nat
    /\ savedMessages tr
       = [userEntry "Show me Italian restaurants";
          assistantEntry (Some "Try Tonino.")].
Proof.
  eexists. split; [vm_compute; reflexivity|].
  destruct (@cached_reply_made_no_model_call Worlds.hitWorld 0 [] _ "ashwin"
              "default" "Show me Italian restaurants" _
              ltac:(vm_compute; reflexivity) eq_refl)
    as (Hmodel & _ & _ & Hsaved).
  split; [exact Hmodel | exact Hsaved].
Defined.

(** The request of the lookup in a run of [Worlds.hitWorld]. *)
Lemma turn_lookup_request_witness :
  exists rest : list Event,
    fst (@invokeGraph Worlds.hitWorld 0 [] "ashwin"
           (map toMessage [userEntry "Hello"; assistantEntry (Some "Hi!")]
            ++ [HumanMessage "Show me Italian restaurants"]))
    = [] ++ LangCacheSearch
              {| sp_prompt := "Show me Italian restaurants";
                 sp_searchStrategies := [Exact; Semantic];
                 sp_attributes := None |} :: rest.
Proof.
  apply (@turn_lookup_request Worlds.hitWorld 0 [] "ashwin"
           [userEntry "Hello"; assistantEntry (Some "Hi!")]
           "Show me Italian restaurants").
  intros msgs. reflexivity.
Defined.

(** The transcript of a turn that the cache answered. *)
Lemma transcript_is_written_after_the_run_witness :
  exists (run : list Event) (saved : list ChatMessage),
    fst (@runRestaurantAgentWorkflow Worlds.hitWorld 0 [] "ashwin" "default"
           "Show me Italian restaurants")
    = [] ++ GetOrCreateChatHistory "ashwin" "default" :: run
         ++ map (SaveChatMessage "ashwin" "default") saved
    /\ saved = [userEntry "Show me Italian restaurants";
                assistantEntry (Some "Try Tonino.")].
Proof.
  destruct (@transcript_is_written_after_the_run Worlds.hitWorld 0 []
              "ashwin" "default" "Show me Italian restaurants")
    as (run & saved & Hevents & _ & _ & Hreply).
  exists run, saved. split; [exact Hevents|].
  apply (Hreply {| isCachedResponse := true;
                   qr_content := Some "Try Tonino." |}).
  - vm_compute. reflexivity.
  - discriminate.
Defined.

End TurnProperties.

Module SearchProperties.
Import Effect JsNum Runtime Search SearchApi SearchFacts.

(** *** Counts *)

Lemma asCount_inv (x : Num) (n : nat) :
  asCount x = Some n ->
  exists q : Q, x = Fin q /\ (Qnum q = Z.of_nat n * Zpos (Qden q))%Z.
Proof.
  destruct x as [| | |q]; try discriminate. intros H.
  apply asCount_whole in H. exists q. split; [reflexivity|].
  unfold Qeq in H. cbn in H. lia.
Qed.

Lemma Qcompare_whole (q : Q) (k c : Z) :
  (Qnum q = k * Zpos (Qden q))%Z ->
  Qcompare q (inject_Z c) = Z.compare k c.
Proof.
  intros Hq. unfold Qcompare. cbn. rewrite Hq, Z.mul_1_r.
  destruct (Z.compare_spec k c) as [->|Hlt|Hgt].
  - apply Z.compare_refl.
  - apply Z.compare_lt_iff. nia.
  - apply Z.compare_gt_iff. nia.
Qed.

Lemma asCount_ofZ (n : nat) : asCount (ofZ (Z.of_nat n)) = Some n.
Proof.
  unfold asCount, ofZ.
  pose proof (Qred_correct (inject_Z (Z.of_nat n))) as Heq.
  pose proof (gcd_Qred (inject_Z (Z.of_nat n))) as Hgcd.
  destruct (Qred (inject_Z (Z.of_nat n))) as [num den].
  unfold Qeq in Heq. cbn in *. rewrite Z.mul_1_r in Heq. subst num.
  rewrite Z.mul_comm, Z.gcd_comm, Z.gcd_mul_diag_l in Hgcd by lia.
  replace den with 1%positive by lia. cbn.
  destruct (Z.leb_spec 0 (Z.of_nat n * 1)); [|lia]. cbn.
  f_equal. lia.
Qed.

Lemma asCount_unique (q : Q) (n m : nat) :
  (Qnum q = Z.of_nat n * Zpos (Qden q))%Z ->
  asCount (Fin q) = Some m -> m = n.
Proof.
  intros Hq Hm. apply asCount_inv in Hm.
  destruct Hm as (q' & Heq & Hq'). inversion Heq; subst q'. nia.
Qed.

(** A limit clamped between 1 and 50. *)
Lemma clamped_limit_bounds (x : Num) (m : nat) :
  asCount (min (max x (ofZ 1)) (ofZ 50)) = Some m ->
  (1 <= m <= 50)%nat
  /\ (forall n : nat, asCount x = Some n -> (1 <= n)%nat -> (m <= n)%nat).
Proof.
  intros Hm. split.
  { split; [now apply (clamped_limit_positive x)|].
    revert Hm. destruct x as [| | |q]; try discriminate.
    - vm_compute. intros H. inversion H. lia.
    - vm_compute. intros H. inversion H. lia.
    - unfold max, min, ofZ. cbn [compare].
      destruct (Qcompare q (inject_Z 1)) eqn:Hq1; cbn [compare];
        [| vm_compute; intros H; inversion H; lia |];
        (destruct (Qcompare q (inject_Z 50)) eqn:Hq50;
         [| | vm_compute; intros H; inversion H; lia]);
        intros H; apply asCount_inv in H;
        destruct H as (q' & Heq & Hq'); inversion Heq; subst q';
        rewrite (Qcompare_whole q _ 50 Hq') in Hq50;
        destruct (Z.compare_spec (Z.of_nat m) 50); try discriminate; lia. }
  intros n Hn Hpos. apply asCount_inv in Hn.
  destruct Hn as (q & -> & Hq). revert Hm.
  unfold max, min, ofZ. cbn [compare].
  rewrite (Qcompare_whole q _ 1 Hq).
  destruct (Z.compare_spec (Z.of_nat n) 1) as [Hn1|Hn1|Hn1];
    cbn [compare]; try lia.
  - rewrite (Qcompare_whole q _ 50 Hq).
    destruct (Z.compare_spec (Z.of_nat n) 50); try lia.
    intros Hm. apply (asCount_unique q n m Hq) in Hm. lia.
  - rewrite (Qcompare_whole q _ 50 Hq).
    destruct (Z.compare_spec (Z.of_nat n) 50) as [H50|H50|H50].
    + intros Hm. apply (asCount_unique q n m Hq) in Hm. lia.
    + intros Hm. apply (asCount_unique q n m Hq) in Hm. lia.
    + vm_compute. intros H. inversion H. lia.
Qed.

Lemma asCount_double (x : Num) (n m : nat) :
  asCount x = Some n -> asCount (mul x (ofZ 2)) = Some m -> m = (2 * n)%nat.
Proof.
  intros Hn Hm. apply asCount_inv in Hn. destruct Hn as (q & -> & Hq).
  cbn [mul ofZ] in Hm. apply asCount_inv in Hm.
  destruct Hm as (q' & Heq & Hq'). inversion Heq; subst q'. clear Heq.
  destruct q as [num den]. cbn in *. nia.
Qed.

Lemma slice0_count {A : Type} (arr : list A) (stop : Num) (n : nat) :
  asCount stop = Some n -> slice0 arr stop = firstn n arr.
Proof.
  intros Hn. apply asCount_inv in Hn. destruct Hn as (q & -> & Hq).
  unfold slice0, truncate. rewrite Hq, Z.quot_mul by discriminate.
  destruct (Z.leb_spec 0 (Z.of_nat n)); [|lia].
  now rewrite Nat2Z.id.
Qed.



(** *** Sorting *)

Lemma insertSorted_perm {A : Type} (compare : A -> A -> comparison) (x : A)
    (sorted : list A) :
  Permutation (insertSorted compare x sorted) (x :: sorted).
Proof.
  induction sorted as [|y rest IH]; cbn; [reflexivity|].
  destruct (compare x y); try reflexivity.
  rewrite IH. apply perm_swap.
Qed.

Lemma sortWith_perm {A : Type} (compare : A -> A -> comparison)
    (arr : list A) :
  Permutation (sortWith compare arr) arr.
Proof.
  induction arr as [|x rest IH]; [reflexivity|].
  unfold sortWith in *. cbn. rewrite insertSorted_perm. now constructor.
Qed.

Lemma insertSorted_sorted {A : Type} (compare : A -> A -> comparison) :
  (forall a b, compare a b = Gt -> compare b a <> Gt) ->
  forall (x : A) (sorted : list A),
    Sorted (inOrder compare) sorted ->
    Sorted (inOrder compare) (insertSorted compare x sorted).
Proof.
  intros Hanti x sorted Hsorted.
  induction Hsorted as [|y rest Hrest IH Hhd]; cbn.
  - repeat constructor.
  - destruct (compare x y) eqn:Hxy.
    + constructor; [now constructor|]. constructor. unfold inOrder.
      congruence.
    + constructor; [now constructor|]. constructor. unfold inOrder.
      congruence.
    + constructor; [exact IH|].
      destruct rest as [|z rest']; cbn.
      * constructor. now apply Hanti.
      * destruct (compare x z); constructor;
          solve [now apply Hanti | now inversion Hhd].
Qed.

Lemma sortWith_sorted {A : Type} (compare : A -> A -> comparison)
    (arr : list A) :
  (forall a b, compare a b = Gt -> compare b a <> Gt) ->
  Sorted (inOrder compare) (sortWith compare arr).
Proof.
  intros Hanti. induction arr as [|x rest IH]; [constructor|].
  unfold sortWith in *. cbn. now apply insertSorted_sorted.
Qed.

Lemma compare_flip (a b : Num) (c : comparison) :
  JsNum.compare a b = Some c -> JsNum.compare b a = Some (CompOpp c).
Proof.
  destruct a as [| | |x], b as [| | |y]; cbn; intros H; inversion H;
    try reflexivity.
  now rewrite (Qcompare_antisym x y).
Qed.

Lemma compare_flip_none (a b : Num) :
  JsNum.compare a b = None -> JsNum.compare b a = None.
Proof. destruct a, b; cbn; congruence. Qed.

Lemma signOfDifference_flip (a b : Num) :
  signOfDifference a b = Gt -> signOfDifference b a <> Gt.
Proof.
  unfold signOfDifference.
  destruct (JsNum.compare a b) as [c|] eqn:Hc; [|discriminate].
  intros ->. now rewrite (compare_flip a b Gt Hc).
Qed.

Lemma strictNe_sym (a b : Num) : strictNe a b = strictNe b a.
Proof.
  unfold strictNe.
  destruct (JsNum.compare a b) as [c|] eqn:Hc.
  - rewrite (compare_flip a b c Hc). now destruct c.
  - now rewrite (compare_flip_none a b Hc).
Qed.

Lemma popularOrder_flip (a b : Restaurant) :
  popularOrder a b = Gt -> popularOrder b a <> Gt.
Proof.
  unfold popularOrder. rewrite (strictNe_sym (rrating a) (rrating b)).
  destruct (strictNe (rrating b) (rrating a)); apply signOfDifference_flip.
Qed.

Lemma popularOrder_ratings (a b : Restaurant) :
  inOrder popularOrder a b -> lt (rrating a) (rrating b) = false.
Proof.
  unfold inOrder, popularOrder, lt, strictNe, signOfDifference.
  destruct (JsNum.compare (rrating a) (rrating b)) as [c|] eqn:Hc;
    [|reflexivity].
  rewrite (compare_flip _ _ c Hc). destruct c; cbn; congruence.
Qed.

Lemma not_lt_trans (a b c : Num) :
  b <> NaN -> lt a b = false -> lt b c = false -> lt a c = false.
Proof.
  unfold lt.
  destruct a as [| | |x], b as [| | |y], c as [| | |z]; cbn;
    try congruence.
  intros _.
  destruct (Qcompare_spec x y) as [Hxy|Hxy|Hxy]; try discriminate;
    destruct (Qcompare_spec y z) as [Hyz|Hyz|Hyz]; try discriminate;
    destruct (Qcompare_spec x z) as [Hxz|Hxz|Hxz]; try reflexivity;
    intros _ _; exfalso.
  - rewrite Hxy, Hyz in Hxz. now apply Qlt_irrefl in Hxz.
  - rewrite Hxy in Hxz. apply (Qlt_irrefl y). now apply Qlt_trans with z.
  - rewrite <- Hyz in Hxz. apply (Qlt_irrefl y). now apply Qlt_trans with x.
  - apply (Qlt_irrefl y). apply Qlt_trans with x; [assumption|].
    now apply Qlt_trans with z.
Qed.

Lemma sorted_ratings (l : list Restaurant) :
  Sorted (inOrder popularOrder) l ->
  Forall (fun r => rrating r <> NaN) l ->
  ratingsNeverRise l.
Proof.
  intros Hsorted Hrated.
  assert (Hstrong :
            StronglySorted (fun a b => lt (rrating a) (rrating b) = false) l).
  { induction Hsorted as [|x rest Hrest IH Hhd]; [constructor|].
    inversion Hrated as [|? ? Hx Hrest']; subst.
    specialize (IH Hrest'). constructor; [exact IH|].
    destruct rest as [|y rest']; [constructor|].
    inversion Hhd as [|? ? Hxy]; subst.
    apply popularOrder_ratings in Hxy.
    inversion IH as [|? ? _ Hy]; subst.
    inversion Hrest' as [|? ? Hynan _]; subst.
    constructor; [exact Hxy|].
    eapply Forall_impl; [exact Hy|]. cbn. intros z Hyz.
    now apply (not_lt_trans _ (rrating y)). }
  clear Hsorted Hrated.
  induction Hstrong as [|x rest Hrest IH Hall].
  - intros i j a b _ Ha. now rewrite lookup_nil in Ha.
  - intros [|i] [|j] a b Hij Ha Hb; cbn in *; try lia.
    + inversion Ha; subst a.
      exact (proj1 (Forall_lookup _ _) Hall j b Hb).
    + apply (IH i j); [lia|exact Ha|exact Hb].
Qed.

Section Service.
Context {R : JsRuntime} {I : SearchIndex} {E : Embedder}.

Lemma ft_search_inv (q : FtQuery) (size : Num) (docs : list Restaurant) :
  ft_search q size = Ok docs ->
  exists (n : nat) (all : list Restaurant),
    asCount size = Some n /\ ftMatches q = Ok all /\ docs = firstn n all.
Proof.
  unfold ft_search. destruct (asCount size) as [n|]; [|discriminate].
  destruct (ftMatches q) as [all|e]; cbn; [|discriminate].
  intros H. inversion H. eauto.
Qed.

Lemma ft_search_length (q : FtQuery) (size : Num) (docs : list Restaurant)
    (n : nat) :
  ft_search q size = Ok docs -> asCount size = Some n ->
  (length docs <= n)%nat.
Proof.
  intros Hsearch Hn. apply ft_search_inv in Hsearch.
  destruct Hsearch as (k & all & Hk & _ & ->).
  rewrite length_take. assert (k = n) by congruence. lia.
Qed.

Lemma getPopularRestaurants_inv (o : Options) (listing : list Restaurant) :
  getPopularRestaurants o = Ok listing ->
  exists (k : nat) (all : list Restaurant),
    asCount (min (max (match o_limit o with Some l => l | None => ofZ 10 end)
                    (ofZ 1)) (ofZ 50)) = Some k
    /\ ftMatches
         (TextQuery "*"
            (whenText (o_cuisine o) CuisineTag ++ whenText (o_city o) CityTag
             ++ [RatingFrom (ofZ 4)]))
       = Ok all
    /\ listing = sortWith popularOrder (firstn k all).
Proof.
  unfold getPopularRestaurants, repository_searchRestaurants.
  cbn [o_limit o_cuisine o_city o_locality o_type o_maxPrice o_minRating].
  destruct (ft_search _ _) as [docs|e] eqn:Hsearch; cbn; [|discriminate].
  intros H. inversion H; subst listing. clear H.
  apply ft_search_inv in Hsearch.
  destruct Hsearch as (k & all & Hk & Hall & ->).
  exists k, all. split; [exact Hk|]. split; [exact Hall|reflexivity].
Qed.

Lemma getPopularRestaurants_length (o : Options) (listing : list Restaurant)
    (n : nat) :
  getPopularRestaurants o = Ok listing ->
  asCount (match o_limit o with Some l => l | None => ofZ 10 end) = Some n ->
  (1 <= n)%nat ->
  (length listing <= n)%nat.
Proof.
  intros Hrun Hn Hpos. apply getPopularRestaurants_inv in Hrun.
  destruct Hrun as (k & all & Hk & _ & ->).
  rewrite (Permutation_length (sortWith_perm _ _)), length_take.
  destruct (clamped_limit_bounds _ k Hk) as (_ & Hle).
  specialize (Hle n Hn Hpos). lia.
Qed.

(** X10.  The popular listing is a rearrangement of the first documents that the
    index holds for [*] with the cuisine, the city and a rating of 4 or
    more: at most 50 of them, and at most the limit asked for when that is
    a count of at least 1.  When every rating of the listing is a number,
    no restaurant of the listing is rated below one that comes after it. *)
Theorem popular_listing_is_bounded_and_ordered (o : Options)
    (listing : list Restaurant) :
  getPopularRestaurants o = Ok listing ->
  (length listing <= 50)%nat
  /\ (forall n : nat,
        asCount (match o_limit o with Some l => l | None => ofZ 10 end)
        = Some n ->
        (1 <= n)%nat -> (length listing <= n)%nat)
  /\ (Forall (fun r => rrating r <> NaN) listing -> ratingsNeverRise listing)
  /\ exists (k : nat) (all : list Restaurant),
       ftMatches
         (TextQuery "*"
            (whenText (o_cuisine o) CuisineTag ++ whenText (o_city o) CityTag
             ++ [RatingFrom (ofZ 4)]))
       = Ok all
       /\ Permutation listing (firstn k all).
Proof.
  intros Hrun. split; [|split; [|split]].
  - apply getPopularRestaurants_inv in Hrun.
    destruct Hrun as (k & all & Hk & _ & ->).
    rewrite (Permutation_length (sortWith_perm _ _)), length_take.
    destruct (clamped_limit_bounds _ k Hk) as ((_ & H50) & _). lia.
  - intros n Hn Hpos. now apply (getPopularRestaurants_length o).
  - apply getPopularRestaurants_inv in Hrun.
    destruct Hrun as (k & all & _ & _ & ->).
    apply sorted_ratings, sortWith_sorted, popularOrder_flip.
  - apply getPopularRestaurants_inv in Hrun.
    destruct Hrun as (k & all & _ & Hall & ->).
    exists k, all. split; [exact Hall|apply sortWith_perm].
Qed.


Lemma findNearbyRestaurants_inv (o : Options) (listing : list Restaurant) :
  findNearbyRestaurants o = Ok listing ->
  exists docs : list Restaurant,
    getRestaurantsByLocation (o_latitude o) (o_longitude o)
      (match o_radius o with Some r => r | None => ofZ 5 end)
      (mul (match o_limit o with Some l => l | None => ofZ 10 end) (ofZ 2))
    = Ok docs
    /\ listing
       = slice0 (List.filter (keepNearby o) docs)
           (match o_limit o with Some l => l | None => ofZ 10 end).
Proof.
  unfold findNearbyRestaurants.
  destruct (getRestaurantsByLocation _ _ _ _) as [docs|e]; cbn;
    [|discriminate].
  intros H. inversion H. eauto.
Qed.

Lemma findNearbyRestaurants_length (o : Options) (listing : list Restaurant)
    (n : nat) :
  findNearbyRestaurants o = Ok listing ->
  asCount (match o_limit o with Some l => l | None => ofZ 10 end) = Some n ->
  (length listing <= n)%nat.
Proof.
  intros Hrun Hn. apply findNearbyRestaurants_inv in Hrun.
  destruct Hrun as (docs & _ & ->).
  rewrite (slice0_count _ _ n Hn), length_take. lia.
Qed.


Lemma vectorSearchRestaurants_length (queryVector : option Vector)
    (o : Options) (docs : list Restaurant) (n : nat) :
  vectorSearchRestaurants queryVector o = Ok docs ->
  asCount (match o_limit o with Some l => l | None => ofZ 10 end) = Some n ->
  (length docs <= n)%nat.
Proof.
  unfold vectorSearchRestaurants, repository_vectorSearchRestaurants.
  destruct queryVector as [vector|]; [|discriminate].
  repeat match goal with
         | |- context [if ?b then Raise _ else _] =>
             destruct b; [discriminate|]
         end.
  apply ft_search_length.
Qed.

Lemma primarySearch_length (a : SearchArgs) (n : nat)
    (docs : list Restaurant) :
  asCount (maxResultsOf a) = Some n -> (1 <= n)%nat ->
  primarySearch a = Ok docs ->
  (length docs <= if semanticMode a then 2 * n else n)%nat.
Proof.
  intros Hn Hpos. unfold primarySearch.
  destruct (semanticMode a).
  - destruct (generateEmbedding (query a)) as [embedding|e]; cbn;
      [|discriminate].
    intros Hrun.
    assert (Hsize : exists m : nat,
               asCount (mul (maxResultsOf a) (ofZ 2)) = Some m).
    { revert Hrun. unfold vectorSearchRestaurants,
        repository_vectorSearchRestaurants.
      destruct embedding as [vector|]; [|discriminate].
      repeat match goal with
             | |- context [if ?b then Raise _ else _] =>
                 destruct b; [discriminate|]
             end.
      cbn [o_limit]. intros Hsearch. apply ft_search_inv in Hsearch.
      destruct Hsearch as (m & _ & Hm & _). eauto. }
    destruct Hsize as (m & Hm).
    pose proof (asCount_double _ n m Hn Hm) as ->.
    now apply (vectorSearchRestaurants_length _ _ _ _ Hrun).
  - destruct (locationMode a).
    + intros Hrun. now apply (findNearbyRestaurants_length _ _ n Hrun).
    + intros Hrun. now apply (getPopularRestaurants_length _ _ n Hrun).
Qed.

Lemma retryWithoutCuisine_length (a : SearchArgs) (n : nat)
    (docs : list Restaurant) :
  asCount (maxResultsOf a) = Some n -> (1 <= n)%nat ->
  retryWithoutCuisine a [] = Ok docs ->
  (length docs <= if semanticMode a then 2 * n else n)%nat.
Proof.
  intros Hn Hpos. unfold retryWithoutCuisine.
  destruct (semanticMode a) eqn:Hmode.
  - intros Hrun.
    pose proof (primarySearch_length (withoutCuisine a) n docs) as Hlen.
    change (maxResultsOf (withoutCuisine a)) with (maxResultsOf a) in Hlen.
    change (semanticMode (withoutCuisine a)) with (semanticMode a) in Hlen.
    rewrite Hmode in Hlen. apply Hlen; [exact Hn|exact Hpos|].
    unfold primarySearch.
    change (semanticMode (withoutCuisine a)) with (semanticMode a).
    rewrite Hmode. exact Hrun.
  - destruct (locationMode a).
    + intros Hrun. now apply (findNearbyRestaurants_length _ _ n Hrun).
    + intros H. inversion H. cbn. lia.
Qed.

(** X12.  Whatever the search mode, the tool returns at most twice the limit it
    was given, and at most the limit when the search is not semantic; the
    limit is a count of at least 1. *)
Theorem tool_returns_at_most_twice_the_limit (a : SearchArgs) (n : nat)
    (found : list Restaurant) :
  asCount (maxResultsOf a) = Some n -> (1 <= n)%nat ->
  restaurants (semanticSearchRestaurantsTool a) = Some found ->
  (length found <= 2 * n)%nat
  /\ (semanticMode a = false -> (length found <= n)%nat)
  /\ totalFound (semanticSearchRestaurantsTool a) = Some (length found).
Proof.
  intros Hn Hpos. unfold semanticSearchRestaurantsTool.
  destruct (searchLadder a) as [final|e] eqn:Hladder; cbn; [|discriminate].
  intros H. inversion H; subst final. clear H.
  assert (Hlen : (length found <= if semanticMode a then 2 * n else n)%nat).
  { revert Hladder. unfold searchLadder, searchWithRetry.
    destruct (primarySearch a) as [first|e] eqn:Hfirst; cbn; [|discriminate].
    pose proof (primarySearch_length a n first Hn Hpos Hfirst) as Hfirst_len.
    assert (Hfallback : forall docs,
               popularFallback a = Ok docs -> (length docs <= n)%nat).
    { intros docs Hrun. unfold popularFallback in Hrun.
      now apply (getPopularRestaurants_length _ _ n Hrun). }
    destruct first as [|r first']; cbn [isEmpty andb].
    - destruct (Js.truthyOpt (cuisine a)).
      + destruct (retryWithoutCuisine a []) as [second|e] eqn:Hsecond; cbn;
          [|discriminate].
        pose proof (retryWithoutCuisine_length a n second Hn Hpos Hsecond)
          as Hsecond_len.
        destruct second as [|r second']; cbn [isEmpty].
        * intros Hrun. apply Hfallback in Hrun.
          destruct (semanticMode a); lia.
        * intros H. inversion H; subst found. exact Hsecond_len.
      + cbn. intros Hrun. apply Hfallback in Hrun.
        destruct (semanticMode a); lia.
    - cbn. intros H. inversion H; subst found. exact Hfirst_len. }
  split; [destruct (semanticMode a); lia|].
  split; [|reflexivity].
  intros Hmode. now rewrite Hmode in Hlen.
Qed.

(** X13.  In semantic mode the tool answers with its error text whenever one
    parsed coordinate is truthy and the other is not: a coordinate that is
    missing, and also one that parses to 0. *)
Theorem semantic_search_refuses_a_zero_coordinate (a : SearchArgs) :
  semanticMode a = true ->
  JsNum.truthyOpt (parsed parseFloat (latitude a))
  <> JsNum.truthyOpt (parsed parseFloat (longitude a)) ->
  semanticSearchRestaurantsTool a
  = {| success := false; searchStrategy := None; totalFound := None;
       restaurants := None; error := Some searchError |}.
Proof.
  intros Hmode Hcoordinates.
  assert (Hraise : exists e, searchLadder a = Raise e).
  { unfold searchLadder, searchWithRetry, primarySearch. rewrite Hmode.
    destruct (generateEmbedding (query a)) as [embedding|e]; cbn;
      [|eauto].
    unfold vectorSearchRestaurants. cbn [o_latitude o_longitude].
    destruct embedding as [vector|]; cbn; [|eauto].
    destruct (JsNum.truthyOpt (parsed parseFloat (latitude a))),
      (JsNum.truthyOpt (parsed parseFloat (longitude a)));
      cbn; try congruence; eauto. }
  destruct Hraise as (e & Hraise).
  unfold semanticSearchRestaurantsTool. now rewrite Hraise.
Qed.

Lemma strictNe_count (len : nat) (l : Num) (k : nat) :
  asCount l = Some k ->
  negb (strictNe (ofZ (Z.of_nat len)) l) = true <-> len = k.
Proof.
  intros Hk. apply asCount_inv in Hk. destruct Hk as (q & -> & Hq).
  unfold strictNe, ofZ. cbn [JsNum.compare].
  rewrite <- Qcompare_antisym, (Qcompare_whole q _ _ Hq).
  destruct (Z.compare_spec (Z.of_nat k) (Z.of_nat len)); cbn;
    split; intros; try discriminate; lia.
Qed.

(** X14.  A text search that answers was run with a limit that is a count
    between 1 and 50, whatever limit was asked for; it returns at most
    that many restaurants, reports their number, and reports more to come
    exactly when it returned as many as the limit. *)
Theorem text_search_serves_between_1_and_50 (p : TextSearchParams)
    (res : TextSearchResult) :
  searchRestaurants p = Ok res ->
  exists (l : Num) (k : nat),
    o_limit (validated res) = Some l
    /\ asCount l = Some k
    /\ (1 <= k <= 50)%nat
    /\ (length (found res) <= k)%nat
    /\ totalResults res = length (found res)
    /\ (hasMore res = true <-> length (found res) = k).
Proof.
  unfold searchRestaurants, validateSearchParams.
  set (limit := match t_limit p with Some l => l | None => ofZ 10 end).
  destruct (repository_searchRestaurants _ _) as [docs|e] eqn:Hsearch;
    cbn; [|discriminate].
  intros H. inversion H; subst res. clear H. cbn.
  unfold repository_searchRestaurants in Hsearch. cbn [o_limit] in Hsearch.
  apply ft_search_inv in Hsearch.
  destruct Hsearch as (k & all & Hk & _ & ->).
  exists (validLimitOf limit), k.
  split; [reflexivity|]. split; [exact Hk|].
  split; [exact (proj1 (clamped_limit_bounds _ k Hk))|].
  split; [rewrite length_take; lia|]. split; [reflexivity|].
  now apply strictNe_count.
Qed.

End Service.

(** The popular listing of Delhi over three places rated 4.1, 4.8 and
    3.9: the two rated 4 or more, the best first. *)
Lemma popular_listing_is_bounded_and_ordered_witness :
  @getPopularRestaurants Examples.threePlaces Examples.popularInDelhi
  = Ok [Examples.rated "tonino" (Fin (24 # 5));
        Examples.rated "amici" (Fin (41 # 10))]
  /\ ratingsNeverRise [Examples.rated "tonino" (Fin (24 # 5));
                       Examples.rated "amici" (Fin (41 # 10))].
Proof.
  split; [vm_compute; reflexivity|].
  destruct (@popular_listing_is_bounded_and_ordered Examples.threePlaces
              Examples.popularInDelhi _ ltac:(vm_compute; reflexivity))
    as (_ & _ & Hsorted & _).
  apply Hsorted. repeat constructor; discriminate.
Defined.


(** [{ query: "pizza", limit: "1" }] over two places: two results, for a
    limit of 1. *)
Lemma tool_returns_at_most_twice_the_limit_witness :
  restaurants
    (@semanticSearchRestaurantsTool asciiRuntime twoPizzerias fixedEmbedder
       onePizzaPlease)
  = Some [pizzeria "tonino"; pizzeria "amici"]
  /\ (length [pizzeria "tonino"; pizzeria "amici"] <= 2 * 1)%nat.
Proof.
  split; [vm_compute; reflexivity|].
  destruct (@tool_returns_at_most_twice_the_limit asciiRuntime twoPizzerias
              fixedEmbedder onePizzaPlease 1 _
              ltac:(vm_compute; reflexivity) (le_n 1)
              ltac:(vm_compute; reflexivity))
    as (Hlen & _).
  exact Hlen.
Defined.

(** A search for sushi at latitude 0 and longitude 77.2. *)
Lemma semantic_search_refuses_a_zero_coordinate_witness :
  latitude sushiOnTheEquator = Some "0"
  /\ @semanticSearchRestaurantsTool asciiRuntime twoPizzerias fixedEmbedder
       sushiOnTheEquator
     = {| success := false; searchStrategy := None; totalFound := None;
          restaurants := None; error := Some searchError |}.
Proof.
  split; [reflexivity|].
  apply (@semantic_search_refuses_a_zero_coordinate asciiRuntime twoPizzerias
           fixedEmbedder sushiOnTheEquator).
  - vm_compute. reflexivity.
  - vm_compute. discriminate.
Defined.

(** A page of 200 is served as a page of 50. *)
Lemma text_search_serves_between_1_and_50_witness :
  exists res : TextSearchResult,
    @searchRestaurants asciiRuntime twoPizzerias Examples.widePage = Ok res
    /\ o_limit (validated res) = Some (ofZ 50)
    /\ validatedQuery res = "pizza"
    /\ (length (found res) <= 50)%nat.
Proof.
  eexists. split; [vm_compute; reflexivity|].
  split; [reflexivity|]. split; [reflexivity|].
  destruct (@text_search_serves_between_1_and_50 asciiRuntime twoPizzerias
              Examples.widePage _ ltac:(vm_compute; reflexivity))
    as (l & k & _ & _ & (_ & H50) & Hlen & _).
  exact (Nat.le_trans _ _ _ Hlen H50).
Defined.

End SearchProperties.

Module ReservationProperties.
Import Effect JsNum Runtime Reservations ReservationAdmin ReservationFacts.

Lemma insert_twice_union (m : gmap string string) (a b x y : string) :
  <[ a := x ]> (<[ b := y ]> m) ∪ m = <[ a := x ]> (<[ b := y ]> m).
Proof.
  apply map_eq. intros k. rewrite lookup_union.
  destruct (decide (k = a)) as [->|Ha].
  { rewrite lookup_insert_eq. now destruct (m !! a). }
  rewrite lookup_insert_ne by congruence.
  destruct (decide (k = b)) as [->|Hb].
  { rewrite lookup_insert_eq. now destruct (m !! b). }
  rewrite lookup_insert_ne by congruence.
  now destruct (m !! k).
Qed.

Lemma getReservationById_inv (reservationId : string) (db : Redis)
    (reservation : gmap string string) (summary : RestaurantSummary) :
  getReservationById reservationId db = Ok (reservation, summary) ->
  Js.truthy reservationId = true
  /\ reservation = hGetAll (keyPrefix +:+ reservationId) db
  /\ reservation <> ∅
  /\ exists restaurant : Restaurant,
       getRestaurantById (reservation !! "restaurantId") db = Ok restaurant
       /\ summary = summaryOf restaurant.
Proof.
  unfold getReservationById, repository_getReservationById.
  destruct (Js.truthy reservationId); [|discriminate].
  destruct (bool_decide_reflect (hGetAll (keyPrefix +:+ reservationId) db = ∅))
    as [|Hfull]; [discriminate|].
  destruct (getRestaurantById _ db) as [restaurant|e] eqn:Hrest; cbn;
    [|discriminate].
  intros H. inversion H; subst. eauto 6.
Qed.

Lemma cancelReservation_inv (rd : Readings) (reservationId : string)
    (db db' : Redis) (r : gmap string string * RestaurantSummary) :
  cancelReservation rd reservationId db = (db', Ok r) ->
  let stored := hGetAll (keyPrefix +:+ reservationId) db in
  let cancelled :=
    <[ "updatedAt" := stamp rd 0 ]> (<[ "status" := "cancelled" ]> stored) in
  getReservationById reservationId db = Ok (stored, snd r)
  /\ stored !! "status" <> Some "cancelled"
  /\ fst r = cancelled
  /\ db' = hSet (keyPrefix +:+ reservationId) cancelled db.
Proof.
  unfold cancelReservation.
  destruct (getReservationById reservationId db) as [[res summary]|e]
    eqn:Hget; [|discriminate].
  pose proof (getReservationById_inv _ _ _ _ Hget)
    as (Hid & Hres & Hfull & _).
  destruct (bool_decide_reflect (res !! "status" = Some "cancelled"))
    as [|Hstatus]; [discriminate|].
  unfold repository_updateReservationStatus, repository_getReservationById.
  rewrite <- Hres. rewrite bool_decide_eq_false_2 by exact Hfull.
  intros H. inversion H; subst. cbn. auto.
Qed.

(** X17.  A cancellation that is refused leaves the store as it was, and it is
    refused for one of five reasons: no identifier, no such reservation,
    no restaurant identifier in it, no such restaurant, or a reservation
    that is cancelled already. *)
Theorem refused_cancellation_changes_nothing (rd : Readings)
    (reservationId : string) (db db' : Redis) (e : string) :
  cancelReservation rd reservationId db = (db', Raise e) ->
  db' = db
  /\ In e ["INVALID_RESERVATION_ID"; "RESERVATION_NOT_FOUND";
           "INVALID_RESTAURANT_ID"; "RESTAURANT_NOT_FOUND";
           "ALREADY_CANCELLED"].
Proof.
  unfold cancelReservation.
  destruct (getReservationById reservationId db) as [[res summary]|e']
    eqn:Hget.
  - pose proof (getReservationById_inv _ _ _ _ Hget)
      as (Hid & Hres & Hfull & _).
    destruct (bool_decide (res !! "status" = Some "cancelled")).
    { intros H. inversion H. split; [reflexivity | cbn; auto 6]. }
    unfold repository_updateReservationStatus, repository_getReservationById.
    rewrite <- Hres. rewrite bool_decide_eq_false_2 by exact Hfull.
    discriminate.
  - intros H. injection H as Hdb He. subst db' e'. split; [reflexivity|].
    revert Hget. unfold getReservationById, repository_getReservationById.
    destruct (Js.truthy reservationId);
      [|intros H'; inversion H'; cbn; auto].
    destruct (bool_decide _); [intros H'; inversion H'; cbn; auto|].
    unfold getRestaurantById.
    destruct (hGetAll _ db !! "restaurantId") as [rid|]; cbn;
      [|intros H'; inversion H'; cbn; auto].
    destruct (Js.truthy rid); cbn; [|intros H'; inversion H'; cbn; auto].
    destruct (restaurantDocs db !! _); cbn; [discriminate|].
    intros H'; inversion H'; cbn; auto.
Qed.

(** X15.  A cancellation is accepted exactly when the reservation is stored,
    its restaurant is stored and its status is not [cancelled]: the
    session, the date and time of the reservation, the clock and a status
    of [completed] play no part. *)
Theorem cancellation_is_accepted_iff (rd : Readings) (reservationId : string)
    (db : Redis) :
  isOk (snd (cancelReservation rd reservationId db)) = true
  <-> Js.truthy reservationId = true
      /\ hGetAll (keyPrefix +:+ reservationId) db <> ∅
      /\ isOk (getRestaurantById
                 (hGetAll (keyPrefix +:+ reservationId) db !! "restaurantId")
                 db) = true
      /\ hGetAll (keyPrefix +:+ reservationId) db !! "status"
         <> Some "cancelled".
Proof.
  split.
  - destruct (cancelReservation rd reservationId db) as [db' [r|e]] eqn:Hrun;
      [|discriminate].
    intros _. apply cancelReservation_inv in Hrun.
    destruct Hrun as (Hget & Hstatus & _ & _).
    apply getReservationById_inv in Hget.
    destruct Hget as (Hid & _ & Hfull & restaurant & Hrest & _).
    rewrite Hrest. auto.
  - intros (Hid & Hfull & Hrest & Hstatus).
    unfold cancelReservation, getReservationById,
      repository_getReservationById.
    rewrite Hid. rewrite bool_decide_eq_false_2 by exact Hfull.
    destruct (getRestaurantById _ db) as [restaurant|e]; [|discriminate].
    cbn. rewrite bool_decide_eq_false_2 by exact Hstatus.
    unfold repository_updateReservationStatus, repository_getReservationById.
    now rewrite bool_decide_eq_false_2 by exact Hfull.
Qed.

(** X16.  An accepted cancellation writes the status [cancelled] and a new
    [updatedAt] in the hash of the reservation and nothing else: every
    other field of the hash, every other hash, the sets, the restaurants
    and the profiles are as before, and no [cancelledAt] is recorded. *)
Theorem cancellation_changes_two_fields (rd : Readings)
    (reservationId : string) (db db' : Redis)
    (r : gmap string string * RestaurantSummary) :
  cancelReservation rd reservationId db = (db', Ok r) ->
  hGetAll (keyPrefix +:+ reservationId) db'
  = <[ "updatedAt" := stamp rd 0 ]>
      (<[ "status" := "cancelled" ]>
         (hGetAll (keyPrefix +:+ reservationId) db))
  /\ fst r = hGetAll (keyPrefix +:+ reservationId) db'
  /\ (forall field : string,
        field <> "status" -> field <> "updatedAt" ->
        hGetAll (keyPrefix +:+ reservationId) db' !! field
        = hGetAll (keyPrefix +:+ reservationId) db !! field)
  /\ (forall key : string,
        key <> keyPrefix +:+ reservationId ->
        hashes db' !! key = hashes db !! key)
  /\ sets db' = sets db
  /\ restaurantDocs db' = restaurantDocs db
  /\ userProfiles db' = userProfiles db.
Proof.
  intros Hrun. apply cancelReservation_inv in Hrun. cbn zeta in Hrun.
  destruct Hrun as (_ & _ & Hr & ->).
  assert (Hstored :
            hGetAll (keyPrefix +:+ reservationId)
              (hSet (keyPrefix +:+ reservationId)
                 (<[ "updatedAt" := stamp rd 0 ]>
                    (<[ "status" := "cancelled" ]>
                       (hGetAll (keyPrefix +:+ reservationId) db))) db)
            = <[ "updatedAt" := stamp rd 0 ]>
                (<[ "status" := "cancelled" ]>
                   (hGetAll (keyPrefix +:+ reservationId) db))).
  { rewrite hGetAll_hSet. apply insert_twice_union. }
  split; [exact Hstored|]. split; [now rewrite Hstored|].
  split.
  { intros field Hstatus Hupdated. rewrite Hstored.
    now rewrite !lookup_insert_ne by congruence. }
  split.
  { intros key Hkey. unfold hSet. cbn.
    now rewrite lookup_insert_ne by congruence. }
  repeat split.
Qed.

(** X22.  A reservation that was deleted is gone: it cannot be read, it is not
    in the list of its session, and a cancellation does not find it.  The
    other reservations, and the other members of every list, stay.  When
    there is nothing to delete the store is left as it was. *)
Theorem deleted_reservation_is_gone (rd : Readings) (reservationId : string)
    (db : Redis) :
  let db' := fst (repository_deleteReservation reservationId db) in
  (snd (repository_deleteReservation reservationId db) = false ->
   db' = db /\ repository_getReservationById reservationId db = None)
  /\ (snd (repository_deleteReservation reservationId db) = true ->
      repository_getReservationById reservationId db' = None
      /\ (reservationId
          ∉ sMembers
              (sessionPrefix
               +:+ sessionOf (hGetAll (keyPrefix +:+ reservationId) db)
               +:+ ":reservations") db')
      /\ (Js.truthy reservationId = true ->
          cancelReservation rd reservationId db'
          = (db', Raise "RESERVATION_NOT_FOUND"))
      /\ (forall other : string,
            other <> keyPrefix +:+ reservationId ->
            hashes db' !! other = hashes db !! other)
      /\ (forall key member : string,
            member <> reservationId ->
            (member ∈ sMembers key db') <-> (member ∈ sMembers key db))).
Proof.
  cbn zeta. unfold repository_deleteReservation.
  destruct (repository_getReservationById reservationId db)
    as [reservation|] eqn:Hget; cbn [fst snd].
  { split; [discriminate|]. intros _.
    assert (Hres : reservation = hGetAll (keyPrefix +:+ reservationId) db).
    { revert Hget. unfold repository_getReservationById.
      destruct (bool_decide _); [discriminate|]. congruence. }
    subst reservation.
    set (listKey := sessionPrefix
                    +:+ sessionOf (hGetAll (keyPrefix +:+ reservationId) db)
                    +:+ ":reservations").
    assert (Hgone : hashes (del (keyPrefix +:+ reservationId)
                              (sRem listKey reservationId db))
                    !! (keyPrefix +:+ reservationId) = None).
    { cbn. apply lookup_delete_eq. }
    split.
    { unfold repository_getReservationById, hGetAll. rewrite Hgone.
      now rewrite bool_decide_eq_true_2. }
    split.
    { unfold sMembers, del, sRem. cbn.
      destruct (sets db !! listKey) as [old|] eqn:Hold.
      - rewrite lookup_insert_eq, elem_of_difference, elem_of_singleton.
        tauto.
      - rewrite Hold. apply not_elem_of_empty. }
    split.
    { intros Hid. now apply cancelReservation_unknown. }
    split.
    { intros other Hother. cbn. now rewrite lookup_delete_ne by congruence. }
    intros key member Hmember. unfold sMembers, del, sRem. cbn.
    destruct (sets db !! listKey) as [old|] eqn:Hold; [|reflexivity].
    destruct (decide (key = listKey)) as [->|Hkey].
    - rewrite lookup_insert_eq, Hold, elem_of_difference, elem_of_singleton.
      tauto.
    - now rewrite lookup_insert_ne by congruence. }
  split; [|discriminate]. intros _. split; reflexivity.
Qed.


Section Service.
Context {R : JsRuntime}.

Lemma flatten_restaurantId (r : Reservation) :
  flatten r !! "restaurantId" = Some (restaurantId r).
Proof. reflexivity. Qed.

Lemma createReservation_inv (rd : Readings) (d : ReservationData)
    (db : Redis) (profile : Profile) :
  getUserProfile (d_sessionId d) db = Some profile ->
  exists reservation : Reservation,
    id reservation = generatedId rd
    /\ sessionId reservation = d_sessionId d
    /\ restaurantId reservation = d_restaurantId d
    /\ status reservation = "confirmed"
    /\ fst (createReservation rd d db)
       = sAdd (sessionPrefix +:+ d_sessionId d +:+ ":reservations")
           (generatedId rd)
           (hSet (keyPrefix +:+ generatedId rd) (flatten reservation) db)
    /\ snd (createReservation rd d db)
       = (restaurant ← getRestaurantById (Some (d_restaurantId d)) db;
          Ok (reservation, summaryOf restaurant)).
Proof.
  intros Hprofile. unfold createReservation, getUserContactDetails.
  rewrite Hprofile. unfold repository_createReservation.
  eexists. split; [|split; [|split; [|split; [|split]]]];
    [| | | |
     destruct (getRestaurantById (Some (d_restaurantId d)) _) eqn:Hrest;
     cbn [fst]; reflexivity |];
    try reflexivity.
  unfold getRestaurantById. cbn [restaurantDocs sAdd hSet].
  destruct (Js.truthy (d_restaurantId d)); [|reflexivity].
  destruct (restaurantDocs db !! _); reflexivity.
Qed.

(** X19.  A booking by a session that has a profile is written to the store
    and entered in the list of the session whether or not the call
    succeeds, and the call succeeds exactly when the restaurant is
    stored; a booking by a session with no profile fails before anything
    is written. *)
Theorem booking_is_written_before_the_restaurant_is_checked (rd : Readings)
    (d : ReservationData) (db : Redis) :
  (getUserProfile (d_sessionId d) db = None ->
   createReservation rd d db = (db, Raise "TypeError"))
  /\ (getUserProfile (d_sessionId d) db <> None ->
      storedStatus (generatedId rd) (fst (createReservation rd d db))
      = Some "confirmed"
      /\ generatedId rd
         ∈ sMembers (sessionPrefix +:+ d_sessionId d +:+ ":reservations")
             (fst (createReservation rd d db))
      /\ isOk (snd (createReservation rd d db))
         = isOk (getRestaurantById (Some (d_restaurantId d)) db)).
Proof.
  split.
  - intros Hnone. unfold createReservation, getUserContactDetails.
    now rewrite Hnone.
  - destruct (getUserProfile (d_sessionId d) db) as [profile|] eqn:Hprofile;
      [|congruence].
    intros _.
    destruct (createReservation_inv rd d db profile Hprofile)
      as (reservation & _ & _ & _ & Hstatus & Hdb & Hres).
    rewrite Hdb, Hres. split; [|split].
    + unfold storedStatus. rewrite hGetAll_sAdd, hGetAll_hSet.
      apply lookup_union_Some_l. rewrite flatten_status. now rewrite Hstatus.
    + apply sMembers_sAdd.
    + now destruct (getRestaurantById _ db).
Qed.

(** X20.  A booking that succeeds under a new identifier can be read back: the
    reservation read is the one that the call returned with every field
    as text (the number of guests too, and [null] for an e-mail or a
    request that is missing), with the summary of the same restaurant,
    and it is in the list of its session. *)
Theorem booking_can_be_read_back (rd : Readings) (d : ReservationData)
    (db db' : Redis) (reservation : Reservation)
    (summary : RestaurantSummary) :
  Js.truthy (generatedId rd) = true ->
  hashes db !! (keyPrefix +:+ generatedId rd) = None ->
  createReservation rd d db = (db', Ok (reservation, summary)) ->
  getReservationById (generatedId rd) db' = Ok (flatten reservation, summary)
  /\ id reservation = generatedId rd
  /\ status reservation = "confirmed"
  /\ generatedId rd
     ∈ sMembers (sessionPrefix +:+ d_sessionId d +:+ ":reservations") db'.
Proof.
  intros Hid Hfresh Hrun.
  destruct (getUserProfile (d_sessionId d) db) as [profile|] eqn:Hprofile.
  2:{ revert Hrun. unfold createReservation, getUserContactDetails.
      rewrite Hprofile. discriminate. }
  destruct (createReservation_inv rd d db profile Hprofile)
    as (made & Hmade & _ & Hrid & Hstatus & Hdb & Hres).
  rewrite Hrun in Hdb, Hres. cbn [fst snd] in Hdb, Hres. subst db'.
  destruct (getRestaurantById (Some (d_restaurantId d)) db)
    as [restaurant|e] eqn:Hrest; cbn in Hres; [|discriminate].
  inversion Hres; subst reservation summary. clear Hres.
  split; [|split; [exact Hmade|split; [exact Hstatus|apply sMembers_sAdd]]].
  unfold getReservationById, repository_getReservationById. rewrite Hid.
  rewrite hGetAll_sAdd, hGetAll_hSet.
  assert (Hold : hGetAll (keyPrefix +:+ generatedId rd) db = ∅).
  { unfold hGetAll. now rewrite Hfresh. }
  rewrite Hold, (right_id_L ∅ (∪)).
  rewrite (not_empty_of_lookup _ "status" (status made) (flatten_status made)).
  rewrite flatten_restaurantId, Hrid.
  assert (Hsame : getRestaurantById (Some (d_restaurantId d))
                    (sAdd (sessionPrefix +:+ d_sessionId d +:+ ":reservations")
                       (generatedId rd)
                       (hSet (keyPrefix +:+ generatedId rd) (flatten made) db))
                  = getRestaurantById (Some (d_restaurantId d)) db)
    by reflexivity.
  rewrite Hsame, Hrest. reflexivity.
Qed.

(** X21.  The reservation that a failed booking leaves behind can be neither
    read nor cancelled: both calls fail as the booking did, and it stays
    [confirmed]. *)
Theorem orphan_booking_cannot_be_cancelled (rd rd2 : Readings)
    (d : ReservationData) (db db' : Redis) (e : string) :
  Js.truthy (generatedId rd) = true ->
  createReservation rd d db = (db', Raise e) ->
  e <> "TypeError" ->
  getReservationById (generatedId rd) db' = Raise e
  /\ cancelReservation rd2 (generatedId rd) db' = (db', Raise e)
  /\ storedStatus (generatedId rd) db' = Some "confirmed".
Proof.
  intros Hid Hrun Herror.
  destruct (getUserProfile (d_sessionId d) db) as [profile|] eqn:Hprofile.
  2:{ revert Hrun. unfold createReservation, getUserContactDetails.
      rewrite Hprofile. intros H. inversion H. congruence. }
  destruct (createReservation_inv rd d db profile Hprofile)
    as (made & Hmade & _ & Hrid & Hstatus & Hdb & Hres).
  rewrite Hrun in Hdb, Hres. cbn [fst snd] in Hdb, Hres.
  destruct (getRestaurantById (Some (d_restaurantId d)) db)
    as [restaurant|e'] eqn:Hrest; cbn in Hres; [discriminate|].
  inversion Hres; subst e'. clear Hres.
  assert (Hstored : hGetAll (keyPrefix +:+ generatedId rd) db'
                    = flatten made ∪ hGetAll (keyPrefix +:+ generatedId rd) db).
  { subst db'. now rewrite hGetAll_sAdd, hGetAll_hSet. }
  assert (Hget : getReservationById (generatedId rd) db' = Raise e).
  { unfold getReservationById, repository_getReservationById. rewrite Hid.
    rewrite Hstored.
    rewrite (not_empty_of_lookup _ "status" (status made)
               (lookup_union_Some_l _ _ _ _ (flatten_status made))).
    rewrite (lookup_union_Some_l _ _ _ _ (flatten_restaurantId made)), Hrid.
    assert (Hsame : getRestaurantById (Some (d_restaurantId d)) db'
                    = getRestaurantById (Some (d_restaurantId d)) db)
      by (subst db'; reflexivity).
    now rewrite Hsame, Hrest. }
  split; [exact Hget|]. split.
  - unfold cancelReservation. now rewrite Hget.
  - unfold storedStatus. rewrite Hstored.
    apply lookup_union_Some_l. rewrite flatten_status. now rewrite Hstatus.
Qed.

End Service.

(** The cancellation of a reservation that does not exist. *)
Lemma refused_cancellation_changes_nothing_witness :
  exists db' : Redis,
    cancelReservation oneHourBefore "res_404" storeWithDinner
    = (db', Raise "RESERVATION_NOT_FOUND")
    /\ db' = storeWithDinner.
Proof.
  eexists. split; [vm_compute; reflexivity|].
  exact (proj1 (refused_cancellation_changes_nothing oneHourBefore "res_404"
                  storeWithDinner _ "RESERVATION_NOT_FOUND"
                  ltac:(vm_compute; reflexivity))).
Defined.

(** The cancellation of the dinner of ashwin keeps the number of guests
    and the list of the session. *)
Lemma cancellation_changes_two_fields_witness :
  exists (db' : Redis) (r : gmap string string * RestaurantSummary),
    cancelReservation oneHourBefore "res_1" storeWithDinner = (db', Ok r)
    /\ hGetAll (keyPrefix +:+ "res_1") db' !! "guests"
       = hGetAll (keyPrefix +:+ "res_1") storeWithDinner !! "guests"
    /\ sets db' = sets storeWithDinner.
Proof.
  eexists _, _. split; [vm_compute; reflexivity|].
  destruct (cancellation_changes_two_fields oneHourBefore "res_1"
              storeWithDinner _ _ ltac:(vm_compute; reflexivity))
    as (_ & _ & Hfields & _ & Hsets & _).
  split; [|exact Hsets].
  apply Hfields; discriminate.
Defined.


(** A table for two at tonino, booked and read back. *)
Lemma booking_can_be_read_back_witness :
  exists (db' : Redis) (reservation : Reservation)
         (summary : RestaurantSummary),
    @createReservation asciiRuntime oneHourBefore Examples.tableForTwo
      emptyStore
    = (db', Ok (reservation, summary))
    /\ getReservationById "res_2" db'
       = Ok (@flatten asciiRuntime reservation, summary).
Proof.
  eexists _, _, _. split; [vm_compute; reflexivity|].
  exact (proj1 (@booking_can_be_read_back asciiRuntime oneHourBefore
                  Examples.tableForTwo emptyStore _ _ _ eq_refl
                  ltac:(vm_compute; reflexivity)
                  ltac:(vm_compute; reflexivity))).
Defined.

(** The reservation that the booking at a restaurant that does not exist
    leaves behind. *)
Lemma orphan_booking_cannot_be_cancelled_witness :
  exists db' : Redis,
    @createReservation asciiRuntime oneHourBefore ghostBooking emptyStore
    = (db', Raise "RESTAURANT_NOT_FOUND")
    /\ cancelReservation oneHourBefore "res_2" db'
       = (db', Raise "RESTAURANT_NOT_FOUND")
    /\ storedStatus "res_2" db' = Some "confirmed".
Proof.
  eexists. split; [vm_compute; reflexivity|].
  exact (proj2 (@orphan_booking_cannot_be_cancelled asciiRuntime oneHourBefore
                  oneHourBefore ghostBooking emptyStore _
                  "RESTAURANT_NOT_FOUND" eq_refl
                  ltac:(vm_compute; reflexivity)
                  ltac:(discriminate))).
Defined.

(** The dinner of ashwin can be cancelled. *)
Lemma cancellation_is_accepted_iff_witness :
  isOk (snd (cancelReservation oneHourBefore "res_1" storeWithDinner)) = true.
Proof.
  apply cancellation_is_accepted_iff.
  split; [reflexivity|]. split; [|split].
  - intros Hempty.
    apply (f_equal (fun m : gmap string string => m !! "status")) in Hempty.
    vm_compute in Hempty. discriminate.
  - vm_compute. reflexivity.
  - vm_compute. discriminate.
Defined.

(** The booking at a restaurant that does not exist is written. *)
Lemma booking_is_written_before_the_restaurant_is_checked_witness :
  storedStatus "res_2"
    (fst (@createReservation asciiRuntime oneHourBefore ghostBooking
            emptyStore))
  = Some "confirmed"
  /\ isOk (snd (@createReservation asciiRuntime oneHourBefore ghostBooking
                  emptyStore))
     = false.
Proof.
  destruct (proj2 (@booking_is_written_before_the_restaurant_is_checked
                     asciiRuntime oneHourBefore ghostBooking emptyStore)
              ltac:(vm_compute; discriminate))
    as (Hstored & _ & Hok).
  split; [exact Hstored|]. rewrite Hok. vm_compute. reflexivity.
Defined.

(** The dinner of ashwin, deleted. *)
Lemma deleted_reservation_is_gone_witness :
  snd (repository_deleteReservation "res_1" storeWithDinner) = true
  /\ repository_getReservationById "res_1"
       (fst (repository_deleteReservation "res_1" storeWithDinner))
     = None.
Proof.
  split; [vm_compute; reflexivity|].
  exact (proj1 (proj2 (deleted_reservation_is_gone oneHourBefore "res_1"
                         storeWithDinner)
                  ltac:(vm_compute; reflexivity))).
Defined.

End ReservationProperties.

Module RoutingProperties.
Import Routing.

(** X23.  Every request for a path of one segment goes to the route [/:id],
    which is registered before [/popular], [/filters] and [/stats]: no
    request reaches the handlers of these three routes, whatever its
    method and path and however literals are compared. *)
Theorem listing_routes_are_never_reached
    (literalMatches : string -> string -> bool) (method : Method)
    (path : list string) (h : RestaurantHandler) (bound : Params) :
  Forall (fun segment => Js.truthy segment = true) path ->
  dispatch literalMatches restaurantRouter method path = Some (h, bound) ->
  h <> PopularRoute /\ h <> FiltersRoute /\ h <> StatsRoute
  /\ (forall segment : string,
        path = [segment] -> h = ByIdRoute /\ bound = [("id", segment)]).
Proof.
  intros Hpath. unfold restaurantRouter. cbn [dispatch verb pattern handler].
  destruct (verbMatches GET method); [|discriminate].
  destruct path as [|s [|s' path']].
  - cbn. intros H. inversion H. repeat split; discriminate.
  - inversion Hpath as [|? ? Hs _]; subst. cbn. rewrite Hs. cbn.
    intros H. inversion H. repeat split; try discriminate; congruence.
  - destruct path' as [|s'' path'']; cbn;
      repeat match goal with
             | |- context [literalMatches ?a ?b] =>
                 destruct (literalMatches a b); cbn
             | |- context [Js.truthy ?a] => destruct (Js.truthy a); cbn
             end;
      intros H; inversion H; repeat split; (discriminate || congruence).
Qed.

(** [GET /popular] is answered by the handler of [/:id], with
    [popular] as the identifier. *)
Lemma listing_routes_are_never_reached_witness :
  dispatch String.eqb restaurantRouter GET ["popular"]
  = Some (ByIdRoute, [("id", "popular")])
  /\ ByIdRoute <> PopularRoute.
Proof.
  split; [reflexivity|].
  exact (proj1 (listing_routes_are_never_reached String.eqb GET ["popular"]
                  ByIdRoute [("id", "popular")]
                  ltac:(repeat constructor) eq_refl)).
Defined.

End RoutingProperties.

Module PolicyProperties.
Import Caching Workflow Traces.

Lemma filter_nil_iff {A : Type} (f : A -> bool) (l : list A) :
  List.filter f l = [] <-> forall x : A, In x l -> f x = false.
Proof.
  induction l as [|y l IH]; cbn.
  - split; [intros _ x []|reflexivity].
  - destruct (f y) eqn:Hy.
    + split; [discriminate|]. intros Hall.
      specialize (Hall y (or_introl eq_refl)). congruence.
    + rewrite IH. split.
      * intros Hall x [<-|Hx]; [exact Hy|now apply Hall].
      * intros Hall x Hx. apply Hall. now right.
Qed.

(** X24.  The policy knows every tool of the registry: a turn gets the
    default TTL of 12 hours exactly when no name of its tool list is a
    tool of the registry, so a turn that ran a tool never gets the
    default. *)
Theorem default_ttl_means_no_registered_tool (toolsUsed : list string) :
  determineToolBasedCacheTTL toolsUsed = (12 * 60 * 60 * 1000)%Z
  <-> registered toolsUsed = [].
Proof.
  unfold registered. rewrite filter_nil_iff.
  unfold determineToolBasedCacheTTL, Js.some, personalTools, staticTools,
    searchTools, detailTools.
  cbn [existsb].
  split.
  - intros Httl x Hx.
    destruct (Js.includes restaurantTools x) eqn:Hreg; [|reflexivity].
    exfalso. apply JsFacts.includes_In in Hreg. cbn in Hreg.
    assert (Hused : Js.includes toolsUsed x = true)
      by now apply JsFacts.includes_In.
    revert Httl.
    destruct Hreg as [<-|[<-|[<-|[<-|[<-|[<-|[<-|[]]]]]]]];
      rewrite ?Hused;
      repeat match goal with
             | |- context [Js.includes toolsUsed ?n] =>
                 destruct (Js.includes toolsUsed n)
             end; cbn; discriminate.
  - intros Hnone.
    assert (Hout : forall n : string,
               Js.includes restaurantTools n = true ->
               Js.includes toolsUsed n = false).
    { intros n Hn. destruct (Js.includes toolsUsed n) eqn:Hused;
        [|reflexivity].
      apply JsFacts.includes_In in Hused. apply Hnone in Hused. congruence. }
    rewrite !Hout by reflexivity. reflexivity.
Qed.

(** A turn that the model answered with no tool. *)
Lemma default_ttl_means_no_registered_tool_witness :
  determineToolBasedCacheTTL ["none"] = (12 * 60 * 60 * 1000)%Z.
Proof.
  apply default_ttl_means_no_registered_tool. reflexivity.
Defined.

End PolicyProperties.
